(** * Images to PDF: the conversion pipeline of [src/app/page.tsx]

    The component [ImageToPDFConverter] keeps a list of selected files and, on
    request, turns every file into one page of a PDF document: the image is
    scaled down to fit 1600 x 1200, stamped with a watermark, embedded, and
    titled with its file name.

    The development has two parts.  The first holds the model: JavaScript
    numbers, strings, the browser and pdf-lib objects the code touches, the
    asynchronous functions of the component and the two ways of executing
    them.  The second holds the facts proved about the model. *)

From Stdlib Require Import ZArith QArith Qround Qabs Qpower Qreduction Qminmax.
From Stdlib Require Import Lia Lqa Bool List String Ascii Sorted.
From Stdlib Require Floats.
Import ListNotations.

Set Implicit Arguments.

(* ===================================================================== *)
(** * Part I: the model *)
(* ===================================================================== *)

(** ** JavaScript numbers

    A JavaScript Number is an IEEE 754 binary64 value.  Finite values are
    kept as the rational they denote; every arithmetic operation computes
    the exact rational result and rounds it to the nearest representable
    value, ties to even ([flq]), as ECMAScript prescribes.  The two zeros
    are identified: nothing in this program tells them apart. *)

Definition pow2 (k : Z) : Q := (2 ^ k)%Q.

(** [ilog2 q] is the integer [k] with [2^k <= q < 2^(k+1)], for [0 < q]. *)
Definition ilog2 (q : Q) : Z :=
  let k := (Z.log2 (Qnum q) - Z.log2 (QDen q))%Z in
  if Qle_bool (pow2 k) q then k else (k - 1)%Z.

(** Nearest integer, ties to the even one. *)
Definition round_half_even (q : Q) : Z :=
  let f := Qfloor q in
  match Qcompare (q - inject_Z f) (1 # 2) with
  | Lt => f
  | Gt => (f + 1)%Z
  | Eq => if Z.even f then f else (f + 1)%Z
  end.

(** Exponent of the least significant bit of the 53-bit significand of a
    value of magnitude [q]; it stops at [2^-1074] (subnormal numbers). *)
Definition emin : Z := (-1074)%Z.

Definition fexp (q : Q) : Z := Z.max (ilog2 q - 52) emin.

Definition round_pos (q : Q) : Q :=
  let e := fexp q in (inject_Z (round_half_even (q / pow2 e)) * pow2 e)%Q.

(** Rounding of an exact result to binary64, before the overflow test. *)
Definition flq (x : Q) : Q :=
  let q := Qred x in
  Qred match Qcompare q 0 with
       | Eq => 0
       | Gt => round_pos q
       | Lt => - round_pos (- q)
       end.

Inductive number : Type :=
| Fin (q : Q)
| PosInf
| NegInf
| NaN.

Definition signed_inf (nonneg : bool) : number :=
  if nonneg then PosInf else NegInf.

(** The Number nearest to an exact value; magnitudes that round to
    [2^1024] or more overflow to an infinity. *)
Definition fl (x : Q) : number :=
  let r := flq x in
  if Qle_bool (pow2 1024) (Qabs r) then signed_inf (Qle_bool 0 r) else Fin r.

(** An integer taken as a Number (array lengths, indices, pixel sizes). *)
Definition of_Z (z : Z) : number := fl (inject_Z z).

(** A numeric literal of the source text. *)
Definition lit (q : Q) : number := fl q.

Definition num_neg (a : number) : number :=
  match a with
  | Fin x => Fin (Qred (- x))
  | PosInf => NegInf
  | NegInf => PosInf
  | NaN => NaN
  end.

Definition num_add (a b : number) : number :=
  match a, b with
  | NaN, _ | _, NaN => NaN
  | Fin x, Fin y => fl (x + y)
  | PosInf, NegInf | NegInf, PosInf => NaN
  | PosInf, _ | _, PosInf => PosInf
  | NegInf, _ | _, NegInf => NegInf
  end.

Definition num_sub (a b : number) : number := num_add a (num_neg b).

Definition num_mul (a b : number) : number :=
  match a, b with
  | NaN, _ | _, NaN => NaN
  | Fin x, Fin y => fl (x * y)
  | Fin x, PosInf | PosInf, Fin x =>
      if Qeq_bool x 0 then NaN else signed_inf (Qle_bool 0 x)
  | Fin x, NegInf | NegInf, Fin x =>
      if Qeq_bool x 0 then NaN else signed_inf (negb (Qle_bool 0 x))
  | PosInf, PosInf | NegInf, NegInf => PosInf
  | PosInf, NegInf | NegInf, PosInf => NegInf
  end.

Definition num_div (a b : number) : number :=
  match a, b with
  | NaN, _ | _, NaN => NaN
  | Fin x, Fin y =>
      if Qeq_bool y 0
      then (if Qeq_bool x 0 then NaN else signed_inf (Qle_bool 0 x))
      else fl (x / y)
  | Fin _, _ => Fin 0
  | PosInf, Fin y => signed_inf (Qle_bool 0 y)
  | NegInf, Fin y => signed_inf (negb (Qle_bool 0 y))
  | _, _ => NaN
  end.

(** [a > b]; false as soon as one side is NaN. *)
Definition num_gt (a b : number) : bool :=
  match a, b with
  | NaN, _ | _, NaN => false
  | Fin x, Fin y => negb (Qle_bool x y)
  | PosInf, PosInf | NegInf, _ => false
  | PosInf, _ => true
  | Fin _, PosInf => false
  | Fin _, NegInf => true
  end.

(** [Math.min(a, b)]. *)
Definition Math_min (a b : number) : number :=
  match a, b with
  | NaN, _ | _, NaN => NaN
  | _, _ => if num_gt a b then b else a
  end.

(** [Math.floor(a)]. *)
Definition Math_floor (a : number) : number :=
  match a with
  | Fin x => Fin (inject_Z (Qfloor x))
  | _ => a
  end.

(** Conversion of a Number to a Web IDL [unsigned long], as done when a
    Number is stored in [canvas.width] or [canvas.height]: NaN and the
    infinities give 0, other values are truncated towards zero and taken
    modulo [2^32]. *)
Definition to_unsigned_long (a : number) : Z :=
  match a with
  | Fin x => ((if Qle_bool 0 x then Qfloor x else Qceiling x) mod 2 ^ 32)%Z
  | _ => 0%Z
  end.

(** Assignment of a Number to [canvas.width] or [canvas.height].  The two
    attributes reflect content attributes of type [unsigned long]: the
    Number is converted as above, and a result above 2147483647 is replaced
    by the default of the attribute (300 for the width, 150 for the
    height). *)
Definition canvas_dimension (default : Z) (a : number) : Z :=
  let v := to_unsigned_long a in
  if (v <=? 2147483647)%Z then v else default.

(** Order on Numbers, used to state that a sequence does not decrease. *)
Definition num_le (a b : number) : Prop :=
  match a, b with
  | Fin x, Fin y => (x <= y)%Q
  | NegInf, (Fin _ | PosInf | NegInf) => True
  | (Fin _ | PosInf), PosInf => True
  | _, _ => False
  end.

Declare Scope js_scope.
Delimit Scope js_scope with js.
Bind Scope js_scope with number.
Infix "+" := num_add : js_scope.
Infix "-" := num_sub : js_scope.
Infix "*" := num_mul : js_scope.
Infix "/" := num_div : js_scope.
Infix ">?" := num_gt (at level 70, no associativity) : js_scope.

(** ** JavaScript strings

    Strings are sequences of code units; the two methods the component
    calls are modelled on [string].  [lastIndexOf] is called with the
    one-character search string ["."], so the search string is a single
    character here. *)

Fixpoint lastIndexOf_from (s : string) (c : ascii) (i : Z) (found : Z) : Z :=
  match s with
  | EmptyString => found
  | String a s' =>
      lastIndexOf_from s' c (i + 1) (if Ascii.eqb a c then i else found)
  end.

(** [s.lastIndexOf(c)]: index of the last occurrence, [-1] when absent. *)
Definition lastIndexOf (s : string) (c : ascii) : Z :=
  lastIndexOf_from s c 0 (-1).

(** [s.substring(start, end)]: both indices are clamped to [0, length s]
    and swapped when out of order. *)
Definition js_substring (s : string) (istart iend : Z) : string :=
  let len := Z.of_nat (String.length s) in
  let a := Z.min (Z.max istart 0) len in
  let b := Z.min (Z.max iend 0) len in
  let lo := Z.min a b in
  let hi := Z.max a b in
  String.substring (Z.to_nat lo) (Z.to_nat (hi - lo)) s.

(** ** Files, images, canvases *)

(** A [File] of the browser: its name and its bytes. *)
Record File : Type := { name : string; bytes : list Byte.byte }.

(** Text settings of a 2D context at the time of a [fillText]. *)
Record TextStyle : Type := {
  font_bold : bool;
  font_px : number;
  font_family : string;
  fillStyle : Z * Z * Z * number;
  textAlign : string;
  textBaseline : string
}.

(** A data URL is known by the way it was made: read from a file, or
    exported from a canvas with a type and a quality.  A canvas has an
    integer pixel size and the drawing calls made on its context. *)
Inductive DataUrl : Type :=
| FileUrl (file : File)
| CanvasUrl (canvas : Canvas) (type : string) (quality : number)
with Canvas : Type :=
| MkCanvas (canvas_width canvas_height : Z) (drawn : list DrawOp)
with DrawOp : Type :=
| DrawImage (image : DataUrl) (dx dy : number) (dsize : option (number * number))
| FillText (text : string) (x y : number) (style : TextStyle).

(** An [HTMLImageElement] whose [load] event has fired. *)
Record Image : Type := { src : DataUrl; width : Z; height : Z }.

(** ** pdf-lib objects *)

(** An embedded font: its name and its text measure, which throws ([None])
    on a character the font cannot encode. *)
Record PDFFont : Type := {
  font_name : string;
  widthOfTextAtSize : string -> number -> option number
}.

Record PDFImage : Type := { png : DataUrl; png_width : Z; png_height : Z }.

Record DrawnImage : Type := {
  drawn_image : PDFImage;
  image_x : number;
  image_y : number;
  image_width : number;
  image_height : number
}.

Record DrawnText : Type := {
  drawn_text : string;
  text_x : number;
  text_y : number;
  text_size : number;
  text_font : string;
  text_color : number * number * number
}.

Record PDFPage : Type := {
  page_width : number;
  page_height : number;
  page_images : list DrawnImage;
  page_texts : list DrawnText
}.

(** The bytes written by [pdfDoc.save()]: the pages they serialise and
    whatever else the writer put in (identifiers, dates). *)
Record PdfBytes : Type := { saved_pages : list PDFPage; saved_variant : nat }.

(** ** Asynchronous code

    An [async] function is a tree: it returns, throws, waits for ever on a
    promise nobody settles, performs an observable action, or awaits a
    request to the browser or to pdf-lib and goes on with the answer.
    Every [Await] is a point where the function is suspended and other
    handlers of the page may run. *)

Inductive Request : Type -> Type :=
| ReadAsDataURL (file : File) : Request bool
| ImageLoad (src : DataUrl) : Request (option (Z * Z))
| PdfCreate : Request bool
| PdfEmbedFont (font : string) : Request (option PDFFont)
| PdfEmbedPng (data : DataUrl) : Request (option (Z * Z))
| PdfSave (pages : list PDFPage) : Request (option nat).

Inductive Effect : Type :=
| SetIsGenerating (b : bool)
| SetProgress (v : number)
| ConsoleError
| Download (data : PdfBytes) (download : string) (type : string).

Inductive Async (A : Type) : Type :=
| Ret (a : A)
| Throw
| Never
| Await (X : Type) (request : Request X) (k : X -> Async A)
| Act (e : Effect) (k : Async A).

Arguments Throw {A}.
Arguments Never {A}.
Arguments Await {A X} request k.

Fixpoint bind_async {A B : Type} (m : Async A) (f : A -> Async B) : Async B :=
  match m with
  | Ret a => f a
  | Throw => Throw
  | Never => Never
  | Await r k => Await r (fun x => bind_async (k x) f)
  | Act e k => Act e (bind_async k f)
  end.

Declare Scope async_scope.
Delimit Scope async_scope with async.
Bind Scope async_scope with Async.
Notation "x <- c ;; k" := (bind_async c (fun x => k))
  (at level 61, c at next level, right associativity) : async_scope.
Notation "c ;; k" := (bind_async c (fun _ => k))
  (at level 61, right associativity) : async_scope.
Local Open Scope async_scope.

Definition await {X : Type} (r : Request X) : Async X := Await r (@Ret X).

Definition act (e : Effect) : Async unit := Act e (Ret tt).

(** [try { body } catch { handler } finally { final }] *)
Fixpoint try_catch_finally (body handler final : Async unit) : Async unit :=
  match body with
  | Ret _ => final
  | Throw => handler ;; final
  | Never => Never
  | Await r k => Await r (fun x => try_catch_finally (k x) handler final)
  | Act e k => Act e (try_catch_finally k handler final)
  end.

(** ** The component

    The functions below follow [ImageToPDFConverter] line by line.  The
    state of the component is [files], [isGenerating] and [progress]. *)

Local Open Scope string_scope.
Local Open Scope js_scope.

(** [fileToDataUrl]: resolves on [reader.onload], rejects on
    [reader.onerror]. *)
Definition fileToDataUrl (file : File) : Async DataUrl :=
  loaded <- await (ReadAsDataURL file) ;;
  if loaded then Ret (FileUrl file) else Throw.

(** [new Image()] with an [onload] handler and its [src] set: the
    continuation runs once the image has loaded.  Neither [resizeImage] nor
    [addWatermark] installs an [onerror] handler, so the promise they return
    stays pending when the image does not load. *)
Definition onload (url : DataUrl) : Async Image :=
  size <- await (ImageLoad url) ;;
  match size with
  | Some (w, h) => Ret {| src := url; width := w; height := h |}
  | None => Never
  end.

(** The dimensions computed by [resizeImage] (the [let width], [let height]
    and the [if] that follows). *)
Definition resizeDims (img_width img_height : Z) (maxWidth maxHeight : number)
  : number * number :=
  let width := of_Z img_width in
  let height := of_Z img_height in
  if (width >? maxWidth) || (height >? maxHeight) then
    let ratio := Math_min (maxWidth / width) (maxHeight / height) in
    (width * ratio, height * ratio)
  else (width, height).

(** The canvas of [resizeImage]: [canvas.width = width],
    [canvas.height = height], then [drawImage(img, 0, 0, width, height)]. *)
Definition resizeCanvas (img : Image) (maxWidth maxHeight : number) : Canvas :=
  let '(width, height) := resizeDims (width img) (height img) maxWidth maxHeight in
  MkCanvas (canvas_dimension 300 width) (canvas_dimension 150 height)
    [DrawImage (src img) (lit 0) (lit 0) (Some (width, height))].

Definition resizeImage (dataUrl : DataUrl) (maxWidth maxHeight : number)
  : Async DataUrl :=
  img <- onload dataUrl ;;
  Ret (CanvasUrl (resizeCanvas img maxWidth maxHeight) "image/jpeg" (lit 0.8)).

(** [Math.floor((img.width / watermarkText.length) * 1.6)] *)
Definition watermarkFontSize (img_width : Z) (watermarkText : string) : number :=
  Math_floor
    ((of_Z img_width / of_Z (Z.of_nat (String.length watermarkText))) * lit 1.6).

Definition watermarkCanvas (img : Image) (watermarkText : string) : Canvas :=
  let fontSize := watermarkFontSize (width img) watermarkText in
  MkCanvas (canvas_dimension 300 (of_Z (width img)))
           (canvas_dimension 150 (of_Z (height img)))
    [DrawImage (src img) (lit 0) (lit 0) None;
     FillText watermarkText (of_Z (width img) / lit 2) (of_Z (height img) / lit 2)
       {| font_bold := true;
          font_px := fontSize;
          font_family := "Arial";
          fillStyle := (200%Z, 200%Z, 200%Z, lit 0.5);
          textAlign := "center";
          textBaseline := "middle" |}].

Definition addWatermark (dataUrl : DataUrl) (watermarkText : string)
  : Async DataUrl :=
  img <- onload dataUrl ;;
  Ret (CanvasUrl (watermarkCanvas img watermarkText) "image/png" (lit 0.8)).

Definition removeFileExtension (filename : string) : string :=
  let lastDotIndex := lastIndexOf filename "." in
  if (lastDotIndex =? -1)%Z then filename
  else js_substring filename 0 lastDotIndex.

(** pdf-lib: [pdfDoc.embedFont], [pdfDoc.embedPng], [image.scale],
    [pdfDoc.addPage], [page.drawImage], [page.drawText], [pdfDoc.save]. *)

Definition create : Async unit :=
  created <- await PdfCreate ;;
  if created then Ret tt else Throw.

Definition embedFont (font : string) : Async PDFFont :=
  embedded <- await (PdfEmbedFont font) ;;
  match embedded with
  | Some f => Ret f
  | None => Throw
  end.

Definition embedPng (data : DataUrl) : Async PDFImage :=
  size <- await (PdfEmbedPng data) ;;
  match size with
  | Some (w, h) => Ret {| png := data; png_width := w; png_height := h |}
  | None => Throw
  end.

Definition scale (image : PDFImage) (factor : number) : number * number :=
  (of_Z (png_width image) * factor, of_Z (png_height image) * factor).

Definition addPage (size : number * number) : PDFPage :=
  {| page_width := fst size; page_height := snd size;
     page_images := []; page_texts := [] |}.

Definition drawImage (page : PDFPage) (d : DrawnImage) : PDFPage :=
  {| page_width := page_width page; page_height := page_height page;
     page_images := page_images page ++ [d]; page_texts := page_texts page |}.

Definition drawText (page : PDFPage) (d : DrawnText) : PDFPage :=
  {| page_width := page_width page; page_height := page_height page;
     page_images := page_images page; page_texts := page_texts page ++ [d] |}.

Definition rgb (r g b : number) : number * number * number := (r, g, b).

Definition save (pages : list PDFPage) : Async PdfBytes :=
  written <- await (PdfSave pages) ;;
  match written with
  | Some v => Ret {| saved_pages := pages; saved_variant := v |}
  | None => Throw
  end.

(** The part of the loop body after [embedPng]: the page, the image on it
    and the title under it. *)
Definition layoutPage (font : PDFFont) (image : PDFImage) (file : File)
  : Async PDFPage :=
  let '(width, height) := scale image (lit 1) in
  let page := addPage (width + lit 100, height + lit 150) in
  let page :=
    drawImage page
      {| drawn_image := image;
         image_x := lit 50;
         image_y := lit 100;
         image_width := width;
         image_height := height |} in
  let fileName := removeFileExtension (name file) in
  let titleFontSize := lit 28 in
  match widthOfTextAtSize font fileName titleFontSize with
  | None => Throw
  | Some titleWidth =>
      Ret (drawText page
             {| drawn_text := fileName;
                text_x := (page_width page - titleWidth) / lit 2;
                text_y := lit 50;
                text_size := titleFontSize;
                text_font := font_name font;
                text_color := rgb (lit 0) (lit 0) (lit 0) |})
  end.

(** One turn of the loop, after the progress update. *)
Definition processFile (font : PDFFont) (file : File) : Async PDFPage :=
  dataUrl <- fileToDataUrl file ;;
  resizedDataUrl <- resizeImage dataUrl (lit 1600) (lit 1200) ;;
  watermarkedDataUrl <- addWatermark resizedDataUrl "Cleide Fotos" ;;
  image <- embedPng watermarkedDataUrl ;;
  layoutPage font image file.

(** [for (let i = 0; i < files.length; i++)]: [rest] is [files] from index
    [i] on, [length] is [files.length], [pages] are the pages of [pdfDoc]. *)
Fixpoint forFiles (font : PDFFont) (length : number) (rest : list File) (i : Z)
  (pages : list PDFPage) : Async (list PDFPage) :=
  match rest with
  | [] => Ret pages
  | file :: rest' =>
      act (SetProgress ((of_Z i / length) * lit 90)) ;;
      page <- processFile font file ;;
      forFiles font length rest' (i + 1) (pages ++ [page])
  end.

Definition handleGeneratePDF (files : list File) : Async unit :=
  if (Z.of_nat (List.length files) =? 0)%Z then Ret tt
  else
    act (SetIsGenerating true) ;;
    act (SetProgress (lit 0)) ;;
    try_catch_finally
      (create ;;
       font <- embedFont "Helvetica" ;;
       pages <- forFiles font (of_Z (Z.of_nat (List.length files))) files 0 [] ;;
       pdfBytes <- save pages ;;
       act (SetProgress (lit 100)) ;;
       act (Download pdfBytes "images.pdf" "application/pdf"))
      (act ConsoleError)
      (act (SetIsGenerating false)).

(** [onDrop] and [handleRemoveFile]: both build a new array. *)
Definition onDrop (prev acceptedFiles : list File) : list File :=
  prev ++ acceptedFiles.

Fixpoint filter_index (prev : list File) (keep : nat -> bool) (i : nat) : list File :=
  match prev with
  | [] => []
  | f :: prev' =>
      if keep i then f :: filter_index prev' keep (S i)
      else filter_index prev' keep (S i)
  end.

Definition handleRemoveFile (prev : list File) (index : nat) : list File :=
  filter_index prev (fun i => negb (Nat.eqb i index)) 0.

(** ** The outside world

    What the browser and pdf-lib answer: whether a file can be read, the
    pixel size of the image it holds (when it decodes), whether pdf-lib
    creates documents, embeds fonts and images, and what it writes. *)

Record World : Type := {
  reads : File -> bool;
  decodes : File -> option (Z * Z);
  pdf_creates : bool;
  pdf_fonts : string -> option PDFFont;
  pdf_embeds : DataUrl -> bool;
  pdf_saves : list PDFPage -> option nat
}.

(** The image behind a data URL.  The export of a canvas has the size of
    the canvas; a canvas without pixels exports the URL ["data:,"], which
    is not an image. *)
Definition image_size (w : World) (url : DataUrl) : option (Z * Z) :=
  match url with
  | FileUrl f => decodes w f
  | CanvasUrl (MkCanvas cw ch _) _ _ =>
      if ((0 <? cw) && (0 <? ch))%Z then Some (cw, ch) else None
  end.

Definition answer (w : World) {X : Type} (r : Request X) : X :=
  match r in Request T return T with
  | ReadAsDataURL f => reads w f
  | ImageLoad url => image_size w url
  | PdfCreate => pdf_creates w
  | PdfEmbedFont f => pdf_fonts w f
  | PdfEmbedPng data => if pdf_embeds w data then image_size w data else None
  | PdfSave pages => pdf_saves w pages
  end.

(** ** Running to completion

    [run] executes an asynchronous function with nothing else going on
    and returns what could be observed, in order, and how it ended. *)

Inductive Outcome (A : Type) : Type :=
| Finished (a : A)
| Threw
| Pending.

Arguments Threw {A}.
Arguments Pending {A}.

Inductive Observation : Type :=
| Asked (X : Type) (r : Request X)
| Did (e : Effect).

Arguments Asked {X} r.

Fixpoint run {A : Type} (w : World) (t : Async A) : list Observation * Outcome A :=
  match t with
  | Ret a => ([], Finished a)
  | Throw => ([], Threw)
  | Never => ([], Pending)
  | Await r k => let (tr, o) := run w (k (answer w r)) in (Asked r :: tr, o)
  | Act e k => let (tr, o) := run w k in (Did e :: tr, o)
  end.

Definition effects (tr : list Observation) : list Effect :=
  flat_map (fun o => match o with Did e => [e] | Asked _ => [] end) tr.

(** ** Running inside the page

    While a run of [handleGeneratePDF] is suspended at an [await] the user
    can drop more files or remove some.  [App] is the state of the
    component together with the suspended run, if any, and the record of
    what the component has done so far. *)

Record App : Type := {
  files : list File;
  isGenerating : bool;
  progress : number;
  inflight : option (Async unit);
  done : list Effect
}.

Definition perform (e : Effect) (a : App) : App :=
  {| files := files a;
     isGenerating := match e with SetIsGenerating b => b | _ => isGenerating a end;
     progress := match e with SetProgress v => v | _ => progress a end;
     inflight := inflight a;
     done := done a ++ [e] |}.

Definition suspend (t : option (Async unit)) (a : App) : App :=
  {| files := files a; isGenerating := isGenerating a; progress := progress a;
     inflight := t; done := done a |}.

Definition setFiles (fs : list File) (a : App) : App :=
  {| files := fs; isGenerating := isGenerating a; progress := progress a;
     inflight := inflight a; done := done a |}.

(** Synchronous execution up to the next [await]. *)
Fixpoint advance (t : Async unit) (a : App) : App :=
  match t with
  | Act e k => advance k (perform e a)
  | Await _ _ | Never => suspend (Some t) a
  | Ret _ | Throw => suspend None a
  end.

Inductive Event : Type :=
| Drop (acceptedFiles : list File)
| Remove (index : nat)
| Click
| Settle.

(** The button is [disabled={files.length === 0 || isGenerating}]. *)
Definition disabled (a : App) : bool :=
  (Z.of_nat (List.length (files a)) =? 0)%Z || isGenerating a.

Definition step (w : World) (ev : Event) (a : App) : App :=
  match ev with
  | Drop acceptedFiles => setFiles (onDrop (files a) acceptedFiles) a
  | Remove index => setFiles (handleRemoveFile (files a) index) a
  | Click => if disabled a then a else advance (handleGeneratePDF (files a)) a
  | Settle =>
      match inflight a with
      | Some (Await r k) => advance (k (answer w r)) a
      | _ => a
      end
  end.

Definition exec (w : World) (evs : list Event) (a : App) : App :=
  fold_left (fun a ev => step w ev a) evs a.

(** What a finished run has produced. *)
Definition downloads (es : list Effect) : list PdfBytes :=
  flat_map (fun e => match e with Download d _ _ => [d] | _ => [] end) es.

Definition progressReports (es : list Effect) : list number :=
  flat_map (fun e => match e with SetProgress v => [v] | _ => [] end) es.

Definition filesRead (tr : list Observation) : list File :=
  flat_map (fun o => match o with
                     | Asked (ReadAsDataURL f) => [f]
                     | _ => []
                     end) tr.

Definition documentsWritten (tr : list Observation) : list (list PDFPage) :=
  flat_map (fun o => match o with
                     | Asked (PdfSave pages) => [pages]
                     | _ => []
                     end) tr.

(** ** Vocabulary of the statements *)

(** Does the character occur in the string? *)
Fixpoint contains (c : ascii) (s : string) : bool :=
  match s with
  | EmptyString => false
  | String a s' => Ascii.eqb a c || contains c s'
  end.

(** The file whose pixels a data URL shows, through the canvases it went
    through: the first thing drawn on each canvas is the previous image. *)
Fixpoint origin (url : DataUrl) : option File :=
  match url with
  | FileUrl f => Some f
  | CanvasUrl (MkCanvas _ _ (DrawImage url' _ _ _ :: _)) _ _ => origin url'
  | CanvasUrl _ _ _ => None
  end.

(** The titles and the source files of the pages of a document. *)
Definition pageTitles (p : PDFPage) : list string :=
  map drawn_text (page_texts p).

Definition pageSources (p : PDFPage) : list (option File) :=
  map (fun d => origin (png (drawn_image d))) (page_images p).

(** The progress reported before the entry of index [i] out of [n]:
    [(i / n) * 90], in the arithmetic of Numbers. *)
Definition progressBefore (n i : Z) : number :=
  ((of_Z i / of_Z n) * lit 90)%js.

(** The entry [f] yields the page [p]: its turn of the loop runs to the
    end and produces [p]. *)
Definition yields (w : World) (font : PDFFont) (f : File) (p : PDFPage) : Prop :=
  snd (run w (processFile font f)) = Finished p.

(** What a suspended run will still do once everything it awaits has
    been answered. *)
Definition remaining (w : World) (t : option (Async unit)) : list Effect :=
  match t with
  | Some t => effects (fst (run w t))
  | None => []
  end.

(** What the component has done between two states of the page. *)
Definition since (before after : App) : list Effect :=
  skipn (List.length (done before)) (done after).

(** The moments of a run that matter to its progress bar: a value is
    reported, the processing of an entry begins (its file is read), the
    document is serialised. *)
Inductive Mark : Type :=
| Reported (v : number)
| Processing (f : File)
| Serialising (pages : list PDFPage).

Definition timeline (tr : list Observation) : list Mark :=
  flat_map (fun o => match o with
                     | Did (SetProgress v) => [Reported v]
                     | Asked (ReadAsDataURL f) => [Processing f]
                     | Asked (PdfSave pages) => [Serialising pages]
                     | _ => []
                     end) tr.

(** For the entries from index [i] on, in order: the value [(i / n) * 90]
    is reported, then the entry is processed. *)
Fixpoint schedule (n i : Z) (entries : list File) : list Mark :=
  match entries with
  | [] => []
  | f :: entries' =>
      Reported (progressBefore n i) :: Processing f :: schedule n (i + 1) entries'
  end.

(** Half a unit in the last place of a normal Number, relative to its
    value: [2^-53]. *)
Definition u53 : Q := 1 # 9007199254740992.

(** The Number written [1.6] in the source. *)
Definition c16 : Q := 3602879701896397 # 2251799813685248.

(** The pixel size of the canvas that [resizeImage] exports for an image
    of [w] by [h] pixels, with the bounds the component passes. *)
Definition resizedSize (w h : Z) : Z * Z :=
  let '(width, height) := resizeDims w h (lit 1600) (lit 1200) in
  (canvas_dimension 300 width, canvas_dimension 150 height).

(** [min(1600 / w, 1200 / h)], computed exactly. *)
Definition exactRatio (w h : Z) : Q :=
  Qmin (1600 / inject_Z w) (1200 / inject_Z h).

(** ** A small world to try things on

    Every file can be read; a file with bytes holds a 2000 x 1000 image and
    a file without bytes holds none; pdf-lib works, and Helvetica measures
    14 units per character at any size. *)

Definition sampleFont : PDFFont :=
  {| font_name := "Helvetica";
     widthOfTextAtSize :=
       fun s _ => Some (of_Z (Z.of_nat (String.length s)) * lit 14)%js |}.

Definition sampleWorld : World :=
  {| reads := fun _ => true;
     decodes := fun f => match bytes f with
                         | [] => None
                         | _ => Some (2000, 1000)%Z
                         end;
     pdf_creates := true;
     pdf_fonts := fun _ => Some sampleFont;
     pdf_embeds := fun _ => true;
     pdf_saves := fun _ => Some 0%nat |}.

Definition sampleFile (n : string) : File :=
  {| name := n; bytes := [Byte.x89; Byte.x50] |}.

Definition brokenFile (n : string) : File := {| name := n; bytes := [] |}.

Definition sampleFiles : list File :=
  [sampleFile "photo.jpg"; sampleFile "archive.tar.gz"; sampleFile ".env";
   sampleFile "noext"].

Definition idle (fs : list File) : App :=
  {| files := fs; isGenerating := false; progress := lit 0;
     inflight := None; done := [] |}.

(** The user clicks, then drops a file and removes another while the run
    goes through its awaits. *)
Definition sampleEvents : list Event :=
  [Settle; Drop [sampleFile "late.png"]; Settle; Settle; Remove 0%nat]
  ++ repeat Settle 20.

Definition sampleDownloads (w : World) (fs : list File) : list PdfBytes :=
  downloads (effects (fst (run w (handleGeneratePDF fs)))).

Definition sampleDownload : PdfBytes :=
  hd {| saved_pages := []; saved_variant := 1 |}
     (sampleDownloads sampleWorld sampleFiles).

(** Another world: other images behind the same files, another writer. *)
Definition otherWorld : World :=
  {| reads := fun _ => true;
     decodes := fun _ => Some (800, 600)%Z;
     pdf_creates := true;
     pdf_fonts := fun _ => Some sampleFont;
     pdf_embeds := fun _ => true;
     pdf_saves := fun _ => Some 7%nat |}.

Definition otherDownload : PdfBytes :=
  hd {| saved_pages := []; saved_variant := 1 |}
     (sampleDownloads otherWorld sampleFiles).

(** A list whose second file holds no image. *)
Definition filesWithBroken : list File :=
  [sampleFile "a.png"; brokenFile "b.png"; sampleFile "c.png"].

Definition sampleImage : PDFImage :=
  {| png := FileUrl (sampleFile "photo.jpg"); png_width := 1600; png_height := 800 |}.

(** ** What is displayed *)

(** [Math.round(a)]: the nearest integer, a tie going to the larger one. *)
Definition Math_round (a : number) : number :=
  match a with
  | Fin x => Fin (inject_Z (Qfloor (x + (1 # 2))%Q))
  | _ => a
  end.

(** ** Data URLs

    [handleGeneratePDF] takes the bytes of the watermarked image out of its
    data URL: [watermarkedDataUrl.split(",")[1]], then [atob], then
    [Uint8Array.from(..., (c) => c.charCodeAt(0))].  A string is a sequence
    of code units below 256 here, which is all a data URL and the result of
    [atob] contain. *)

(** [s.split(sep)] for a one-character separator. *)
Fixpoint js_split (sep : ascii) (s : string) : list string :=
  match s with
  | EmptyString => [EmptyString]
  | String a s' =>
      if Ascii.eqb a sep then EmptyString :: js_split sep s'
      else match js_split sep s' with
           | piece :: pieces => String a piece :: pieces
           | [] => [String a EmptyString]
           end
  end.

(** [String(v)] for an array element that may be [undefined]. *)
Definition ToString (v : option string) : string :=
  match v with
  | Some s => s
  | None => "undefined"%string
  end.

(** ASCII whitespace: TAB, LF, FF, CR, SPACE. *)
Definition is_ascii_whitespace (c : ascii) : bool :=
  let n := N_of_ascii c in
  (n =? 9)%N || (n =? 10)%N || (n =? 12)%N || (n =? 13)%N || (n =? 32)%N.

(** The number of a character in the base64 alphabet of RFC 4648. *)
Definition base64_value (c : ascii) : option Z :=
  let n := Z.of_N (N_of_ascii c) in
  if ((65 <=? n) && (n <=? 90))%Z then Some (n - 65)%Z
  else if ((97 <=? n) && (n <=? 122))%Z then Some (n - 97 + 26)%Z
  else if ((48 <=? n) && (n <=? 57))%Z then Some (n - 48 + 52)%Z
  else if (n =? 43)%Z then Some 62%Z
  else if (n =? 47)%Z then Some 63%Z
  else None.

Fixpoint base64_values (data : list ascii) : option (list Z) :=
  match data with
  | [] => Some []
  | c :: data' =>
      match base64_value c, base64_values data' with
      | Some n, Some ns => Some (n :: ns)
      | _, _ => None
      end
  end.

(** When the length is a multiple of four, one or two [=] at the end are
    removed. *)
Definition remove_padding (data : list ascii) : list ascii :=
  if (Z.of_nat (List.length data) mod 4 =? 0)%Z then
    match rev data with
    | c1 :: r =>
        if Ascii.eqb c1 "=" then
          match r with
          | c2 :: r' => if Ascii.eqb c2 "=" then rev r' else rev r
          | [] => rev r
          end
        else data
    | [] => data
    end
  else data.

(** The byte of a number, modulo 256, as an element of a [Uint8Array]. *)
Definition byte_of_Z (z : Z) : Byte.byte :=
  match Byte.of_N (Z.to_N (z mod 256)) with
  | Some b => b
  | None => Byte.x00
  end.

(** The loop of the decoder: six bits are appended to the buffer for every
    character; a buffer of 24 bits is written out as three bytes. *)
Fixpoint decode_loop (data : list Z) (buffer : Z) (bits : Z) (output : list Byte.byte)
  : list Byte.byte * Z * Z :=
  match data with
  | [] => (output, buffer, bits)
  | n :: data' =>
      let buffer := (buffer * 64 + n)%Z in
      let bits := (bits + 6)%Z in
      if (bits =? 24)%Z
      then decode_loop data' 0%Z 0%Z
             (output ++ [byte_of_Z (buffer / 65536)%Z; byte_of_Z (buffer / 256)%Z;
                         byte_of_Z buffer])
      else decode_loop data' buffer bits output
  end.

(** The end of the decoder: a buffer of 12 bits gives one byte and a
    buffer of 18 bits two, the last four or two bits being discarded. *)
Definition decode_finish (state : list Byte.byte * Z * Z) : list Byte.byte :=
  let '(output, buffer, bits) := state in
  if (bits =? 12)%Z then (output ++ [byte_of_Z (buffer / 16)%Z])%list
  else if (bits =? 18)%Z
  then (output ++ [byte_of_Z (buffer / 1024)%Z; byte_of_Z (buffer / 4)%Z])%list
  else output.

(** The forgiving base64 decoder of the browser; [None] is failure. *)
Definition forgiving_base64_decode (data : list ascii) : option (list Byte.byte) :=
  let data := filter (fun c => negb (is_ascii_whitespace c)) data in
  let data := remove_padding data in
  if (Z.of_nat (List.length data) mod 4 =? 1)%Z then None
  else
    match base64_values data with
    | None => None
    | Some ns => Some (decode_finish (decode_loop ns 0%Z 0%Z []))
    end.

(** [atob(data)]: the decoded bytes as a string of code units; [None] when
    it throws [InvalidCharacterError]. *)
Definition atob (data : string) : option string :=
  match forgiving_base64_decode (list_ascii_of_string data) with
  | Some bs => Some (string_of_list_ascii (map ascii_of_byte bs))
  | None => None
  end.

(** [c.charCodeAt(0)] *)
Definition charCodeAt0 (c : ascii) : Z := Z.of_N (N_of_ascii c).

(** [Uint8Array.from(s, f)] *)
Definition Uint8Array_from (s : string) (f : ascii -> Z) : list Byte.byte :=
  map (fun c => byte_of_Z (f c)) (list_ascii_of_string s).

(** Lines 143 and 144 of the component: the bytes handed to [embedPng]. *)
Definition imageBytes (watermarkedDataUrl : string) : option (list Byte.byte) :=
  let base64Data := nth_error (js_split "," watermarkedDataUrl) 1%nat in
  match atob (ToString base64Data) with
  | Some decoded => Some (Uint8Array_from decoded charCodeAt0)
  | None => None
  end.

(** The other direction, as the browser does it in [canvas.toDataURL]:
    the character of a number in the base64 alphabet. *)
Definition base64_char (n : Z) : ascii :=
  ascii_of_N (Z.to_N (if n <? 26 then n + 65
                      else if n <? 52 then n - 26 + 97
                      else if n <? 62 then n - 52 + 48
                      else if n =? 62 then 43 else 47)%Z).

Definition Z_of_byte (b : Byte.byte) : Z := Z.of_N (Byte.to_N b).

(** The six-bit numbers of a byte sequence, the last ones filled with
    zero bits, and the padding of its encoding. *)
Fixpoint sextets (bs : list Byte.byte) : list Z :=
  match bs with
  | [] => []
  | [a] =>
      let a := Z_of_byte a in
      [a / 4; a mod 4 * 16]%Z
  | [a; b] =>
      let a := Z_of_byte a in
      let b := Z_of_byte b in
      [a / 4; a mod 4 * 16 + b / 16; b mod 16 * 4]%Z
  | a :: b :: c :: bs' =>
      let a := Z_of_byte a in
      let b := Z_of_byte b in
      let c := Z_of_byte c in
      (a / 4 :: a mod 4 * 16 + b / 16 :: b mod 16 * 4 + c / 64 :: c mod 64
       :: sextets bs')%Z
  end.

Fixpoint padding (bs : list Byte.byte) : list ascii :=
  match bs with
  | [] => []
  | [_] => ["="; "="]%char
  | [_; _] => ["="]%char
  | _ :: _ :: _ :: bs' => padding bs'
  end.

Definition base64_encode (bs : list Byte.byte) : list ascii :=
  map base64_char (sextets bs) ++ padding bs.

(** What [canvas.toDataURL(type)] returns for the encoded file [bs]:
    [data:<type>;base64,] followed by the base64 of RFC 4648, padded. *)
Definition toDataURL_of (type : string) (bs : list Byte.byte) : string :=
  ("data:" ++ type ++ ";base64," ++ string_of_list_ascii (base64_encode bs))%string.

(** ** Vocabulary of the further statements *)

(** The values given to [setIsGenerating], the number of calls of
    [console.error], the number of requests awaited, the number of clicks
    among the events. *)
Definition flags (es : list Effect) : list bool :=
  flat_map (fun e => match e with SetIsGenerating b => [b] | _ => [] end) es.

Definition errorsLogged (es : list Effect) : nat :=
  List.length (flat_map (fun e => match e with ConsoleError => [tt] | _ => [] end) es).

Definition awaits (tr : list Observation) : nat :=
  List.length (flat_map (fun o => match o with Asked _ => [tt] | Did _ => [] end) tr).

Definition clicks (evs : list Event) : nat :=
  List.length (filter (fun ev => match ev with Click => true | _ => false end) evs).

(** The calls [setProgress((i / n) * 90)] for the first [started] entries
    out of [n]. *)
Definition reportsBefore (n : Z) (started : nat) : list Effect :=
  map (fun k => SetProgress (progressBefore n (Z.of_nat k))) (seq 0 started).

(** Is the function suspended (at an [await], or for ever)? *)
Definition suspended (t : Async unit) : bool :=
  match t with
  | Await _ _ | Never => true
  | _ => false
  end.

(** The function performs no [setIsGenerating], whatever it is answered. *)
Fixpoint quiet {A : Type} (t : Async A) : Prop :=
  match t with
  | Ret _ | Throw | Never => True
  | Await r k => forall x, quiet (k x)
  | Act e k => match e with SetIsGenerating _ => False | _ => quiet k end
  end.

(** Whatever it is answered, the function performs exactly one more
    [setIsGenerating], which is [setIsGenerating(false)], and returns right
    after it; or it stays suspended for ever. *)
Fixpoint closing (t : Async unit) : Prop :=
  match t with
  | Ret _ | Throw => False
  | Never => True
  | Await r k => forall x, closing (k x)
  | Act e k =>
      match e with
      | SetIsGenerating b => b = false /\ k = Ret tt
      | _ => closing k
      end
  end.

(** The flag [isGenerating] tells whether a run is in flight. *)
Definition coherent (a : App) : Prop :=
  match inflight a with
  | None => isGenerating a = false
  | Some t => isGenerating a = true /\ suspended t = true /\ closing t
  end.

(** The component while a run that will never settle is in flight. *)
Definition hanging (w : World) (a : App) : Prop :=
  isGenerating a = true /\
  exists t, inflight a = Some t /\ closing t /\ snd (run w t) = Pending.

(** The two exports made for a file whose image measures [iw] by [ih]:
    the JPEG of [resizeImage], and the PNG of [addWatermark] that is
    embedded in the document. *)
Definition resizedUrl (f : File) (iw ih : Z) : DataUrl :=
  CanvasUrl
    (resizeCanvas {| src := FileUrl f; width := iw; height := ih |} (lit 1600) (lit 1200))
    "image/jpeg" (lit 0.8).

Definition watermarkedUrl (f : File) (iw ih : Z) : DataUrl :=
  CanvasUrl
    (watermarkCanvas
       {| src := resizedUrl f iw ih;
          width := fst (resizedSize iw ih);
          height := snd (resizedSize iw ih) |}
       "Cleide Fotos")
    "image/png" (lit 0.8).

(** The document [d] is made of the list selected at one of the clicks
    among [evs], starting from the idle component with the files [fs]. *)
Definition madeAtAClick (w : World) (fs : list File) (evs : list Event) (d : PdfBytes)
  : Prop :=
  exists (evs1 evs2 : list Event) (font : PDFFont),
    evs = (evs1 ++ Click :: evs2)%list /\
    pdf_fonts w "Helvetica" = Some font /\
    Forall2 (yields w font) (files (exec w evs1 (idle fs))) (saved_pages d).

(** A file in good order: it is read, it holds an image that is not too
    elongated, pdf-lib embeds the watermarked image and the font measures
    the label. *)
Definition convertible (w : World) (font : PDFFont) (f : File) : Prop :=
  reads w f = true /\
  widthOfTextAtSize font (removeFileExtension (name f)) (Fin 28) <> None /\
  exists iw ih : Z,
    decodes w f = Some (iw, ih) /\
    (1 <= iw < 2 ^ 32)%Z /\ (1 <= ih < 2 ^ 32)%Z /\
    (ih <= 600 * iw)%Z /\ (iw <= 800 * ih)%Z /\
    pdf_embeds w (watermarkedUrl f iw ih) = true.

(** ** More to try things on *)

(** A world where every file holds an image of 1 by 1201 pixels. *)
Definition sliverWorld : World :=
  {| reads := fun _ => true;
     decodes := fun _ => Some (1, 1201)%Z;
     pdf_creates := true;
     pdf_fonts := fun _ => Some sampleFont;
     pdf_embeds := fun _ => true;
     pdf_saves := fun _ => Some 0%nat |}.

(** A world where a file without bytes cannot be read. *)
Definition lockedWorld : World :=
  {| reads := fun f => match bytes f with [] => false | _ => true end;
     decodes := fun _ => Some (800, 600)%Z;
     pdf_creates := true;
     pdf_fonts := fun _ => Some sampleFont;
     pdf_embeds := fun _ => true;
     pdf_saves := fun _ => Some 0%nat |}.

(** The first page of the sample document. *)
Definition samplePage : PDFPage :=
  hd (addPage (lit 0, lit 0)) (saved_pages sampleDownload).

(** The first bytes of a PNG file. *)
Definition pngSignature : list Byte.byte :=
  [Byte.x89; Byte.x50; Byte.x4e; Byte.x47].

(** ** The arithmetic of the processor

    Rocq's primitive floating-point numbers are the binary64 numbers of the
    machine.  They are used to test the model of Numbers above: the same
    expression is computed with both and the results are compared. *)

Definition float_of_Z (z : Z) : PrimFloat.float :=
  PrimFloat.of_uint63 (Uint63.of_Z z).

Definition number_of_float (f : PrimFloat.float) : number :=
  match FloatOps.Prim2SF f with
  | SpecFloat.S754_zero _ => Fin 0
  | SpecFloat.S754_finite s m e =>
      Fin (Qred ((if s then -1 else 1) * inject_Z (Z.pos m) * pow2 e))
  | SpecFloat.S754_infinity s => signed_inf (negb s)
  | SpecFloat.S754_nan => NaN
  end.

Definition number_eqb (a b : number) : bool :=
  match a, b with
  | Fin x, Fin y => Qeq_bool x y
  | PosInf, PosInf | NegInf, NegInf | NaN, NaN => true
  | _, _ => false
  end.

Definition Zrange (a : Z) (n : nat) : list Z :=
  map (fun k => (a + Z.of_nat k)%Z) (seq 0 n).

(** [w * (1600 / w)], as in [resizeImage]. *)
Definition agree_on_width (w : Z) : bool :=
  number_eqb
    (number_of_float
       (PrimFloat.mul (float_of_Z w) (PrimFloat.div (float_of_Z 1600) (float_of_Z w))))
    (of_Z w * (lit 1600 / of_Z w))%js.

(** [(i / n) * 90], as in [handleGeneratePDF]. *)
Definition agree_on_progress (n i : Z) : bool :=
  number_eqb
    (number_of_float
       (PrimFloat.mul (PrimFloat.div (float_of_Z i) (float_of_Z n)) (float_of_Z 90)))
    (progressBefore n i).

(** [(w / len) * 1.6], as in [addWatermark]. *)
Definition agree_on_font (w len : Z) : bool :=
  number_eqb
    (number_of_float
       (PrimFloat.mul (PrimFloat.div (float_of_Z w) (float_of_Z len))
          (PrimFloat.div (float_of_Z 16) (float_of_Z 10))))
    ((of_Z w / of_Z len) * lit 1.6)%js.

(** [(pageWidth - titleWidth) / 2] with a title width of [t / 1000]. *)
Definition agree_on_title (pageWidth t : Z) : bool :=
  number_eqb
    (number_of_float
       (PrimFloat.div
          (PrimFloat.sub (float_of_Z pageWidth)
             (PrimFloat.div (float_of_Z t) (float_of_Z 1000)))
          (float_of_Z 2)))
    ((of_Z pageWidth - (of_Z t / of_Z 1000)) / lit 2)%js.

(* ===================================================================== *)
(** * Part II: facts *)
(* ===================================================================== *)

Unset Implicit Arguments.

(** ** Rounding to binary64 *)

Section Rounding.
Local Open Scope Q_scope.

Lemma pow2_pos k : 0 < pow2 k.
Proof. apply Qpower_0_lt. reflexivity. Qed.

Lemma pow2_add a b : pow2 (a + b) == pow2 a * pow2 b.
Proof. apply Qpower_plus. discriminate. Qed.

Lemma pow2_sub a b : pow2 (a - b) == pow2 a / pow2 b.
Proof. apply Qpower_minus. discriminate. Qed.

Lemma pow2_le a b : (a <= b)%Z -> pow2 a <= pow2 b.
Proof. intros. apply Qpower_le_compat_l; [assumption|discriminate]. Qed.

Lemma pow2_lt a b : (a < b)%Z -> pow2 a < pow2 b.
Proof. intros. apply Qpower_lt_compat_l; [assumption|reflexivity]. Qed.

Lemma pow2_lt_inv a b : pow2 a < pow2 b -> (a < b)%Z.
Proof. intros. apply Qpower_lt_compat_l_inv with (q := 2); [assumption|reflexivity]. Qed.

Lemma pow2_Z k : (0 <= k)%Z -> pow2 k == inject_Z (2 ^ k).
Proof. intros. unfold pow2. rewrite Zpower_Qpower by assumption. reflexivity. Qed.

Lemma ilog2_spec q : 0 < q -> pow2 (ilog2 q) <= q /\ q < pow2 (ilog2 q + 1).
Proof.
  intros Hq. unfold ilog2.
  destruct q as [n d]. cbn [Qnum Qden].
  assert (Hn : (0 < n)%Z) by (unfold Qlt in Hq; cbn in Hq; lia).
  set (a := Z.log2 n). set (b := Z.log2 (Z.pos d)).
  destruct (Z.log2_spec n Hn) as [Ha1 Ha2]. fold a in Ha1, Ha2.
  destruct (Z.log2_spec (Z.pos d) ltac:(lia)) as [Hb1 Hb2]. fold b in Hb1, Hb2.
  assert (Ha0 : (0 <= a)%Z) by apply Z.log2_nonneg.
  assert (Hb0 : (0 <= b)%Z) by apply Z.log2_nonneg.
  assert (Eq : n # d == inject_Z n / inject_Z (Z.pos d)) by (rewrite Qmake_Qdiv; reflexivity).
  assert (Hd : 0 < inject_Z (Z.pos d)) by (unfold Qlt; cbn; lia).
  assert (A1 : pow2 a <= inject_Z n) by (rewrite pow2_Z by lia; rewrite <- Zle_Qle; lia).
  assert (A2 : inject_Z n < pow2 (a + 1)) by (rewrite pow2_Z by lia; rewrite <- Zlt_Qlt; lia).
  assert (B1 : pow2 b <= inject_Z (Z.pos d)) by (rewrite pow2_Z by lia; rewrite <- Zle_Qle; lia).
  assert (B2 : inject_Z (Z.pos d) < pow2 (b + 1)) by (rewrite pow2_Z by lia; rewrite <- Zlt_Qlt; lia).
  assert (U : n # d < pow2 (a - b + 1)).
  { rewrite Eq. apply Qlt_shift_div_r; [assumption|].
    assert (E1 : pow2 (a + 1) == pow2 (a - b + 1) * pow2 b)
      by (rewrite <- pow2_add; replace (a - b + 1 + b)%Z with (a + 1)%Z by lia; reflexivity).
    pose proof (pow2_pos (a - b + 1)) as P.
    apply Qlt_le_trans with (pow2 (a+1)); [assumption|].
    rewrite E1. apply Qmult_le_l; assumption. }
  assert (L : pow2 (a - b - 1) < n # d).
  { rewrite Eq. apply Qlt_shift_div_l; [assumption|].
    assert (E1 : pow2 a == pow2 (a - b - 1) * pow2 (b + 1))
      by (rewrite <- pow2_add; replace (a - b - 1 + (b + 1))%Z with a by lia; reflexivity).
    pose proof (pow2_pos (a - b - 1)) as P.
    apply Qlt_le_trans with (pow2 a); [|assumption].
    rewrite E1. apply Qmult_lt_l; assumption. }
  destruct (Qle_bool (pow2 (a - b)) (n # d)) eqn:E.
  - apply Qle_bool_iff in E. split; assumption.
  - split; [apply Qlt_le_weak; assumption|].
    replace (a - b - 1 + 1)%Z with (a - b)%Z by lia.
    apply Qnot_le_lt. intro C. apply Qle_bool_iff in C. congruence.
Qed.

Lemma ilog2_mono x y : 0 < x -> x <= y -> (ilog2 x <= ilog2 y)%Z.
Proof.
  intros Hx Hxy.
  destruct (ilog2_spec x Hx) as [Lx _].
  assert (Hy : 0 < y) by (eapply Qlt_le_trans; eassumption).
  destruct (ilog2_spec y Hy) as [_ Uy].
  assert (H : pow2 (ilog2 x) < pow2 (ilog2 y + 1))
    by (eapply Qle_lt_trans; [eapply Qle_trans|]; eassumption).
  apply pow2_lt_inv in H. lia.
Qed.

Lemma floor_bounds q : inject_Z (Qfloor q) <= q /\ q < inject_Z (Qfloor q) + 1.
Proof.
  split; [apply Qfloor_le|].
  pose proof (Qlt_floor q) as H. rewrite inject_Z_plus in H. exact H.
Qed.

Lemma round_half_even_cases q :
  let f := Qfloor q in
  (round_half_even q = f /\ q - inject_Z f <= 1 # 2) \/
  (round_half_even q = (f + 1)%Z /\ 1 # 2 <= q - inject_Z f).
Proof.
  intros f. unfold round_half_even. fold f. clearbody f.
  destruct (Qcompare (q - inject_Z f) (1 # 2)) eqn:E.
  - apply Qeq_alt in E. destruct (Z.even f); [left|right]; split; auto; lra.
  - apply Qlt_alt in E. left; split; auto; lra.
  - apply Qgt_alt in E. right; split; auto; lra.
Qed.

Lemma round_half_even_err q :
  inject_Z (round_half_even q) - q <= 1 # 2 /\ q - inject_Z (round_half_even q) <= 1 # 2.
Proof.
  destruct (floor_bounds q) as [L U].
  destruct (round_half_even_cases q) as [[E H]|[E H]]; rewrite E;
    try rewrite inject_Z_plus; change (inject_Z 1) with 1; lra.
Qed.

Lemma round_half_even_Z z : round_half_even (inject_Z z) = z.
Proof.
  unfold round_half_even. rewrite Qfloor_Z.
  assert (E : Qcompare (inject_Z z - inject_Z z) (1 # 2) = Lt) by (apply (proj1 (Qlt_alt _ _)); lra).
  rewrite E. reflexivity.
Qed.

Lemma round_half_even_comp x y : x == y -> round_half_even x = round_half_even y.
Proof.
  intros H. unfold round_half_even. rewrite (Qfloor_comp _ _ H).
  assert (E : Qcompare (x - inject_Z (Qfloor y)) (1 # 2) = Qcompare (y - inject_Z (Qfloor y)) (1 # 2))
    by (apply Qcompare_comp; [rewrite H|]; reflexivity).
  rewrite E. reflexivity.
Qed.

Lemma round_half_even_mono x y : x <= y -> (round_half_even x <= round_half_even y)%Z.
Proof.
  intros H. pose proof (Qfloor_resp_le _ _ H) as F.
  destruct (floor_bounds x) as [Lx Ux]. destruct (floor_bounds y) as [Ly Uy].
  destruct (Z.eq_dec (Qfloor x) (Qfloor y)) as [E|N].
  - unfold round_half_even. rewrite E in *.
    destruct (Qcompare (x - inject_Z (Qfloor y)) (1 # 2)) eqn:Cx;
      destruct (Qcompare (y - inject_Z (Qfloor y)) (1 # 2)) eqn:Cy;
      try (destruct (Z.even (Qfloor y))); try lia; exfalso;
      repeat match goal with
        | H : Qcompare _ _ = Eq |- _ => apply Qeq_alt in H
        | H : Qcompare _ _ = Lt |- _ => apply Qlt_alt in H
        | H : Qcompare _ _ = Gt |- _ => apply Qgt_alt in H
      end; lra.
  - assert (Lt' : (Qfloor x + 1 <= Qfloor y)%Z) by lia.
    destruct (round_half_even_cases x) as [[Ex _]|[Ex _]];
      destruct (round_half_even_cases y) as [[Ey _]|[Ey _]]; lia.
Qed.

Lemma pow2_nz k : ~ pow2 k == 0.
Proof. pose proof (pow2_pos k). lra. Qed.

Lemma scale_back q e : q / pow2 e * pow2 e == q.
Proof. field. apply pow2_nz. Qed.

Lemma div_pow2_le x y e : x <= y -> x / pow2 e <= y / pow2 e.
Proof.
  intros H. unfold Qdiv. apply Qmult_le_compat_r; [assumption|].
  apply Qlt_le_weak, Qinv_lt_0_compat, pow2_pos.
Qed.

Lemma div_pow2_pow2 a e : pow2 a / pow2 e == pow2 (a - e).
Proof. rewrite pow2_sub. reflexivity. Qed.

Lemma fexp_mono x y : 0 < x -> x <= y -> (fexp x <= fexp y)%Z.
Proof. intros Hx Hxy. unfold fexp. pose proof (ilog2_mono x y Hx Hxy). lia. Qed.

Lemma round_pos_upper q : 0 < q -> round_pos q <= pow2 (fexp q + 53).
Proof.
  intros Hq. unfold round_pos. set (e := fexp q).
  destruct (ilog2_spec q Hq) as [_ U].
  assert (He : (ilog2 q + 1 <= e + 53)%Z) by (unfold e, fexp; lia).
  assert (S : q / pow2 e <= inject_Z (2 ^ 53)).
  { rewrite <- pow2_Z by lia.
    setoid_replace (pow2 53) with (pow2 (e + 53) / pow2 e)
      by (rewrite div_pow2_pow2; replace (e + 53 - e)%Z with 53%Z by lia; reflexivity).
    apply div_pow2_le. apply Qlt_le_weak. eapply Qlt_le_trans; [exact U|]. apply pow2_le. lia. }
  apply round_half_even_mono in S. rewrite round_half_even_Z in S.
  rewrite pow2_add, (Qmult_comm (pow2 e)).
  apply Qmult_le_compat_r; [|apply Qlt_le_weak, pow2_pos].
  rewrite (pow2_Z 53) by lia. rewrite <- Zle_Qle. exact S.
Qed.

Lemma round_pos_lower q :
  0 < q -> (emin <= ilog2 q - 52)%Z -> pow2 (fexp q + 52) <= round_pos q.
Proof.
  intros Hq Hn. unfold round_pos. set (e := fexp q).
  destruct (ilog2_spec q Hq) as [L _].
  assert (He : (e + 52 = ilog2 q)%Z) by (unfold e, fexp; lia).
  assert (S : inject_Z (2 ^ 52) <= q / pow2 e).
  { rewrite <- pow2_Z by lia.
    setoid_replace (pow2 52) with (pow2 (e + 52) / pow2 e)
      by (rewrite div_pow2_pow2; replace (e + 52 - e)%Z with 52%Z by lia; reflexivity).
    apply div_pow2_le. rewrite He. exact L. }
  apply round_half_even_mono in S. rewrite round_half_even_Z in S.
  rewrite pow2_add, (Qmult_comm (pow2 e)).
  apply Qmult_le_compat_r; [|apply Qlt_le_weak, pow2_pos].
  rewrite (pow2_Z 52) by lia. rewrite <- Zle_Qle. exact S.
Qed.

Lemma round_pos_nonneg q : 0 < q -> 0 <= round_pos q.
Proof.
  intros Hq. unfold round_pos.
  assert (S : inject_Z 0 <= q / pow2 (fexp q)).
  { change (inject_Z 0) with 0. apply Qle_shift_div_l; [apply pow2_pos|lra]. }
  apply round_half_even_mono in S. rewrite round_half_even_Z in S.
  apply Qmult_le_0_compat; [|apply Qlt_le_weak, pow2_pos].
  change 0 with (inject_Z 0). rewrite <- Zle_Qle. exact S.
Qed.

Lemma round_pos_mono x y : 0 < x -> x <= y -> round_pos x <= round_pos y.
Proof.
  intros Hx Hxy. assert (Hy : 0 < y) by lra.
  pose proof (fexp_mono x y Hx Hxy) as He.
  destruct (Z.eq_dec (fexp x) (fexp y)) as [E|N].
  - unfold round_pos. rewrite E.
    apply Qmult_le_compat_r; [|apply Qlt_le_weak, pow2_pos].
    rewrite <- Zle_Qle. apply round_half_even_mono, div_pow2_le, Hxy.
  - assert (Hn : (emin <= ilog2 y - 52)%Z).
    { unfold fexp in *. lia. }
    eapply Qle_trans; [apply round_pos_upper; assumption|].
    eapply Qle_trans; [|apply round_pos_lower; assumption].
    apply pow2_le. lia.
Qed.

Lemma round_pos_exact q m e :
  (0 < m < 2 ^ 53)%Z -> (emin <= e)%Z -> q == inject_Z m * pow2 e -> round_pos q == q.
Proof.
  intros Hm He Hq.
  assert (Hpos : 0 < q).
  { rewrite Hq. apply Qmult_lt_0_compat; [|apply pow2_pos].
    change 0 with (inject_Z 0). rewrite <- Zlt_Qlt. lia. }
  destruct (ilog2_spec q Hpos) as [L _].
  assert (Hlt : q < pow2 (e + 53)).
  { rewrite Hq, pow2_add, Qmult_comm. apply Qmult_lt_l; [apply pow2_pos|].
    rewrite pow2_Z by lia. rewrite <- Zlt_Qlt. lia. }
  assert (Hi : (ilog2 q < e + 53)%Z) by (apply pow2_lt_inv; lra).
  assert (Hf : (fexp q <= e)%Z) by (unfold fexp; lia).
  unfold round_pos. set (f := fexp q) in *.
  assert (Hs : q / pow2 f == inject_Z (m * 2 ^ (e - f))).
  { rewrite Hq, inject_Z_mult, <- pow2_Z by lia.
    rewrite pow2_sub. field. apply pow2_nz. }
  rewrite (round_half_even_comp _ _ Hs), round_half_even_Z, <- Hs.
  apply scale_back.
Qed.

Lemma round_pos_err q :
  pow2 (-1022) <= q ->
  round_pos q - q <= q * pow2 (-53) /\ q - round_pos q <= q * pow2 (-53).
Proof.
  intros Hq. assert (Hpos : 0 < q) by (pose proof (pow2_pos (-1022)); lra).
  destruct (ilog2_spec q Hpos) as [L U].
  assert (Hi : (-1022 <= ilog2 q)%Z).
  { assert (pow2 (-1022) < pow2 (ilog2 q + 1)) by lra.
    apply pow2_lt_inv in H. lia. }
  assert (Hf : fexp q = (ilog2 q - 52)%Z) by (unfold fexp, emin; lia).
  unfold round_pos. rewrite Hf. set (e := (ilog2 q - 52)%Z).
  destruct (round_half_even_err (q / pow2 e)) as [A B].
  set (r := inject_Z (round_half_even (q / pow2 e))) in *.
  assert (Hh : pow2 e * (1 # 2) <= q * pow2 (-53)).
  { assert (E1 : pow2 (ilog2 q) * pow2 (-53) == pow2 e * (1 # 2)).
    { rewrite <- pow2_add. replace (ilog2 q + -53)%Z with (e + -1)%Z by (unfold e; lia).
      rewrite pow2_add. reflexivity. }
    rewrite <- E1. apply Qmult_le_compat_r; [exact L|apply Qlt_le_weak, pow2_pos]. }
  pose proof (pow2_pos e) as Pe. pose proof (scale_back q e) as Sb.
  assert (A' : (r - q / pow2 e) * pow2 e <= (1 # 2) * pow2 e)
    by (apply Qmult_le_compat_r; lra).
  assert (B' : (q / pow2 e - r) * pow2 e <= (1 # 2) * pow2 e)
    by (apply Qmult_le_compat_r; lra).
  split; nra.
Qed.

Lemma flq_comp x y : x == y -> flq x = flq y.
Proof. intros H. unfold flq. rewrite (Qred_complete _ _ H). reflexivity. Qed.

Lemma flq_canon x : Qred (flq x) = flq x.
Proof. unfold flq. apply Qred_complete, Qred_correct. Qed.

Lemma flq_pos x : 0 < x -> flq x == round_pos (Qred x).
Proof.
  intros H. unfold flq.
  assert (E : Qcompare (Qred x) 0 = Gt) by (apply (proj1 (Qgt_alt _ _)); rewrite Qred_correct; exact H).
  rewrite E. apply Qred_correct.
Qed.

Lemma flq_neg x : x < 0 -> flq x == - round_pos (- Qred x).
Proof.
  intros H. unfold flq.
  assert (E : Qcompare (Qred x) 0 = Lt) by (apply (proj1 (Qlt_alt _ _)); rewrite Qred_correct; exact H).
  rewrite E. apply Qred_correct.
Qed.

Lemma flq_0 x : x == 0 -> flq x == 0.
Proof.
  intros H. unfold flq.
  assert (E : Qcompare (Qred x) 0 = Eq) by (apply (proj1 (Qeq_alt _ _)); rewrite Qred_correct; exact H).
  rewrite E. reflexivity.
Qed.

Lemma flq_nonneg x : 0 <= x -> 0 <= flq x.
Proof.
  intros H. destruct (Qlt_le_dec 0 x) as [P|N].
  - rewrite (flq_pos x P). apply round_pos_nonneg. rewrite Qred_correct. exact P.
  - rewrite (flq_0 x); lra.
Qed.

Lemma flq_nonpos x : x <= 0 -> flq x <= 0.
Proof.
  intros H. destruct (Qlt_le_dec x 0) as [P|N].
  - rewrite (flq_neg x P).
    assert (0 <= round_pos (- Qred x)) by (apply round_pos_nonneg; rewrite Qred_correct; lra).
    lra.
  - rewrite (flq_0 x); lra.
Qed.

Lemma flq_mono x y : x <= y -> flq x <= flq y.
Proof.
  intros H.
  destruct (Qlt_le_dec 0 x) as [Px|Nx].
  - rewrite (flq_pos x Px), (flq_pos y) by lra.
    apply round_pos_mono; rewrite !Qred_correct; assumption.
  - destruct (Qlt_le_dec 0 y) as [Py|Ny].
    + apply Qle_trans with 0; [apply flq_nonpos|apply flq_nonneg]; lra.
    + destruct (Qlt_le_dec y 0) as [Ly|Zy].
      * rewrite (flq_neg y Ly), (flq_neg x) by lra.
        apply Qopp_le_compat. apply round_pos_mono; rewrite !Qred_correct; lra.
      * rewrite (flq_0 y) by lra. apply flq_nonpos. lra.
Qed.

Lemma flq_exact x m e :
  (Z.abs m < 2 ^ 53)%Z -> (emin <= e)%Z -> x == inject_Z m * pow2 e -> flq x == x.
Proof.
  intros Hm He Hx. pose proof (pow2_pos e) as Pe.
  destruct (Z.lt_trichotomy m 0) as [Lm|[Zm|Gm]].
  - assert (Hneg : x < 0).
    { rewrite Hx. assert (inject_Z m < 0) by (change 0 with (inject_Z 0); rewrite <- Zlt_Qlt; lia). nra. }
    rewrite (flq_neg x Hneg).
    rewrite (round_pos_exact (- Qred x) (- m) e); [rewrite Qred_correct; ring|lia|exact He|].
    rewrite Qred_correct, Hx, inject_Z_opp. ring.
  - subst m. assert (H0 : x == 0) by (rewrite Hx; ring).
    rewrite (flq_0 x H0), H0. reflexivity.
  - assert (Hpos : 0 < x).
    { rewrite Hx. assert (0 < inject_Z m) by (change 0 with (inject_Z 0); rewrite <- Zlt_Qlt; lia). nra. }
    rewrite (flq_pos x Hpos).
    rewrite (round_pos_exact (Qred x) m e); [apply Qred_correct|lia|exact He|].
    rewrite Qred_correct. exact Hx.
Qed.

Lemma flq_Z z : (Z.abs z < 2 ^ 53)%Z -> flq (inject_Z z) == inject_Z z.
Proof.
  intros H. apply (flq_exact _ z 0 H); [unfold emin; lia|].
  change (pow2 0) with 1. ring.
Qed.

Lemma flq_err x :
  pow2 (-1022) <= x ->
  flq x - x <= x * pow2 (-53) /\ x - flq x <= x * pow2 (-53).
Proof.
  intros H. assert (Hpos : 0 < x) by (pose proof (pow2_pos (-1022)); lra).
  rewrite (flq_pos x Hpos).
  destruct (round_pos_err (Qred x)) as [A B]; [rewrite Qred_correct; exact H|].
  remember (round_pos (Qred x)) as r eqn:Hr. clear Hr.
  rewrite Qred_correct in A, B. split; assumption.
Qed.

End Rounding.

(** ** Numbers *)

Section Numbers.
Local Open Scope Q_scope.

Lemma Qred_inject_Z z : Qred (inject_Z z) = inject_Z z.
Proof.
  unfold Qred, inject_Z.
  pose proof (Z.ggcd_gcd z 1) as G. pose proof (Z.ggcd_correct_divisors z 1) as D.
  destruct (Z.ggcd z 1) as [g [aa bb]]. cbn in *.
  rewrite Z.gcd_1_r in G. subst g. destruct D as [Da Db].
  rewrite Z.mul_1_l in Da, Db. subst aa bb. reflexivity.
Qed.

Lemma flq_eq_Z x z : x == inject_Z z -> (Z.abs z < 2 ^ 53)%Z -> flq x = inject_Z z.
Proof.
  intros Hx Hz. rewrite (flq_comp _ _ Hx), <- flq_canon.
  transitivity (Qred (inject_Z z)); [|apply Qred_inject_Z].
  apply Qred_complete, flq_Z, Hz.
Qed.

Lemma fl_fin x : Qabs (flq x) < pow2 1024 -> fl x = Fin (flq x).
Proof.
  intros H. unfold fl.
  destruct (Qle_bool (pow2 1024) (Qabs (flq x))) eqn:E; [|reflexivity].
  apply Qle_bool_iff in E. lra.
Qed.

Lemma Qabs_bound x b : - b <= x -> x <= b -> Qabs x <= b.
Proof. intros. apply Qabs_Qle_condition. split; assumption. Qed.

Lemma fl_eq_Z x z : x == inject_Z z -> (Z.abs z < 2 ^ 53)%Z -> fl x = Fin (inject_Z z).
Proof.
  intros Hx Hz. rewrite fl_fin; rewrite (flq_eq_Z x z Hx Hz); [reflexivity|].
  apply Qle_lt_trans with (inject_Z (2 ^ 53)).
  - apply Qabs_bound.
    + rewrite <- inject_Z_opp, <- Zle_Qle. lia.
    + rewrite <- Zle_Qle. lia.
  - rewrite <- pow2_Z by lia. apply pow2_lt. lia.
Qed.

Lemma of_Z_fin z : (Z.abs z < 2 ^ 53)%Z -> of_Z z = Fin (inject_Z z).
Proof. intros H. apply fl_eq_Z; [reflexivity|exact H]. Qed.

Lemma lit_Z z : (Z.abs z < 2 ^ 53)%Z -> lit (inject_Z z) = Fin (inject_Z z).
Proof. apply of_Z_fin. Qed.

Lemma num_add_Z a b :
  (Z.abs (a + b) < 2 ^ 53)%Z ->
  num_add (Fin (inject_Z a)) (Fin (inject_Z b)) = Fin (inject_Z (a + b)).
Proof.
  intros H. cbn. apply fl_eq_Z; [|exact H]. rewrite inject_Z_plus. reflexivity.
Qed.

Lemma num_mul_Z a b :
  (Z.abs (a * b) < 2 ^ 53)%Z ->
  num_mul (Fin (inject_Z a)) (Fin (inject_Z b)) = Fin (inject_Z (a * b)).
Proof.
  intros H. cbn. apply fl_eq_Z; [|exact H]. rewrite inject_Z_mult. reflexivity.
Qed.

Lemma flq_between x lo hi :
  (Z.abs lo < 2 ^ 53)%Z -> (Z.abs hi < 2 ^ 53)%Z ->
  (inject_Z lo <= x)%Q -> (x <= inject_Z hi)%Q ->
  (inject_Z lo <= flq x)%Q /\ (flq x <= inject_Z hi)%Q.
Proof.
  intros Hlo Hhi L U. split.
  - rewrite <- (flq_Z lo Hlo). apply flq_mono, L.
  - rewrite <- (flq_Z hi Hhi). apply flq_mono, U.
Qed.

Lemma fl_between x lo hi :
  (Z.abs lo < 2 ^ 53)%Z -> (Z.abs hi < 2 ^ 53)%Z ->
  (inject_Z lo <= x)%Q -> (x <= inject_Z hi)%Q ->
  fl x = Fin (flq x).
Proof.
  intros Hlo Hhi L U. destruct (flq_between x lo hi Hlo Hhi L U) as [A B].
  apply fl_fin. apply Qle_lt_trans with (inject_Z (2 ^ 53)).
  - apply Qabs_bound.
    + eapply Qle_trans; [|exact A]. rewrite <- inject_Z_opp, <- Zle_Qle. lia.
    + eapply Qle_trans; [exact B|]. rewrite <- Zle_Qle. lia.
  - rewrite <- pow2_Z by lia. apply pow2_lt. lia.
Qed.

Lemma lit_0 : lit 0 = Fin 0.
Proof. apply (lit_Z 0). cbn. lia. Qed.

Lemma lit_100 : lit 100 = Fin 100.
Proof. apply (lit_Z 100). cbn. lia. Qed.

Lemma Qeq_bool_inject_Z_pos z : (0 < z)%Z -> Qeq_bool (inject_Z z) 0 = false.
Proof.
  intros H. destruct (Qeq_bool (inject_Z z) 0) eqn:E; [|reflexivity].
  apply Qeq_bool_iff in E. unfold Qeq in E. cbn in E. lia.
Qed.

Lemma fl_of_bounded x b :
  (0 <= b < 2 ^ 53)%Z -> 0 <= flq x -> flq x <= inject_Z b -> fl x = Fin (flq x).
Proof.
  intros Hb L U. apply fl_fin. apply Qle_lt_trans with (inject_Z (2 ^ 53)).
  - apply Qabs_bound.
    + assert (- inject_Z (2 ^ 53) <= 0) by discriminate. lra.
    + eapply Qle_trans; [exact U|]. rewrite <- Zle_Qle. lia.
  - rewrite <- pow2_Z by lia. apply pow2_lt. lia.
Qed.

End Numbers.

(** ** Rounding errors *)

Section Errors.
Local Open Scope Q_scope.

Lemma u53_pow2 : pow2 (-53) == u53.
Proof. reflexivity. Qed.

Lemma flq_rel x :
  pow2 (-1022) <= x ->
  x * (1 - u53) <= flq x /\ flq x <= x * (1 + u53).
Proof.
  intros H. destruct (flq_err x H) as [A B]. rewrite u53_pow2 in A, B.
  split; lra.
Qed.

Lemma Qfloor_unique (x : Q) (k : Z) :
  inject_Z k <= x -> x < inject_Z k + 1 -> Qfloor x = k.
Proof.
  intros L U. destruct (floor_bounds x) as [Fl Fu].
  assert (A : inject_Z (Qfloor x) < inject_Z (k + 1)) by (rewrite inject_Z_plus; change (inject_Z 1) with 1; lra).
  assert (B : inject_Z k < inject_Z (Qfloor x + 1)) by (rewrite inject_Z_plus; change (inject_Z 1) with 1; lra).
  rewrite <- Zlt_Qlt in A, B. lia.
Qed.

Lemma inject_Z_pos z : (0 < z)%Z -> 0 < inject_Z z.
Proof. intros H. change 0 with (inject_Z 0). rewrite <- Zlt_Qlt. exact H. Qed.

Lemma inject_Z_nonneg z : (0 <= z)%Z -> 0 <= inject_Z z.
Proof. intros H. change 0 with (inject_Z 0). rewrite <- Zle_Qle. exact H. Qed.

End Errors.

(** ** Strings and file names *)

Section FileNames.
Local Open Scope Z_scope.
Local Open Scope string_scope.

Lemma lastIndexOf_from_absent s c i found :
  contains c s = false -> lastIndexOf_from s c i found = found.
Proof.
  revert i found. induction s as [|a s IH]; intros i found H; cbn in *.
  - reflexivity.
  - apply orb_false_iff in H as [Ha Hs]. rewrite Ha. apply IH, Hs.
Qed.

Lemma lastIndexOf_from_last pre c suf i found :
  contains c suf = false ->
  lastIndexOf_from (pre ++ String c suf) c i found
  = i + Z.of_nat (String.length pre).
Proof.
  revert i found. induction pre as [|a pre IH]; intros i found H; cbn [append lastIndexOf_from String.length].
  - rewrite Ascii.eqb_refl, lastIndexOf_from_absent by exact H. lia.
  - rewrite IH by exact H. lia.
Qed.

Lemma substring_prefix pre rest :
  String.substring 0 (String.length pre) (pre ++ rest) = pre.
Proof.
  induction pre as [|a pre IH]; cbn.
  - destruct rest; reflexivity.
  - rewrite IH. reflexivity.
Qed.

Lemma length_append (a b : string) :
  String.length (a ++ b) = (String.length a + String.length b)%nat.
Proof. induction a as [|x a IH]; cbn; [reflexivity|rewrite IH; reflexivity]. Qed.

Lemma js_substring_prefix pre rest :
  js_substring (pre ++ rest) 0 (Z.of_nat (String.length pre)) = pre.
Proof.
  unfold js_substring. rewrite length_append, Nat2Z.inj_add.
  set (n := Z.of_nat (String.length pre)). set (m := Z.of_nat (String.length rest)).
  assert (Hn : 0 <= n) by apply Nat2Z.is_nonneg.
  assert (Hm : 0 <= m) by apply Nat2Z.is_nonneg.
  replace (Z.min (Z.max 0 0) (n + m)) with 0 by lia.
  replace (Z.min (Z.max n 0) (n + m)) with n by lia.
  replace (Z.min 0 n) with 0 by lia. replace (Z.max 0 n - 0) with n by lia.
  unfold n. rewrite Nat2Z.id. apply substring_prefix.
Qed.

Lemma removeFileExtension_last_dot stem ext :
  contains "." ext = false ->
  removeFileExtension (stem ++ String "." ext) = stem.
Proof.
  intros H. unfold removeFileExtension, lastIndexOf.
  rewrite lastIndexOf_from_last by exact H.
  destruct (Z.eqb_spec (0 + Z.of_nat (String.length stem)) (-1)) as [E|_]; [lia|].
  rewrite Z.add_0_l. apply js_substring_prefix.
Qed.

Lemma removeFileExtension_no_dot filename :
  contains "." filename = false -> removeFileExtension filename = filename.
Proof.
  intros H. unfold removeFileExtension, lastIndexOf.
  rewrite lastIndexOf_from_absent by exact H. reflexivity.
Qed.

(** C6.  The label of a file name is the name without its last ['.'] and
    what follows it; a name without ['.'] is its own label; of several dots
    only the last one counts.  ["photo.jpg"] gives ["photo"],
    ["archive.tar.gz"] gives ["archive.tar"], ["noext"] gives ["noext"]. *)
Theorem C6_label_strips_final_extension :
  (forall stem ext : string,
      contains "." ext = false ->
      removeFileExtension (stem ++ "." ++ ext) = stem) /\
  (forall filename : string,
      contains "." filename = false ->
      removeFileExtension filename = filename) /\
  removeFileExtension "photo.jpg" = "photo" /\
  removeFileExtension "archive.tar.gz" = "archive.tar" /\
  removeFileExtension "noext" = "noext".
Proof.
  split; [|split; [|repeat split; reflexivity]].
  - intros stem ext H. apply removeFileExtension_last_dot, H.
  - apply removeFileExtension_no_dot.
Qed.

End FileNames.

(** ** The layout of a page *)

Section PageLayout.
Local Open Scope Z_scope.
Local Open Scope string_scope.

Lemma scale_one image :
  0 <= png_width image < 2 ^ 32 -> 0 <= png_height image < 2 ^ 32 ->
  scale image (lit 1)
  = (Fin (inject_Z (png_width image)), Fin (inject_Z (png_height image))).
Proof.
  intros Hw Hh. unfold scale.
  change (lit 1) with (lit (inject_Z 1)).
  rewrite lit_Z, !of_Z_fin, !num_mul_Z by lia.
  rewrite !Z.mul_1_r. reflexivity.
Qed.

Lemma layoutPage_measured font image file titleWidth :
  0 <= png_width image < 2 ^ 32 -> 0 <= png_height image < 2 ^ 32 ->
  widthOfTextAtSize font (removeFileExtension (name file)) (Fin 28) = Some titleWidth ->
  layoutPage font image file
  = Ret {| page_width := Fin (inject_Z (png_width image + 100));
           page_height := Fin (inject_Z (png_height image + 150));
           page_images :=
             [{| drawn_image := image;
                 image_x := Fin 50;
                 image_y := Fin 100;
                 image_width := Fin (inject_Z (png_width image));
                 image_height := Fin (inject_Z (png_height image)) |}];
           page_texts :=
             [{| drawn_text := removeFileExtension (name file);
                 text_x := (Fin (inject_Z (png_width image + 100)) - titleWidth) / Fin 2;
                 text_y := Fin 50;
                 text_size := Fin 28;
                 text_font := font_name font;
                 text_color := (Fin 0, Fin 0, Fin 0) |}] |}.
Proof.
  intros Hw Hh Hm. unfold layoutPage. rewrite scale_one by assumption.
  change (lit 28) with (lit (inject_Z 28)). change (lit 100) with (lit (inject_Z 100)).
  change (lit 150) with (lit (inject_Z 150)). change (lit 50) with (lit (inject_Z 50)).
  change (lit 2) with (lit (inject_Z 2)). change (lit 0) with (lit (inject_Z 0)).
  rewrite !lit_Z by lia.
  change (Fin (inject_Z 28)) with (Fin 28). rewrite Hm.
  unfold addPage, drawImage, drawText, rgb. cbn [fst snd page_width page_height page_images page_texts app].
  rewrite !num_add_Z by lia. reflexivity.
Qed.

Lemma layoutPage_unmeasured font image file :
  widthOfTextAtSize font (removeFileExtension (name file)) (lit 28) = None ->
  layoutPage font image file = Throw.
Proof.
  intros Hm. unfold layoutPage. destruct (scale image (lit 1)) as [w h].
  rewrite Hm. reflexivity.
Qed.

(** C7.  For an embedded image of [w] by [h] pixels the page measures
    [w + 100] by [h + 150]; the image is drawn at [(50, 100)] with its own
    width and height; the title is drawn in Helvetica at size 28, in black,
    at [y = 50] and at [x = (page width - measured width of the title) / 2]. *)
Theorem C7_page_layout :
  forall (font : PDFFont) (image : PDFImage) (file : File) (w h : Z)
         (label : string) (titleWidth : number),
    png_width image = w -> png_height image = h ->
    0 <= w < 2 ^ 32 -> 0 <= h < 2 ^ 32 ->
    label = removeFileExtension (name file) ->
    widthOfTextAtSize font label (Fin 28) = Some titleWidth ->
    exists page : PDFPage,
      layoutPage font image file = Ret page /\
      page_width page = Fin (inject_Z (w + 100)) /\
      page_height page = Fin (inject_Z (h + 150)) /\
      page_images page =
        [{| drawn_image := image;
            image_x := Fin 50; image_y := Fin 100;
            image_width := Fin (inject_Z w); image_height := Fin (inject_Z h) |}] /\
      page_texts page =
        [{| drawn_text := label;
            text_x := (page_width page - titleWidth) / Fin 2;
            text_y := Fin 50;
            text_size := Fin 28;
            text_font := font_name font;
            text_color := (Fin 0, Fin 0, Fin 0) |}].
Proof.
  intros font image file w h label titleWidth Ew Eh Hw Hh El Hm. subst w h label.
  eexists. split; [apply layoutPage_measured; eassumption|].
  cbn. repeat split; reflexivity.
Qed.

End PageLayout.

(** ** The size of the watermark *)

Section Watermark.
Local Open Scope Q_scope.

Lemma lit_16 : lit 1.6 = Fin c16.
Proof. vm_compute. reflexivity. Qed.

Lemma flq_zero_ratio (L : Z) : (0 < L)%Z -> flq (flq (inject_Z 0 / inject_Z L) * c16) == 0.
Proof.
  intros HL.
  assert (E : inject_Z 0 / inject_Z L == 0) by (unfold Qdiv; change (inject_Z 0) with 0; ring).
  rewrite (flq_comp _ _ E). vm_compute. reflexivity.
Qed.

Lemma floor_of_rounded_product (W L : Z) :
  (0 <= W < 2 ^ 32)%Z -> (1 <= L < 2 ^ 32)%Z ->
  Qfloor (flq (flq (inject_Z W / inject_Z L) * c16)) = (8 * W / (5 * L))%Z /\
  0 <= flq (flq (inject_Z W / inject_Z L) * c16) <= inject_Z (2 ^ 36).
Proof.
  intros HW HL.
  destruct (Z.eq_dec W 0) as [->|HW0].
  { pose proof (flq_zero_ratio L ltac:(lia)) as E. rewrite (Qfloor_comp _ _ E), E.
    split; [rewrite Z.mul_0_r; symmetry; apply Zdiv_0_l|]. split; [lra|discriminate]. }
  set (N := (8 * W)%Z). set (D := (5 * L)%Z).
  set (k := (N / D)%Z). set (r := (N mod D)%Z).
  assert (HD : (0 < D)%Z) by (unfold D; lia).
  assert (HND : (N = D * k + r)%Z) by (apply Z.div_mod; lia).
  assert (Hr : (0 <= r < D)%Z) by (apply Z.mod_pos_bound; lia).
  assert (Hk : (0 <= k)%Z) by (apply Z.div_pos; unfold N; lia).
  set (q := inject_Z W / inject_Z L).
  set (dq := inject_Z D). set (nq := inject_Z N).
  set (kq := inject_Z k). set (rq := inject_Z r).
  assert (Pd : 0 < dq) by (apply inject_Z_pos, HD).
  assert (PL : 0 < inject_Z L) by (apply inject_Z_pos; lia).
  assert (PW : 1 <= inject_Z W) by (change 1 with (inject_Z 1); rewrite <- Zle_Qle; lia).
  assert (En : nq == kq * dq + rq).
  { unfold nq, kq, dq, rq. rewrite <- inject_Z_mult, <- inject_Z_plus, HND.
    rewrite (Z.mul_comm D k). reflexivity. }
  assert (Ey : q * (16 # 10) * dq == nq).
  { unfold q, dq, nq, D, N. rewrite !inject_Z_mult. field. lra. }
  assert (Bn : nq <= inject_Z (2 ^ 35)) by (unfold nq; rewrite <- Zle_Qle; unfold N; lia).
  assert (Bd : dq <= inject_Z (2 ^ 35)) by (unfold dq; rewrite <- Zle_Qle; unfold D; lia).
  assert (Br0 : 0 <= rq) by (apply inject_Z_nonneg; lia).
  assert (Br1 : rq + 1 <= dq).
  { unfold rq, dq. change 1 with (inject_Z 1). rewrite <- inject_Z_plus, <- Zle_Qle. lia. }
  assert (Bk : 0 <= kq) by (apply inject_Z_nonneg, Hk).
  assert (Hq : pow2 (-1022) <= q).
  { apply Qle_trans with (pow2 (-32)); [apply pow2_le; lia|].
    unfold q. apply Qle_shift_div_l; [exact PL|].
    assert (inject_Z L <= inject_Z (2 ^ 32)) by (rewrite <- Zle_Qle; lia).
    change (pow2 (-32)) with (1 # 4294967296). change (inject_Z (2 ^ 32)) with 4294967296 in H.
    lra. }
  destruct (flq_rel q Hq) as [Alo Ahi]. set (a := flq q) in *.
  assert (Pq : 0 < q) by (pose proof (pow2_pos (-1022)); lra).
  set (x := a * c16).
  (* lower bound *)
  assert (Lo : kq <= x).
  { destruct (Z.eq_dec r 0) as [Hr0|Hr0].
    - assert (Ex : a == q).
      { unfold a. apply (flq_exact q (5 * k) (-3)); [lia|unfold emin; lia|].
        unfold q. rewrite inject_Z_mult. change (pow2 (-3)) with (1 # 8).
        assert (Ew : inject_Z W * 8 == inject_Z L * (5 * inject_Z k)).
        { change 8 with (inject_Z 8). change 5 with (inject_Z 5).
          rewrite <- !inject_Z_mult. apply inject_Z_injective. unfold N, D in HND. lia. }
        field_simplify_eq; [|lra]. lra. }
      assert (rq == 0) by (unfold rq; rewrite Hr0; reflexivity).
      unfold x. rewrite Ex. unfold c16.
      apply (Qmult_le_r _ _ dq Pd). nra.
    - assert (1 <= rq) by (unfold rq; change 1 with (inject_Z 1); rewrite <- Zle_Qle; lia).
      unfold x, c16. apply (Qmult_le_r _ _ dq Pd).
      change (inject_Z (2 ^ 35)) with 34359738368 in Bn.
      unfold u53 in *. nra. }
  (* a representable value just below k + 1 *)
  set (j := Z.log2_up (2 * D)).
  assert (Hj : (2 ^ Z.pred j < 2 * D <= 2 ^ j)%Z) by (apply Z.log2_up_spec; lia).
  assert (Hj0 : (0 < j)%Z) by (apply Z.log2_up_pos; lia).
  assert (Hj2 : (2 ^ j = 2 * 2 ^ Z.pred j)%Z).
  { replace j with (Z.succ (Z.pred j)) at 1 by lia. apply Z.pow_succ_r. lia. }
  assert (Hj36 : (j <= 36)%Z).
  { assert (2 ^ Z.pred j < 2 ^ 36)%Z by (unfold D in Hj; lia).
    apply Z.pow_lt_mono_r_iff in H; lia. }
  set (t := pow2 (- j)).
  assert (Pt : 0 < t) by apply pow2_pos.
  assert (Et : pow2 j * t == 1).
  { unfold t. rewrite <- pow2_add. replace (j + - j)%Z with 0%Z by lia. reflexivity. }
  assert (Ej : pow2 j == inject_Z (2 ^ j)) by (apply pow2_Z; lia).
  assert (Td : 2 * dq * t <= 1).
  { rewrite <- Et. apply Qmult_le_compat_r; [|lra].
    rewrite Ej. unfold dq. change 2 with (inject_Z 2). rewrite <- inject_Z_mult, <- Zle_Qle. lia. }
  set (hi := kq + 1 - t).
  assert (Hi : x <= hi).
  { unfold x, hi, c16. apply (Qmult_le_r _ _ dq Pd).
    change (inject_Z (2 ^ 35)) with 34359738368 in Bn.
    unfold u53 in *. nra. }
  assert (Ehi : flq hi == hi).
  { apply (flq_exact hi ((k + 1) * 2 ^ j - 1) (- j)).
    - assert (0 < 2 ^ Z.pred j)%Z by (apply Z.pow_pos_nonneg; lia).
      unfold N, D in *. nia.
    - unfold emin. lia.
    - unfold hi, Zminus. rewrite inject_Z_plus, inject_Z_mult, inject_Z_plus, <- Ej.
      fold t. fold kq. change (inject_Z 1) with 1. change (inject_Z (- (1))) with (- (1)).
      setoid_replace (((kq + 1) * pow2 j + - (1)) * t) with ((kq + 1) * (pow2 j * t) - t) by ring.
      rewrite Et. ring. }
  assert (Ek : flq kq == kq) by (apply flq_Z; unfold N, D in *; nia).
  assert (F1 : kq <= flq x) by (rewrite <- Ek; apply flq_mono, Lo).
  assert (F2 : flq x <= hi) by (rewrite <- Ehi; apply flq_mono, Hi).
  split.
  - apply Qfloor_unique; [exact F1|]. unfold hi in F2. fold kq. lra.
  - split; [lra|]. unfold hi in F2.
    assert (kq + 1 <= inject_Z (2 ^ 36)).
    { unfold kq. change 1 with (inject_Z 1). rewrite <- inject_Z_plus, <- Zle_Qle.
      unfold N, D in *. nia. }
    lra.
Qed.

Lemma watermarkFontSize_value (W : Z) (T : string) :
  (0 <= W < 2 ^ 32)%Z ->
  (1 <= Z.of_nat (String.length T) < 2 ^ 32)%Z ->
  watermarkFontSize W T
  = Fin (inject_Z (8 * W / (5 * Z.of_nat (String.length T)))).
Proof.
  intros HW HL. set (L := Z.of_nat (String.length T)) in *.
  unfold watermarkFontSize. fold L.
  rewrite !of_Z_fin, lit_16 by lia. cbn [num_div].
  rewrite Qeq_bool_inject_Z_pos by lia.
  assert (R : 0 <= inject_Z W / inject_Z L /\ inject_Z W / inject_Z L <= inject_Z (2 ^ 32)).
  { assert (PL : 1 <= inject_Z L) by (change 1 with (inject_Z 1); rewrite <- Zle_Qle; lia).
    assert (PW : 0 <= inject_Z W) by (apply inject_Z_nonneg; lia).
    assert (BW : inject_Z W <= inject_Z (2 ^ 32)) by (rewrite <- Zle_Qle; lia).
    split.
    - apply Qle_shift_div_l; lra.
    - apply Qle_shift_div_r; [lra|]. change (inject_Z (2 ^ 32)) with 4294967296 in *. nra. }
  destruct R as [R0 R1].
  rewrite (fl_between _ 0 (2 ^ 32)) by (try (cbn; lia); assumption).
  cbn [num_mul].
  destruct (floor_of_rounded_product W L HW HL) as [Fl [B0 B1]].
  rewrite (fl_of_bounded _ (2 ^ 36)) by (try lia; assumption).
  cbn [Math_floor]. rewrite Fl. reflexivity.
Qed.

(** C5.  For a text [T] that is not empty and an image [W] pixels wide,
    the font size of the watermark is the integer part of
    [(W / length T) * 1.6], computed exactly. *)
Theorem C5_watermark_font_size :
  forall (W : Z) (T : string),
    (0 <= W < 2 ^ 32)%Z ->
    T <> EmptyString ->
    (Z.of_nat (String.length T) < 2 ^ 32)%Z ->
    watermarkFontSize W T
    = Fin (inject_Z (Qfloor (inject_Z W / inject_Z (Z.of_nat (String.length T)) * (16 # 10)))).
Proof.
  intros W T HW HT HL.
  assert (H1 : (1 <= Z.of_nat (String.length T))%Z) by (destruct T; [congruence|cbn; lia]).
  rewrite watermarkFontSize_value by lia. do 2 f_equal.
  rewrite Zdiv_Qdiv. apply Qfloor_comp.
  rewrite !inject_Z_mult. field.
  assert (1 <= inject_Z (Z.of_nat (String.length T)))
    by (change 1 with (inject_Z 1); rewrite <- Zle_Qle; lia).
  lra.
Qed.

End Watermark.

(** ** The size of the resized image *)

Section Resize.
Local Open Scope Q_scope.

Lemma scaled_side (s d e : Z) (rho r : Q) :
  (1 <= s < 2 ^ 32)%Z -> (1 <= d < 2 ^ 32)%Z -> (0 <= e <= 1600 * d)%Z ->
  inject_Z s * rho * inject_Z d == inject_Z e ->
  pow2 (-22) <= rho ->
  rho * (1 - u53) <= r -> r <= rho * (1 + u53) ->
  fl (inject_Z s * r) = Fin (flq (inject_Z s * r)) /\
  0 <= flq (inject_Z s * r) /\
  (e / d - 1 <= Qfloor (flq (inject_Z s * r)) <= e / d)%Z.
Proof.
  intros Hs Hd He Ee Hrho Rlo Rhi.
  set (sq := inject_Z s) in *. set (dq := inject_Z d) in *. set (eq := inject_Z e) in *.
  assert (Ps : 1 <= sq) by (unfold sq; change 1 with (inject_Z 1); rewrite <- Zle_Qle; lia).
  assert (Pd : 1 <= dq) by (unfold dq; change 1 with (inject_Z 1); rewrite <- Zle_Qle; lia).
  assert (Bd : dq <= 4294967296) by (unfold dq; change 4294967296 with (inject_Z (2 ^ 32)); rewrite <- Zle_Qle; lia).
  assert (Pe : 0 <= eq) by (apply inject_Z_nonneg; lia).
  assert (Be : eq <= 1600 * dq).
  { unfold eq, dq. change 1600 with (inject_Z 1600). rewrite <- inject_Z_mult, <- Zle_Qle. lia. }
  change (pow2 (-22)) with (1 # 4194304) in Hrho.
  assert (Hx : pow2 (-1022) <= sq * r).
  { apply Qle_trans with (pow2 (-23)); [apply pow2_le; lia|].
    change (pow2 (-23)) with (1 # 8388608). unfold u53 in *. nra. }
  destruct (flq_rel _ Hx) as [Xlo Xhi]. set (X := flq (sq * r)) in *.
  set (m := (e / d)%Z). set (t := (e mod d)%Z).
  assert (Hed : (e = d * m + t)%Z) by (apply Z.div_mod; lia).
  assert (Ht : (0 <= t < d)%Z) by (apply Z.mod_pos_bound; lia).
  assert (Hm : (0 <= m)%Z) by (apply Z.div_pos; lia).
  set (mq := inject_Z m). set (tq := inject_Z t).
  assert (Eq1 : eq == dq * mq + tq).
  { unfold eq, dq, mq, tq. rewrite <- inject_Z_mult, <- inject_Z_plus, Hed. reflexivity. }
  assert (Pt : 0 <= tq) by (apply inject_Z_nonneg; lia).
  assert (Bt : tq + 1 <= dq).
  { unfold tq, dq. change 1 with (inject_Z 1). rewrite <- inject_Z_plus, <- Zle_Qle. lia. }
  assert (Pm : 0 <= mq) by (apply inject_Z_nonneg, Hm).
  (* X * d lies within rounding of e *)
  assert (Up : X * dq <= eq * (1 + u53) * (1 + u53)).
  { assert (sq * r * dq <= eq * (1 + u53)).
    { rewrite <- Ee. unfold u53 in *. nra. }
    unfold u53 in *. nra. }
  assert (Lw : eq * (1 - u53) * (1 - u53) <= X * dq).
  { assert (eq * (1 - u53) <= sq * r * dq).
    { rewrite <- Ee. unfold u53 in *. nra. }
    unfold u53 in *. nra. }
  assert (X1 : X < mq + 1).
  { apply (Qmult_lt_r _ _ dq); [lra|]. unfold u53 in *. nra. }
  assert (X0 : mq - 1 <= X).
  { apply (Qmult_le_r _ _ dq); [lra|]. unfold u53 in *. nra. }
  assert (Xn : 0 <= X) by (unfold X; apply flq_nonneg; unfold u53 in *; nra).
  split; [|split; [exact Xn|]].
  - apply (fl_of_bounded _ 1601); [lia|exact Xn|].
    assert (mq <= 1600).
    { unfold mq. change 1600 with (inject_Z 1600). rewrite <- Zle_Qle.
      unfold m. apply Z.div_le_upper_bound; lia. }
    change (X <= 1601). lra.
  - destruct (floor_bounds X) as [Fl Fu]. split.
    + assert (A : inject_Z (m - 1) < inject_Z (Qfloor X + 1)).
      { unfold Z.sub. rewrite !inject_Z_plus. change (inject_Z (- (1))) with (- (1)).
        change (inject_Z 1) with 1. fold mq. lra. }
      rewrite <- Zlt_Qlt in A. lia.
    + assert (A : inject_Z (Qfloor X) < inject_Z (m + 1)).
      { rewrite inject_Z_plus. change (inject_Z 1) with 1. fold mq. lra. }
      rewrite <- Zlt_Qlt in A. lia.
Qed.

Lemma canvas_dimension_small default a :
  (to_unsigned_long a <= 2147483647)%Z -> canvas_dimension default a = to_unsigned_long a.
Proof.
  intros H. unfold canvas_dimension.
  destruct (Z.leb_spec (to_unsigned_long a) 2147483647); [reflexivity|lia].
Qed.

Lemma to_unsigned_long_Z z : (0 <= z < 2 ^ 32)%Z -> to_unsigned_long (Fin (inject_Z z)) = z.
Proof.
  intros H. cbn [to_unsigned_long].
  assert (E : Qle_bool 0 (inject_Z z) = true) by (apply Qle_bool_iff, inject_Z_nonneg; lia).
  rewrite E, Qfloor_Z. apply Z.mod_small. lia.
Qed.

Lemma to_unsigned_long_floor x :
  0 <= x -> (Qfloor x < 2 ^ 32)%Z -> to_unsigned_long (Fin x) = Qfloor x.
Proof.
  intros H B. cbn [to_unsigned_long].
  assert (E : Qle_bool 0 x = true) by (apply Qle_bool_iff, H).
  rewrite E. apply Z.mod_small. split; [|exact B].
  rewrite <- (Qfloor_Z 0). apply Qfloor_resp_le. exact H.
Qed.

Lemma side_ratio_bounds (a : Z) (s : Z) :
  (1200 <= a <= 1600)%Z -> (1 <= s < 2 ^ 32)%Z ->
  0 <= inject_Z a / inject_Z s /\ inject_Z a / inject_Z s <= inject_Z 1600 /\
  pow2 (-22) <= inject_Z a / inject_Z s.
Proof.
  intros Ha Hs.
  assert (Ps : 1 <= inject_Z s) by (change 1 with (inject_Z 1); rewrite <- Zle_Qle; lia).
  assert (Bs : inject_Z s <= 4294967296) by (change 4294967296 with (inject_Z (2 ^ 32)); rewrite <- Zle_Qle; lia).
  assert (Pa : 1200 <= inject_Z a) by (change 1200 with (inject_Z 1200); rewrite <- Zle_Qle; lia).
  assert (Ba : inject_Z a <= 1600) by (change 1600 with (inject_Z 1600); rewrite <- Zle_Qle; lia).
  change (pow2 (-22)) with (1 # 4194304). change (inject_Z 1600) with 1600.
  repeat split.
  - apply Qle_shift_div_l; lra.
  - apply Qle_shift_div_r; [lra|]. nra.
  - apply Qle_shift_div_l; [lra|]. lra.
Qed.

(** The ratio computed by [resizeImage] is the exact ratio, rounded. *)
Lemma rounded_ratio (w h : Z) :
  (1 <= w < 2 ^ 32)%Z -> (1 <= h < 2 ^ 32)%Z ->
  exists r : Q,
    Math_min (lit 1600 / of_Z w)%js (lit 1200 / of_Z h)%js = Fin r /\
    exactRatio w h * (1 - u53) <= r /\ r <= exactRatio w h * (1 + u53).
Proof.
  intros Hw Hh.
  change (lit 1600) with (lit (inject_Z 1600)). change (lit 1200) with (lit (inject_Z 1200)).
  rewrite !lit_Z, !of_Z_fin by lia. cbn [num_div].
  rewrite !Qeq_bool_inject_Z_pos by lia.
  destruct (side_ratio_bounds 1600 w ltac:(lia) Hw) as [A0 [A1 A2]].
  destruct (side_ratio_bounds 1200 h ltac:(lia) Hh) as [B0 [B1 B2]].
  rewrite (fl_between _ 0 1600), (fl_between _ 0 1600) by (try (cbn; lia); assumption).
  set (a1 := inject_Z 1600 / inject_Z w) in *. set (a2 := inject_Z 1200 / inject_Z h) in *.
  assert (T1 : pow2 (-1022) <= a1) by (eapply Qle_trans; [apply pow2_le|exact A2]; lia).
  assert (T2 : pow2 (-1022) <= a2) by (eapply Qle_trans; [apply pow2_le|exact B2]; lia).
  destruct (flq_rel a1 T1) as [L1 U1]. destruct (flq_rel a2 T2) as [L2 U2].
  unfold exactRatio. change (1600 / inject_Z w) with a1. change (1200 / inject_Z h) with a2.
  cbn [Math_min num_gt]. unfold u53 in *.
  destruct (Q.min_spec a1 a2) as [[Hlt Em]|[Hle Em]]; set (rho := Qmin a1 a2) in *.
  - pose proof (flq_mono a1 a2 ltac:(lra)) as M.
    destruct (Qle_bool (flq a1) (flq a2)) eqn:E; cbn [negb].
    + exists (flq a1). repeat split; [lra|lra].
    + exfalso. apply Qle_bool_iff in M. congruence.
  - pose proof (flq_mono a2 a1 Hle) as M.
    destruct (Qle_bool (flq a1) (flq a2)) eqn:E; cbn [negb].
    + apply Qle_bool_iff in E. exists (flq a1). repeat split; [lra|lra].
    + exists (flq a2). repeat split; [lra|lra].
Qed.

Lemma exact_scaled (w h : Z) :
  (1 <= w)%Z -> (1 <= h)%Z ->
  inject_Z w * exactRatio w h * inject_Z h == inject_Z (Z.min (1600 * h) (1200 * w)) /\
  inject_Z h * exactRatio w h * inject_Z w == inject_Z (Z.min (1600 * h) (1200 * w)).
Proof.
  intros Hw Hh.
  assert (Pw : 1 <= inject_Z w) by (change 1 with (inject_Z 1); rewrite <- Zle_Qle; lia).
  assert (Ph : 1 <= inject_Z h) by (change 1 with (inject_Z 1); rewrite <- Zle_Qle; lia).
  assert (E : inject_Z w * exactRatio w h * inject_Z h == inject_Z (Z.min (1600 * h) (1200 * w))).
  { unfold exactRatio.
    destruct (Q.min_spec (1600 / inject_Z w) (1200 / inject_Z h)) as [[Hlt Em]|[Hle Em]]; rewrite Em.
    - assert (C : 1600 * inject_Z h < 1200 * inject_Z w).
      { assert (E1 : 1600 / inject_Z w * (inject_Z w * inject_Z h) == 1600 * inject_Z h) by (field; lra).
        assert (E2 : 1200 / inject_Z h * (inject_Z w * inject_Z h) == 1200 * inject_Z w) by (field; lra).
        rewrite <- E1, <- E2. apply Qmult_lt_compat_r; [nra|exact Hlt]. }
      change 1600 with (inject_Z 1600) in C. change 1200 with (inject_Z 1200) in C.
      rewrite <- !inject_Z_mult, <- Zlt_Qlt in C.
      rewrite Z.min_l by lia. rewrite inject_Z_mult. change (inject_Z 1600) with 1600.
      field. lra.
    - assert (C : 1200 * inject_Z w <= 1600 * inject_Z h).
      { assert (E1 : 1600 / inject_Z w * (inject_Z w * inject_Z h) == 1600 * inject_Z h) by (field; lra).
        assert (E2 : 1200 / inject_Z h * (inject_Z w * inject_Z h) == 1200 * inject_Z w) by (field; lra).
        rewrite <- E1, <- E2. apply Qmult_le_compat_r; [exact Hle|nra]. }
      change 1600 with (inject_Z 1600) in C. change 1200 with (inject_Z 1200) in C.
      rewrite <- !inject_Z_mult, <- Zle_Qle in C.
      rewrite Z.min_r by lia. rewrite inject_Z_mult. change (inject_Z 1200) with 1200.
      field. lra. }
  split; [exact E|]. rewrite <- E. ring.
Qed.

End Resize.

Section ResizedSize.
Local Open Scope Z_scope.

Lemma resizeCanvas_size (img : Image) :
  exists ops,
    resizeCanvas img (lit 1600) (lit 1200)
    = MkCanvas (fst (resizedSize (width img) (height img)))
               (snd (resizedSize (width img) (height img))) ops.
Proof.
  unfold resizeCanvas, resizedSize.
  destruct (resizeDims (width img) (height img) (lit 1600) (lit 1200)) as [wd ht].
  eexists. reflexivity.
Qed.

Lemma num_gt_Z (a b : Z) :
  num_gt (Fin (inject_Z a)) (Fin (inject_Z b)) = (b <? a).
Proof.
  cbn [num_gt]. destruct (Z.ltb_spec b a) as [H|H].
  - destruct (Qle_bool (inject_Z a) (inject_Z b)) eqn:E; [|reflexivity].
    apply Qle_bool_iff in E. rewrite <- Zle_Qle in E. lia.
  - assert (E : Qle_bool (inject_Z a) (inject_Z b) = true)
      by (apply Qle_bool_iff; rewrite <- Zle_Qle; exact H).
    rewrite E. reflexivity.
Qed.

Lemma resizeDims_test (w h : Z) :
  1 <= w < 2 ^ 32 -> 1 <= h < 2 ^ 32 ->
  resizeDims w h (lit 1600) (lit 1200)
  = if (1600 <? w) || (1200 <? h)
    then (Fin (inject_Z w) * Math_min (Fin 1600 / Fin (inject_Z w)) (Fin 1200 / Fin (inject_Z h)),
          Fin (inject_Z h) * Math_min (Fin 1600 / Fin (inject_Z w)) (Fin 1200 / Fin (inject_Z h)))%js
    else (Fin (inject_Z w), Fin (inject_Z h)).
Proof.
  intros Hw Hh. unfold resizeDims.
  change (lit 1600) with (lit (inject_Z 1600)). change (lit 1200) with (lit (inject_Z 1200)).
  rewrite !lit_Z, !of_Z_fin, !num_gt_Z by lia. reflexivity.
Qed.

(** C2, as the code has it.  An image within 1600 x 1200 keeps its size.
    Otherwise both sides are multiplied by the Number
    [Math.min(1600 / w, 1200 / h)] and the canvas takes the integer parts:
    it is at most 1600 wide and 1200 high, and each side is the exactly
    scaled side cut to whole pixels, or one pixel less. *)
Theorem C2_resized_size :
  forall w h : Z,
    1 <= w < 2 ^ 32 -> 1 <= h < 2 ^ 32 ->
    (forall img : Image, width img = w -> height img = h ->
        exists ops, resizeCanvas img (lit 1600) (lit 1200)
                    = MkCanvas (fst (resizedSize w h)) (snd (resizedSize w h)) ops) /\
    (w <= 1600 -> h <= 1200 -> resizedSize w h = (w, h)) /\
    (1600 < w \/ 1200 < h ->
       resizeDims w h (lit 1600) (lit 1200)
       = (of_Z w * Math_min (lit 1600 / of_Z w) (lit 1200 / of_Z h),
          of_Z h * Math_min (lit 1600 / of_Z w) (lit 1200 / of_Z h))%js /\
       0 <= fst (resizedSize w h) <= 1600 /\
       0 <= snd (resizedSize w h) <= 1200 /\
       Qfloor (inject_Z w * exactRatio w h) - 1 <= fst (resizedSize w h)
         <= Qfloor (inject_Z w * exactRatio w h) /\
       Qfloor (inject_Z h * exactRatio w h) - 1 <= snd (resizedSize w h)
         <= Qfloor (inject_Z h * exactRatio w h)).
Proof.
  intros w h Hw Hh. split; [|split].
  - intros img <- <-. apply resizeCanvas_size.
  - intros Sw Sh. unfold resizedSize. rewrite resizeDims_test by assumption.
    destruct (Z.ltb_spec 1600 w); [lia|]. destruct (Z.ltb_spec 1200 h); [lia|].
    cbn [orb]. rewrite !canvas_dimension_small; rewrite !to_unsigned_long_Z by lia; try lia.
    reflexivity.
  - intros Big.
    assert (T : (1600 <? w) || (1200 <? h) = true).
    { destruct Big as [B|B]; [apply Z.ltb_lt in B; rewrite B; reflexivity|].
      apply Z.ltb_lt in B. rewrite B. apply orb_true_r. }
    split.
    { unfold resizeDims.
      change (lit 1600) with (lit (inject_Z 1600)) at 1.
      change (lit 1200) with (lit (inject_Z 1200)) at 1.
      rewrite !lit_Z, !of_Z_fin, !num_gt_Z, T by lia.
      change (Fin (inject_Z 1600)) with (Fin 1600). change (Fin (inject_Z 1200)) with (Fin 1200).
      change (lit 1600) with (lit (inject_Z 1600)). change (lit 1200) with (lit (inject_Z 1200)).
      rewrite !lit_Z by lia. reflexivity. }
    unfold resizedSize. rewrite resizeDims_test, T by assumption.
    destruct (rounded_ratio w h Hw Hh) as [r [Er [Rlo Rhi]]].
    change (lit 1600) with (lit (inject_Z 1600)) in Er.
    change (lit 1200) with (lit (inject_Z 1200)) in Er.
    rewrite !lit_Z, !of_Z_fin in Er by lia.
    change (Fin (inject_Z 1600)) with (Fin 1600) in Er.
    change (Fin (inject_Z 1200)) with (Fin 1200) in Er.
    rewrite Er. cbn [num_mul fst snd].
    destruct (exact_scaled w h ltac:(lia) ltac:(lia)) as [Ew Eh].
    set (e := Z.min (1600 * h) (1200 * w)) in *.
    assert (Hrho : (pow2 (-22) <= exactRatio w h)%Q).
    { unfold exactRatio.
      destruct (side_ratio_bounds 1600 w ltac:(lia) Hw) as [_ [_ A]].
      destruct (side_ratio_bounds 1200 h ltac:(lia) Hh) as [_ [_ B]].
      apply Q.min_glb; assumption. }
    destruct (scaled_side w h e (exactRatio w h) r Hw Hh ltac:(lia) Ew Hrho Rlo Rhi)
      as [Fw [Pw [Lw Uw]]].
    destruct (scaled_side h w e (exactRatio w h) r Hh Hw ltac:(lia) Eh Hrho Rlo Rhi)
      as [Fh [Ph [Lh Uh]]].
    rewrite Fw, Fh.
    assert (Bw : e / h <= 1600) by (apply Z.div_le_upper_bound; lia).
    assert (Bh : e / w <= 1200) by (apply Z.div_le_upper_bound; lia).
    assert (Qw : Qfloor (inject_Z w * exactRatio w h) = e / h).
    { rewrite Zdiv_Qdiv. apply Qfloor_comp. rewrite <- Ew. field.
      assert (0 < inject_Z h)%Q by (apply inject_Z_pos; lia). lra. }
    assert (Qh : Qfloor (inject_Z h * exactRatio w h) = e / w).
    { rewrite Zdiv_Qdiv. apply Qfloor_comp. rewrite <- Eh. field.
      assert (0 < inject_Z w)%Q by (apply inject_Z_pos; lia). lra. }
    assert (Nw : 0 <= Qfloor (flq (inject_Z w * r)))
      by (rewrite <- (Qfloor_Z 0); apply Qfloor_resp_le, Pw).
    assert (Nh : 0 <= Qfloor (flq (inject_Z h * r)))
      by (rewrite <- (Qfloor_Z 0); apply Qfloor_resp_le, Ph).
    rewrite !canvas_dimension_small;
      rewrite !to_unsigned_long_floor by (try assumption; lia); lia.
Qed.

(** Where C2 as written fails: a 1601 x 1200 image is scaled to the
    Numbers 1600 and 1199.2504..., the canvas is 1600 x 1199, and neither
    pair has the ratio 1601 : 1200. *)
Lemma C2_aspect_ratio_not_kept :
  resizeDims 1601 1200 (lit 1600) (lit 1200)
  = (Fin 1600, Fin (5274359338738089 # 4398046511104)) /\
  resizedSize 1601 1200 = (1600, 1199) /\
  ~ (1600 / (5274359338738089 # 4398046511104) == 1601 / 1200)%Q /\
  ~ (inject_Z (fst (resizedSize 1601 1200)) / inject_Z (snd (resizedSize 1601 1200))
     == 1601 / 1200)%Q.
Proof.
  split; [vm_compute; reflexivity|]. split; [vm_compute; reflexivity|].
  split; intros H; vm_compute in H; discriminate H.
Qed.

End ResizedSize.

(** ** Running asynchronous code to completion *)

Section Running.
Local Open Scope list_scope.
Variable w : World.

Lemma run_bind {A B : Type} (m : Async A) (f : A -> Async B) :
  run w (bind_async m f)
  = match run w m with
    | (tr, Finished a) => (tr ++ fst (run w (f a)), snd (run w (f a)))
    | (tr, Threw) => (tr, Threw)
    | (tr, Pending) => (tr, Pending)
    end.
Proof.
  induction m as [a| | |X r k IH|e k IH]; cbn.
  - destruct (run w (f a)); reflexivity.
  - reflexivity.
  - reflexivity.
  - rewrite IH. destruct (run w (k (answer w r))) as [tr [a| |]]; reflexivity.
  - rewrite IH. destruct (run w k) as [tr [a| |]]; reflexivity.
Qed.

Lemma run_try_catch_finally (body handler final : Async unit) :
  run w (try_catch_finally body handler final)
  = match run w body with
    | (tr, Finished _) => (tr ++ fst (run w final), snd (run w final))
    | (tr, Threw) =>
        (tr ++ fst (run w (bind_async handler (fun _ => final))),
         snd (run w (bind_async handler (fun _ => final))))
    | (tr, Pending) => (tr, Pending)
    end.
Proof.
  induction body as [a| | |X r k IH|e k IH]; cbn.
  - destruct (run w final); reflexivity.
  - destruct (run w (bind_async handler (fun _ => final))); reflexivity.
  - reflexivity.
  - rewrite IH. destruct (run w (k (answer w r))) as [tr [a| |]]; reflexivity.
  - rewrite IH. destruct (run w k) as [tr [a| |]]; reflexivity.
Qed.

Lemma run_act {A : Type} (e : Effect) (k : Async A) :
  run w (Act e k) = (Did e :: fst (run w k), snd (run w k)).
Proof. cbn. destruct (run w k). reflexivity. Qed.

Lemma effects_Did e tr : effects (Did e :: tr) = e :: effects tr.
Proof. reflexivity. Qed.

Lemma filesRead_Did e tr : filesRead (Did e :: tr) = filesRead tr.
Proof. reflexivity. Qed.

Lemma documentsWritten_Did e tr : documentsWritten (Did e :: tr) = documentsWritten tr.
Proof. reflexivity. Qed.

Lemma timeline_SetProgress v tr :
  timeline (Did (SetProgress v) :: tr) = Reported v :: timeline tr.
Proof. reflexivity. Qed.

Lemma timeline_app tr1 tr2 : timeline (tr1 ++ tr2) = timeline tr1 ++ timeline tr2.
Proof. apply flat_map_app. Qed.

Lemma effects_app tr1 tr2 : effects (tr1 ++ tr2) = effects tr1 ++ effects tr2.
Proof. apply flat_map_app. Qed.

Lemma filesRead_app tr1 tr2 : filesRead (tr1 ++ tr2) = filesRead tr1 ++ filesRead tr2.
Proof. apply flat_map_app. Qed.

Lemma documentsWritten_app tr1 tr2 :
  documentsWritten (tr1 ++ tr2) = documentsWritten tr1 ++ documentsWritten tr2.
Proof. apply flat_map_app. Qed.

Lemma downloads_app es1 es2 : downloads (es1 ++ es2) = downloads es1 ++ downloads es2.
Proof. apply flat_map_app. Qed.

Lemma progressReports_app es1 es2 :
  progressReports (es1 ++ es2) = progressReports es1 ++ progressReports es2.
Proof. apply flat_map_app. Qed.

End Running.

Create Rewrite HintDb observed.

#[global] Hint Rewrite
  effects_Did filesRead_Did documentsWritten_Did timeline_SetProgress
  effects_app filesRead_app documentsWritten_app timeline_app
  downloads_app progressReports_app : observed.

(** ** One turn of the loop *)

Section OneFile.
Local Open Scope list_scope.
Variable w : World.

Lemma layoutPage_cases font image file :
  layoutPage font image file = Throw \/
  exists page, layoutPage font image file = Ret page /\
               pageTitles page = [removeFileExtension (name file)] /\
               pageSources page = [origin (png image)].
Proof.
  unfold layoutPage. destruct (scale image (lit 1)) as [wd ht].
  destruct (widthOfTextAtSize font (removeFileExtension (name file)) (lit 28)) as [tw|].
  - right. eexists. split; [reflexivity|]. split; reflexivity.
  - left. reflexivity.
Qed.

Lemma processFile_observed font file :
  effects (fst (run w (processFile font file))) = [] /\
  filesRead (fst (run w (processFile font file))) = [file] /\
  documentsWritten (fst (run w (processFile font file))) = [] /\
  timeline (fst (run w (processFile font file))) = [Processing file].
Proof.
  unfold processFile, fileToDataUrl, resizeImage, addWatermark, embedPng, onload, await.
  cbn [bind_async run answer].
  destruct (reads w file); cbn [bind_async run answer fst]; [|repeat split; reflexivity].
  destruct (image_size w (FileUrl file)) as [[iw ih]|];
    cbn [bind_async run answer fst]; [|repeat split; reflexivity].
  match goal with |- context [image_size w ?u] => destruct (image_size w u) as [[rw rh]|] end;
    cbn [bind_async run answer fst]; [|repeat split; reflexivity].
  match goal with |- context [pdf_embeds w ?u] => destruct (pdf_embeds w u) end;
    cbn [bind_async run answer fst]; [|repeat split; reflexivity].
  match goal with |- context [image_size w ?u] => destruct (image_size w u) as [[pw ph]|] end;
    cbn [bind_async run answer fst]; [|repeat split; reflexivity].
  match goal with |- context [layoutPage ?f ?i ?fl] =>
    destruct (layoutPage_cases f i fl) as [E|[page [E _]]]; rewrite E end;
    cbn; repeat split; reflexivity.
Qed.

Lemma processFile_finished font file page :
  snd (run w (processFile font file)) = Finished page ->
  pageTitles page = [removeFileExtension (name file)] /\
  pageSources page = [Some file].
Proof.
  unfold processFile, fileToDataUrl, resizeImage, addWatermark, embedPng, onload, await.
  cbn [bind_async run answer].
  destruct (reads w file); cbn [bind_async run answer snd]; [|discriminate].
  destruct (image_size w (FileUrl file)) as [[iw ih]|];
    cbn [bind_async run answer snd]; [|discriminate].
  match goal with |- context [image_size w ?u] => destruct (image_size w u) as [[rw rh]|] end;
    cbn [bind_async run answer snd]; [|discriminate].
  match goal with |- context [pdf_embeds w ?u] => destruct (pdf_embeds w u) end;
    cbn [bind_async run answer snd]; [|discriminate].
  match goal with |- context [image_size w ?u] => destruct (image_size w u) as [[pw ph]|] end;
    cbn [bind_async run answer snd]; [|discriminate].
  match goal with |- context [layoutPage ?f ?i ?fl] =>
    destruct (layoutPage_cases f i fl) as [E|[p [E [T S]]]]; rewrite E end;
    cbn [run snd]; intros H; [discriminate|].
  injection H as <-. split; [exact T|].
  rewrite S. cbn [png]. unfold watermarkCanvas, resizeCanvas. cbn [src width height origin].
  destruct (resizeDims iw ih (lit 1600) (lit 1200)). reflexivity.
Qed.

End OneFile.

(** ** File names that begin with a dot *)

Section DotFiles.
Local Open Scope string_scope.
Local Open Scope list_scope.


End DotFiles.

(** ** The loop over the files *)

Section Loop.
Local Open Scope list_scope.
Local Open Scope Z_scope.
Variable w : World.
Variable font : PDFFont.
Variable n : Z.

Lemma forFiles_run (rest : list File) :
  forall (i : Z) (pages : list PDFPage),
  exists started : nat,
    (started <= List.length rest)%nat /\
    filesRead (fst (run w (forFiles font (of_Z n) rest i pages))) = firstn started rest /\
    progressReports (effects (fst (run w (forFiles font (of_Z n) rest i pages))))
    = map (fun k => progressBefore n (i + Z.of_nat k)) (seq 0 started) /\
    downloads (effects (fst (run w (forFiles font (of_Z n) rest i pages)))) = [] /\
    documentsWritten (fst (run w (forFiles font (of_Z n) rest i pages))) = [] /\
    timeline (fst (run w (forFiles font (of_Z n) rest i pages)))
    = schedule n i (firstn started rest) /\
    match snd (run w (forFiles font (of_Z n) rest i pages)) with
    | Finished ps =>
        started = List.length rest /\
        exists new, ps = pages ++ new /\ Forall2 (yields w font) rest new
    | _ =>
        exists done f later,
          rest = done ++ f :: later /\ started = S (List.length done) /\
          (forall p, ~ yields w font f p) /\
          Forall (fun g => exists p, yields w font g p) done
    end.
Proof.
  induction rest as [|file rest' IH]; intros i pages.
  - exists 0%nat. cbn. repeat split; try reflexivity.
    exists []. rewrite app_nil_r. split; [reflexivity|constructor].
  - cbn [forFiles act bind_async]. rewrite run_act, run_bind.
    destruct (processFile_observed w font file) as [He [Hf [Hd Ht]]].
    destruct (run w (processFile font file)) as [tr o] eqn:Er. cbn [fst snd] in *.
    fold (progressBefore n i).
    destruct o as [page| |]; cbn [fst snd]; autorewrite with observed;
      rewrite ?He, ?Hf, ?Hd, ?Ht.
    2, 3: exists 1%nat;
      cbn [app progressReports downloads flat_map firstn seq map Datatypes.length schedule];
      (split; [lia|]); (split; [reflexivity|]);
      (split; [unfold progressBefore; rewrite Z.add_0_r; reflexivity|]);
      do 3 (split; [reflexivity|]);
      exists [], file, rest'; repeat split; try reflexivity; [|constructor];
      intros p Hy; unfold yields in Hy; rewrite Er in Hy; discriminate.
    destruct (IH (i + 1) (pages ++ [page])) as [k [Hk [Fr [Pr [Dl [Dw [Tm Oc]]]]]]].
    exists (S k). rewrite Fr, Dw, Tm.
    cbn [app progressReports downloads flat_map].
    unfold progressReports in Pr. unfold downloads in Dl. rewrite Pr, Dl.
    split; [cbn; lia|]. split; [reflexivity|].
    split.
    { cbn [seq map]. f_equal.
      - unfold progressBefore. rewrite Z.add_0_r. reflexivity.
      - rewrite <- seq_shift, map_map. apply map_ext. intros a.
        f_equal. lia. }
    do 3 (split; [reflexivity|]).
    assert (Hp : yields w font file page) by (unfold yields; rewrite Er; reflexivity).
    destruct (snd (run w (forFiles font (of_Z n) rest' (i + 1) (pages ++ [page])))) as [ps| |].
    2, 3: destruct Oc as [dn [f [later [-> [-> [Nf Fa]]]]]];
      exists (file :: dn), f, later; repeat split; try reflexivity; try assumption;
      constructor; [exists page; exact Hp|exact Fa].
    destruct Oc as [-> [new [-> F]]]. split; [reflexivity|].
    exists (page :: new). rewrite <- app_assoc. split; [reflexivity|].
    constructor; [exact Hp|exact F].
Qed.

End Loop.

(** ** A whole run of [handleGeneratePDF] *)

Section WholeRun.
Local Open Scope list_scope.
Local Open Scope Z_scope.
Variable w : World.

Lemma run_create :
  run w create
  = ([Asked PdfCreate], if pdf_creates w then Finished tt else Threw).
Proof. unfold create, await. cbn. destruct (pdf_creates w); reflexivity. Qed.

Lemma run_embedFont f :
  run w (embedFont f)
  = ([Asked (PdfEmbedFont f)],
     match pdf_fonts w f with Some font => Finished font | None => Threw end).
Proof. unfold embedFont, await. cbn. destruct (pdf_fonts w f); reflexivity. Qed.

Lemma run_save pages :
  run w (save pages)
  = ([Asked (PdfSave pages)],
     match pdf_saves w pages with
     | Some v => Finished {| saved_pages := pages; saved_variant := v |}
     | None => Threw
     end).
Proof. unfold save, await. cbn. destruct (pdf_saves w pages); reflexivity. Qed.

(** Tallies what was observed: the requests and actions around the loop
    are computed, the observations of the loop are taken from the
    hypotheses. *)
Ltac tally :=
  cbn [fst snd run act bind_async app]; rewrite ?app_nil_r;
  cbn [fst snd flat_map app]; rewrite ?flat_map_app;
  cbn [fst snd flat_map app]; rewrite ?flat_map_app;
  repeat match goal with
    | H : flat_map _ _ = _ |- _ => rewrite H
    end;
  cbn [fst snd flat_map app]; rewrite ?app_nil_r.

(** The shapes a run over a non-empty list can take. *)
Lemma handleGeneratePDF_run (files : list File) :
  files <> [] ->
  let n := Z.of_nat (List.length files) in
  let tr := fst (run w (handleGeneratePDF files)) in
  (exists started : nat,
      (started <= List.length files)%nat /\
      filesRead tr = firstn started files /\
      progressReports (effects tr) = lit 0 :: map (fun k => progressBefore n (Z.of_nat k)) (seq 0 started) /\
      downloads (effects tr) = [] /\
      documentsWritten tr = [] /\
      timeline tr = Reported (lit 0) :: schedule n 0 (firstn started files) /\
      ((started = 0%nat /\ (pdf_creates w = false \/ pdf_fonts w "Helvetica" = None)) \/
       (exists font done f later,
           pdf_creates w = true /\ pdf_fonts w "Helvetica" = Some font /\
           files = done ++ f :: later /\ started = S (List.length done) /\
           (forall p, ~ yields w font f p) /\
           Forall (fun g => exists p, yields w font g p) done))) \/
  (exists font pages,
      pdf_creates w = true /\ pdf_fonts w "Helvetica" = Some font /\
      Forall2 (yields w font) files pages /\
      filesRead tr = files /\
      documentsWritten tr = [pages] /\
      ((pdf_saves w pages = None /\
        downloads (effects tr) = [] /\
        progressReports (effects tr)
        = lit 0 :: map (fun k => progressBefore n (Z.of_nat k)) (seq 0 (List.length files)) /\
        timeline tr = Reported (lit 0) :: schedule n 0 files ++ [Serialising pages]) \/
       (exists v, pdf_saves w pages = Some v /\
        downloads (effects tr) = [{| saved_pages := pages; saved_variant := v |}] /\
        progressReports (effects tr)
        = lit 0 :: map (fun k => progressBefore n (Z.of_nat k)) (seq 0 (List.length files))
                ++ [lit 100] /\
        timeline tr
        = Reported (lit 0) :: schedule n 0 files
                 ++ [Serialising pages; Reported (lit 100)]))).
Proof.
  intros Hne n tr. subst tr. unfold handleGeneratePDF.
  destruct (Z.eqb_spec (Z.of_nat (List.length files)) 0) as [E|_].
  { destruct files; [congruence|cbn in E; lia]. }
  fold n. cbn [act bind_async]. rewrite !run_act, run_try_catch_finally.
  rewrite run_bind, run_create.
  destruct (pdf_creates w) eqn:Ec.
  2:{ left. exists 0%nat. cbn. repeat split; try reflexivity; try lia. }
  rewrite run_bind, run_embedFont.
  destruct (pdf_fonts w "Helvetica") as [font|] eqn:Ef.
  2:{ left. exists 0%nat. cbn. repeat split; try reflexivity; try lia.
      left. split; [reflexivity|right; reflexivity]. }
  rewrite run_bind.
  destruct (forFiles_run w font n files 0 []) as [k [Hk [Fr [Pr [Dl [Dw [Tm Oc]]]]]]].
  destruct (run w (forFiles font (of_Z n) files 0 [])) as [ltr lo] eqn:El.
  cbn [fst snd] in *.
  unfold progressReports, downloads, documentsWritten, filesRead, timeline, effects in *.
  destruct lo as [ps| |].
  - destruct Oc as [-> [new [Eps F]]]. cbn [app] in Eps. subst ps.
    rewrite run_bind, run_save.
    destruct (pdf_saves w new) as [v|] eqn:Es; tally; rewrite ?firstn_all.
    + right. exists font, new. repeat split; try reflexivity; try assumption.
      right. exists v. repeat split; try reflexivity; assumption.
    + right. exists font, new. repeat split; try reflexivity; try assumption.
      left. repeat split; try reflexivity; assumption.
  - destruct Oc as [dn [f [later [Efs [-> [Nf Fa]]]]]]. tally.
    left. exists (S (List.length dn)). repeat split; try reflexivity; try assumption.
    right. exists font, dn, f, later. repeat split; try reflexivity; assumption.
  - destruct Oc as [dn [f [later [Efs [-> [Nf Fa]]]]]]. tally.
    left. exists (S (List.length dn)). repeat split; try reflexivity; try assumption.
    right. exists font, dn, f, later. repeat split; try reflexivity; assumption.
Qed.

End WholeRun.

(** ** A run in the page, with the user at work *)

Section Interleaving.
Local Open Scope list_scope.
Variable w : World.

Lemma advance_conserves (t : Async unit) :
  forall a : App,
    exists new : list Effect,
      done (advance t a) = done a ++ new /\
      new ++ remaining w (inflight (advance t a)) = effects (fst (run w t)) /\
      files (advance t a) = files a.
Proof.
  induction t as [u| | |X r k _|e k IH]; intros a; cbn [advance].
  - exists []. rewrite app_nil_r. repeat split; reflexivity.
  - exists []. rewrite app_nil_r. repeat split; reflexivity.
  - exists []. rewrite app_nil_r. repeat split; reflexivity.
  - exists []. rewrite app_nil_r. repeat split; reflexivity.
  - destruct (IH (perform e a)) as [new [D [C F]]]. exists (e :: new).
    rewrite D, F, run_act. cbn [fst perform done files].
    rewrite effects_Did, <- app_assoc, <- C. repeat split; reflexivity.
Qed.

Lemma step_conserves (ev : Event) (a : App) :
  ev <> Click ->
  exists new : list Effect,
    done (step w ev a) = done a ++ new /\
    new ++ remaining w (inflight (step w ev a)) = remaining w (inflight a).
Proof.
  intros H.
  assert (Same : exists new, done a = done a ++ new /\
                   new ++ remaining w (inflight a) = remaining w (inflight a))
    by (exists []; rewrite app_nil_r; split; reflexivity).
  destruct ev as [fs|i| |]; cbn [step]; try exact Same; [congruence|].
  destruct (inflight a) as [[u| | |X r k|e k]|] eqn:E; try (rewrite <- E in *; exact Same).
  destruct (advance_conserves (k (answer w r)) a) as [new [D [C _]]].
  exists new. split; [exact D|]. rewrite C.
  cbn [remaining run]. destruct (run w (k (answer w r))) as [tr o]. reflexivity.
Qed.

Lemma exec_conserves (evs : list Event) :
  forall a : App,
    Forall (fun ev => ev <> Click) evs ->
    exists new : list Effect,
      done (exec w evs a) = done a ++ new /\
      new ++ remaining w (inflight (exec w evs a)) = remaining w (inflight a).
Proof.
  induction evs as [|ev evs IH]; intros a H; cbn [exec fold_left].
  - exists []. rewrite app_nil_r. split; reflexivity.
  - inversion H as [|? ? Hev Hevs]; subst.
    change (fold_left (fun a0 ev0 => step w ev0 a0) evs (step w ev a))
      with (exec w evs (step w ev a)).
    destruct (IH (step w ev a) Hevs) as [new2 [D2 C2]].
    destruct (step_conserves ev a Hev) as [new1 [D1 C1]].
    exists (new1 ++ new2). rewrite D2, D1, <- !app_assoc, C2, C1.
    split; reflexivity.
Qed.

(** Whatever the user drops or removes while a run is suspended, the run
    does what it would have done alone on the list it was started with. *)
Lemma click_then_events (a : App) (evs : list Event) :
  disabled a = false ->
  Forall (fun ev => ev <> Click) evs ->
  since a (exec w evs (step w Click a))
  ++ remaining w (inflight (exec w evs (step w Click a)))
  = effects (fst (run w (handleGeneratePDF (files a)))).
Proof.
  intros Hen Hevs.
  destruct (exec_conserves evs (step w Click a) Hevs) as [new2 [D2 C2]].
  cbn [step] in *. rewrite Hen in *.
  destruct (advance_conserves (handleGeneratePDF (files a)) a) as [new1 [D1 [C1 _]]].
  unfold since. rewrite D2, D1, <- app_assoc, skipn_app, skipn_all, Nat.sub_diag.
  cbn [skipn app]. rewrite <- app_assoc, C2. exact C1.
Qed.

End Interleaving.

(** ** Whole runs: pages, failures, reruns *)

Section WholeRuns.
Local Open Scope list_scope.

Lemma downloads_of_run (w : World) (entries : list File) (d : PdfBytes) :
  In d (downloads (effects (fst (run w (handleGeneratePDF entries))))) ->
  exists font,
    pdf_fonts w "Helvetica" = Some font /\
    Forall2 (yields w font) entries (saved_pages d) /\
    downloads (effects (fst (run w (handleGeneratePDF entries)))) = [d].
Proof.
  intros Hin. destruct entries as [|f fs]; [contradiction Hin|].
  destruct (handleGeneratePDF_run w (f :: fs) ltac:(discriminate))
    as [[k [_ [_ [_ [Dl _]]]]]|[font [pages [_ [Ef [F [_ [_ [[_ [Dl _]]|[v [_ [Dl _]]]]]]]]]]]];
    rewrite Dl in Hin; try contradiction Hin.
  destruct Hin as [<-|[]]. exists font. cbn [saved_pages]. repeat split; assumption.
Qed.

Lemma yields_page (w : World) (font : PDFFont) (entries : list File) (pages : list PDFPage) :
  Forall2 (yields w font) entries pages ->
  List.length pages = List.length entries /\
  map pageTitles pages = map (fun f => [removeFileExtension (name f)]) entries /\
  map pageSources pages = map (fun f => [Some f]) entries.
Proof.
  induction 1 as [|f p fs ps Hy _ [IHl [IHt IHs]]]; cbn.
  - repeat split; reflexivity.
  - destruct (processFile_finished w font f p Hy) as [T S].
    rewrite IHl, IHt, IHs, T, S. repeat split; reflexivity.
Qed.

(** C1.  A run started on a non-empty list of [N] entries downloads a
    document of exactly [N] pages, and page [i] shows the image of entry [i]
    under the label of entry [i]; this holds whatever the user drops or
    removes while the run is suspended. *)
Theorem C1_one_page_per_entry_in_order :
  forall (w : World) (a : App) (evs : list Event) (entries : list File)
         (d : PdfBytes),
    files a = entries -> entries <> [] -> isGenerating a = false ->
    Forall (fun ev => ev <> Click) evs ->
    In d (downloads (since a (exec w evs (step w Click a)))) ->
    List.length (saved_pages d) = List.length entries /\
    (forall i f, nth_error entries i = Some f ->
       exists p, nth_error (saved_pages d) i = Some p /\
                 pageSources p = [Some f] /\
                 pageTitles p = [removeFileExtension (name f)]) /\
    exists font, pdf_fonts w "Helvetica" = Some font /\
                 Forall2 (yields w font) entries (saved_pages d).
Proof.
  intros w a evs entries d Hf Hne Hg Hevs Hin.
  assert (Hen : disabled a = false).
  { unfold disabled. rewrite Hg, Hf, orb_false_r.
    destruct entries; [congruence|reflexivity]. }
  pose proof (click_then_events w a evs Hen Hevs) as C. rewrite Hf in C.
  assert (Hin' : In d (downloads (effects (fst (run w (handleGeneratePDF entries)))))).
  { rewrite <- C, downloads_app. apply in_or_app. left. exact Hin. }
  destruct (downloads_of_run w entries d Hin') as [font [Ef [F _]]].
  destruct (yields_page w font entries (saved_pages d) F) as [L [T S]].
  split; [exact L|]. split; [|exists font; split; assumption].
  intros i f Hi.
  destruct (nth_error (saved_pages d) i) as [p|] eqn:Ep.
  - exists p. split; [reflexivity|].
    apply (map_nth_error pageSources) in Ep as Es. rewrite S in Es.
    apply (map_nth_error pageTitles) in Ep as Et. rewrite T in Et.
    rewrite (map_nth_error (fun f => [Some f]) _ _ Hi) in Es.
    rewrite (map_nth_error (fun f => [removeFileExtension (name f)]) _ _ Hi) in Et.
    split; congruence.
  - apply nth_error_None in Ep. assert (i < List.length entries)%nat
      by (apply nth_error_Some; congruence). lia.
Qed.

(** C9.  Called with an empty list, [handleGeneratePDF] returns at once:
    no state is written, no document is created, nothing is downloaded. *)
Theorem C9_empty_list_is_noop :
  forall (w : World) (a : App),
    files a = [] ->
    handleGeneratePDF (files a) = Ret tt /\
    run w (handleGeneratePDF (files a)) = ([], Finished tt) /\
    progress (advance (handleGeneratePDF (files a)) a) = progress a /\
    isGenerating (advance (handleGeneratePDF (files a)) a) = isGenerating a /\
    files (advance (handleGeneratePDF (files a)) a) = files a /\
    done (advance (handleGeneratePDF (files a)) a) = done a /\
    step w Click a = a.
Proof.
  intros w a H. repeat split; try (rewrite H; cbn; rewrite ?H; reflexivity).
  unfold step, disabled. rewrite H. reflexivity.
Qed.

Lemma split_before {A : Type} (l1 l2 r1 r2 : list A) (x y : A) :
  l1 ++ x :: r1 = l2 ++ y :: r2 ->
  (List.length l1 < List.length l2)%nat -> In x l2.
Proof.
  intros E H.
  assert (N : nth_error (l1 ++ x :: r1) (List.length l1) = Some x)
    by (rewrite nth_error_app2, Nat.sub_diag by lia; reflexivity).
  rewrite E, nth_error_app1 in N by exact H.
  eapply nth_error_In, N.
Qed.

Lemma yields_member (w : World) (font : PDFFont) (entries : list File)
  (pages : list PDFPage) (f : File) :
  Forall2 (yields w font) entries pages -> In f entries ->
  exists p, yields w font f p.
Proof.
  induction 1 as [|g p fs ps Hy _ IH]; intros Hin; [contradiction Hin|].
  destruct Hin as [->|Hin]; [exists p; exact Hy|apply IH, Hin].
Qed.

(** When the turn of some entry does not yield a page (its file is not
    read, its image does not load, pdf-lib rejects it or cannot write its
    title), no later entry is touched, no document is written and nothing is
    downloaded; the same holds when the document or the font cannot be
    created, and nothing is downloaded when the document cannot be saved.
    A run downloads either nothing or one document holding a page for
    every entry.  Whether the run settles is another matter, see the
    sections on failures below. *)
Lemma failed_entry_stops_the_loop :
  forall (w : World) (entries : list File),
    entries <> [] ->
    (forall font before f later,
        pdf_fonts w "Helvetica" = Some font ->
        entries = before ++ f :: later ->
        (forall p, ~ yields w font f p) ->
        (exists started : nat,
            (started <= S (List.length before))%nat /\
            filesRead (fst (run w (handleGeneratePDF entries))) = firstn started entries) /\
        documentsWritten (fst (run w (handleGeneratePDF entries))) = [] /\
        downloads (effects (fst (run w (handleGeneratePDF entries)))) = []) /\
    (pdf_creates w = false \/ pdf_fonts w "Helvetica" = None ->
        filesRead (fst (run w (handleGeneratePDF entries))) = [] /\
        documentsWritten (fst (run w (handleGeneratePDF entries))) = [] /\
        downloads (effects (fst (run w (handleGeneratePDF entries)))) = []) /\
    ((forall pages, pdf_saves w pages = None) ->
        downloads (effects (fst (run w (handleGeneratePDF entries)))) = []) /\
    (downloads (effects (fst (run w (handleGeneratePDF entries)))) = [] \/
     exists font d,
       pdf_fonts w "Helvetica" = Some font /\
       downloads (effects (fst (run w (handleGeneratePDF entries)))) = [d] /\
       Forall2 (yields w font) entries (saved_pages d)).
Proof.
  intros w entries Hne.
  pose proof (handleGeneratePDF_run w entries Hne) as R. cbv zeta in R.
  set (tr := fst (run w (handleGeneratePDF entries))) in *.
  split; [|split; [|split]].
  - intros font before f later Ef E Nf.
    destruct R as [[k [Hk [Fr [_ [Dl [Dw [_ Why]]]]]]]|[font' [pages [_ [Ef' [F _]]]]]].
    + split; [|split; assumption].
      destruct Why as [[-> _]|[font' [dn [f' [later' [_ [Ef' [E' [-> [Nf' Fa]]]]]]]]]].
      * exists 0%nat. split; [lia|exact Fr].
      * exists (S (List.length dn)). split; [|exact Fr].
        destruct (Nat.le_gt_cases (List.length dn) (List.length before)) as [Le|Gt]; [lia|].
        exfalso. rewrite E in E'. apply (split_before _ _ _ _ _ _ E') in Gt.
        rewrite Forall_forall in Fa. destruct (Fa f Gt) as [p Hp].
        assert (font' = font) by congruence. subst font'. exact (Nf p Hp).
    + exfalso. assert (font' = font) by congruence. subst font'.
      destruct (yields_member w font entries pages f F) as [p Hp].
      * rewrite E. apply in_or_app. right. left. reflexivity.
      * exact (Nf p Hp).
  - intros Hc.
    destruct R as [[k [Hk [Fr [_ [Dl [Dw [_ Why]]]]]]]|[font' [pages [Ec [Ef' _]]]]].
    + destruct Why as [[-> _]|[font' [dn [f' [later' [Ec [Ef' _]]]]]]].
      * repeat split; assumption.
      * destruct Hc; congruence.
    + destruct Hc; congruence.
  - intros Hs.
    destruct R as [[k [_ [_ [_ [Dl _]]]]]|[font' [pages [_ [_ [_ [_ [_ [[_ [Dl _]]|[v [Es _]]]]]]]]]]].
    + exact Dl.
    + exact Dl.
    + rewrite Hs in Es. discriminate.
  - destruct R as [[k [_ [_ [_ [Dl _]]]]]|[font' [pages [_ [Ef [F [_ [_ [[_ [Dl _]]|[v [_ [Dl _]]]]]]]]]]]].
    + left. exact Dl.
    + left. exact Dl.
    + right. exists font', {| saved_pages := pages; saved_variant := v |}.
      repeat split; assumption.
Qed.

(** C8.  Two runs over the same list of entries, in whatever worlds,
    download documents with the same number of pages, showing the same
    entries in the same order under the same titles; and what a run does
    depends on the list it is started with, not on what the component did
    or displayed before. *)
Theorem C8_rerun_same_structure :
  forall (w1 w2 : World) (entries : list File) (d1 d2 : PdfBytes),
    In d1 (downloads (effects (fst (run w1 (handleGeneratePDF entries))))) ->
    In d2 (downloads (effects (fst (run w2 (handleGeneratePDF entries))))) ->
    List.length (saved_pages d1) = List.length (saved_pages d2) /\
    map pageSources (saved_pages d1) = map pageSources (saved_pages d2) /\
    map pageTitles (saved_pages d1) = map pageTitles (saved_pages d2) /\
    (forall (a1 a2 : App) (evs1 evs2 : list Event),
        files a1 = entries -> files a2 = entries ->
        disabled a1 = false -> disabled a2 = false ->
        Forall (fun ev => ev <> Click) evs1 ->
        Forall (fun ev => ev <> Click) evs2 ->
        since a1 (exec w1 evs1 (step w1 Click a1))
        ++ remaining w1 (inflight (exec w1 evs1 (step w1 Click a1)))
        = since a2 (exec w1 evs2 (step w1 Click a2))
        ++ remaining w1 (inflight (exec w1 evs2 (step w1 Click a2)))).
Proof.
  intros w1 w2 entries d1 d2 H1 H2.
  destruct (downloads_of_run w1 entries d1 H1) as [font1 [_ [F1 _]]].
  destruct (downloads_of_run w2 entries d2 H2) as [font2 [_ [F2 _]]].
  destruct (yields_page w1 font1 entries _ F1) as [L1 [T1 S1]].
  destruct (yields_page w2 font2 entries _ F2) as [L2 [T2 S2]].
  split; [congruence|]. split; [congruence|]. split; [congruence|].
  intros a1 a2 evs1 evs2 E1 E2 En1 En2 Hev1 Hev2.
  rewrite (click_then_events w1 a1 evs1 En1 Hev1), (click_then_events w1 a2 evs2 En2 Hev2).
  congruence.
Qed.

End WholeRuns.

(** ** The progress bar *)

Section Progress.
Local Open Scope list_scope.

Lemma ratio_bounds (i n : Z) :
  (0 <= i < n)%Z -> (0 <= inject_Z i / inject_Z n)%Q /\ (inject_Z i / inject_Z n <= 1)%Q.
Proof.
  intros H.
  assert (Hn : (0 < inject_Z n)%Q) by (change 0%Q with (inject_Z 0); rewrite <- Zlt_Qlt; lia).
  assert (Hi : (0 <= inject_Z i)%Q) by (change 0%Q with (inject_Z 0); rewrite <- Zle_Qle; lia).
  assert (Hin : (inject_Z i <= inject_Z n)%Q) by (rewrite <- Zle_Qle; lia).
  split.
  - apply Qle_shift_div_l; [exact Hn|]. lra.
  - apply Qle_shift_div_r; [exact Hn|]. lra.
Qed.

Lemma progressBefore_value (n i : Z) :
  (0 <= i < n)%Z -> (n < 2 ^ 53)%Z ->
  progressBefore n i = Fin (flq (flq (inject_Z i / inject_Z n) * 90)) /\
  (0 <= flq (flq (inject_Z i / inject_Z n) * 90))%Q /\
  (flq (flq (inject_Z i / inject_Z n) * 90) <= 90)%Q.
Proof.
  intros Hi Hn. unfold progressBefore.
  rewrite !of_Z_fin by lia. change (lit 90) with (lit (inject_Z 90)).
  rewrite lit_Z by lia. cbn [num_div].
  assert (Nz : Qeq_bool (inject_Z n) 0 = false).
  { destruct (Qeq_bool (inject_Z n) 0) eqn:E; [|reflexivity].
    apply Qeq_bool_iff in E. unfold Qeq in E. cbn in E. lia. }
  rewrite Nz. destruct (ratio_bounds i n Hi) as [R0 R1].
  destruct (flq_between _ 0 1 ltac:(lia) ltac:(lia) R0 R1) as [F0 F1].
  rewrite (fl_between _ 0 1) by (try lia; assumption).
  cbn [num_mul].
  assert (P0 : (inject_Z 0 <= flq (inject_Z i / inject_Z n) * inject_Z 90)%Q).
  { change (inject_Z 0) with 0%Q. change (inject_Z 90) with 90%Q.
    change (inject_Z 0) with 0%Q in F0. lra. }
  assert (P1 : (flq (inject_Z i / inject_Z n) * inject_Z 90 <= inject_Z 90)%Q).
  { change (inject_Z 90) with 90%Q. change (inject_Z 1) with 1%Q in F1. lra. }
  destruct (flq_between _ 0 90 ltac:(lia) ltac:(lia) P0 P1) as [G0 G1].
  rewrite (fl_between _ 0 90) by (try lia; assumption).
  split; [reflexivity|]. split; assumption.
Qed.

Lemma progressBefore_mono (n i j : Z) :
  (0 <= i <= j)%Z -> (j < n)%Z -> (n < 2 ^ 53)%Z ->
  num_le (progressBefore n i) (progressBefore n j).
Proof.
  intros Hij Hj Hn.
  destruct (progressBefore_value n i ltac:(lia) Hn) as [-> _].
  destruct (progressBefore_value n j ltac:(lia) Hn) as [-> _].
  cbn [num_le]. apply flq_mono.
  apply Qmult_le_compat_r; [|discriminate].
  apply flq_mono. unfold Qdiv. apply Qmult_le_compat_r.
  - rewrite <- Zle_Qle. lia.
  - apply Qlt_le_weak, Qinv_lt_0_compat.
    change 0%Q with (inject_Z 0). rewrite <- Zlt_Qlt. lia.
Qed.

Lemma StronglySorted_snoc {A : Type} (R : A -> A -> Prop) (l : list A) (x : A) :
  StronglySorted R l -> Forall (fun y => R y x) l -> StronglySorted R (l ++ [x]).
Proof.
  induction 1 as [|a l Hs IH Ha]; intros Hx; cbn.
  - constructor; constructor.
  - inversion Hx as [|? ? Hax Hlx]; subst. constructor; [apply IH, Hlx|].
    apply Forall_app. split; [exact Ha|constructor; [exact Hax|constructor]].
Qed.

Lemma StronglySorted_prefix {A : Type} (R : A -> A -> Prop) (l1 l2 : list A) :
  StronglySorted R (l1 ++ l2) -> StronglySorted R l1.
Proof.
  induction l1 as [|a l1 IH]; cbn; intros H; [constructor|].
  inversion H as [|? ? Hs Ha]; subst. constructor; [apply IH, Hs|].
  apply Forall_app in Ha. apply Ha.
Qed.

Lemma progress_values_sorted (n : Z) (m : nat) :
  (Z.of_nat m <= n)%Z -> (n < 2 ^ 53)%Z ->
  forall a : nat,
    (a + m <= Z.to_nat n)%nat ->
    StronglySorted num_le (map (fun i => progressBefore n (Z.of_nat i)) (seq a m)).
Proof.
  intros Hm Hn. induction m as [|m IH]; intros a Ha; cbn [seq map].
  - constructor.
  - constructor; [apply IH; lia|].
    apply Forall_forall. intros v Hv. apply in_map_iff in Hv as [j [<- Hj]].
    apply in_seq in Hj. apply progressBefore_mono; lia.
Qed.

Lemma all_reports_sorted (n : Z) :
  (0 < n < 2 ^ 53)%Z ->
  StronglySorted num_le
    (lit 0 :: map (fun i => progressBefore n (Z.of_nat i)) (seq 0 (Z.to_nat n))
           ++ [lit 100]).
Proof.
  intros Hn. rewrite lit_0, lit_100.
  assert (B : forall v, In v (map (fun i => progressBefore n (Z.of_nat i)) (seq 0 (Z.to_nat n))) ->
                        num_le (Fin 0) v /\ num_le v (Fin 100)).
  { intros v Hv. apply in_map_iff in Hv as [j [<- Hj]]. apply in_seq in Hj.
    destruct (progressBefore_value n (Z.of_nat j) ltac:(lia) ltac:(lia)) as [-> [L U]].
    cbn [num_le]. split; [exact L|lra]. }
  constructor.
  - apply StronglySorted_snoc; [apply progress_values_sorted; lia|].
    apply Forall_forall. intros v Hv. apply (B v Hv).
  - apply Forall_app. split.
    + apply Forall_forall. intros v Hv. apply (B v Hv).
    + constructor; [cbn; lra|constructor].
Qed.

Lemma progress_values_firstn (n : Z) (k m : nat) :
  (k <= m)%nat ->
  map (fun i => progressBefore n (Z.of_nat i)) (seq 0 k)
  = firstn k (map (fun i => progressBefore n (Z.of_nat i)) (seq 0 m)).
Proof.
  intros H. rewrite firstn_map. f_equal. revert m H. generalize 0%nat.
  induction k as [|k IH]; intros a m H; [reflexivity|].
  destruct m as [|m]; [lia|]. cbn [seq firstn]. f_equal. apply IH. lia.
Qed.

(** C3.  A run over [n] entries reports 0 when it starts, then
    [(i / n) * 90] right before it processes entry [i], for [i] from 0 to
    [n - 1], and 100 right after the document is serialised.  Whatever
    happens, what a run reports is exactly this: 0, then the values of the
    [started] entries whose processing began, in order, each right before
    the file of its entry is read, then 100, after the document is
    serialised, exactly when a document is downloaded.  When nothing fails
    every entry is started and 100 is reported.  The values reported never
    decrease.  With four entries they are 0, then 0, 22.5, 45, 67.5 at the
    entries, then 100. *)
Theorem C3_progress_sequence :
  forall (w : World) (entries : list File),
    entries <> [] ->
    (Z.of_nat (List.length entries) < 2 ^ 32)%Z ->
    let n := Z.of_nat (List.length entries) in
    let tr := fst (run w (handleGeneratePDF entries)) in
    let started := List.length (filesRead tr) in
    let before := fun k => map (fun i => progressBefore n (Z.of_nat i)) (seq 0 k) in
    let closed := match downloads (effects tr) with [] => [] | _ :: _ => [lit 100] end in
    (started <= List.length entries)%nat /\
    filesRead tr = firstn started entries /\
    progressReports (effects tr) = lit 0 :: before started ++ closed /\
    timeline tr
    = Reported (lit 0) :: schedule n 0 (firstn started entries)
             ++ map Serialising (documentsWritten tr) ++ map Reported closed /\
    (forall font,
        pdf_creates w = true -> pdf_fonts w "Helvetica" = Some font ->
        Forall (fun f => exists p, yields w font f p) entries ->
        (forall pages, pdf_saves w pages <> None) ->
        progressReports (effects tr) = lit 0 :: before (List.length entries) ++ [lit 100] /\
        exists d, downloads (effects tr) = [d] /\
          timeline tr
          = Reported (lit 0) :: schedule n 0 entries
                   ++ [Serialising (saved_pages d); Reported (lit 100)]) /\
    (forall d, In d (downloads (effects tr)) ->
        timeline tr
        = Reported (lit 0) :: schedule n 0 entries
                 ++ [Serialising (saved_pages d); Reported (lit 100)] /\
        progressReports (effects tr) = lit 0 :: before (List.length entries) ++ [lit 100]) /\
    StronglySorted num_le (progressReports (effects tr)) /\
    (List.length entries = 4%nat ->
        progressReports (effects tr)
        = Fin 0 :: firstn started [Fin 0; Fin (45 # 2); Fin 45; Fin (135 # 2)]
                ++ match downloads (effects tr) with [] => [] | _ :: _ => [Fin 100] end).
Proof.
  intros w entries Hne Hlen n tr started before closed.
  assert (Hn : (0 < n < 2 ^ 53)%Z).
  { subst n. destruct entries; [congruence|]. cbn [List.length] in *. lia. }
  assert (Hall : StronglySorted num_le (lit 0 :: before (List.length entries) ++ [lit 100])).
  { subst before. cbv beta.
    replace (List.length entries) with (Z.to_nat n) by (subst n; apply Nat2Z.id).
    apply all_reports_sorted, Hn. }
  pose proof (handleGeneratePDF_run w entries Hne) as R. cbv zeta in R.
  fold n in R. fold tr in R.
  assert (Shape :
    (started <= List.length entries)%nat /\
    filesRead tr = firstn started entries /\
    progressReports (effects tr) = lit 0 :: before started ++ closed /\
    timeline tr
    = Reported (lit 0) :: schedule n 0 (firstn started entries)
             ++ map Serialising (documentsWritten tr) ++ map Reported closed).
  { subst started closed before. cbv beta.
    destruct R as [[k [Hk [Fr [Pr [Dl [Dw [Tm _]]]]]]]
                  |[font [pages [_ [_ [_ [Fr [Dw [[_ [Dl [Pr Tm]]]|[v [_ [Dl [Pr Tm]]]]]]]]]]]]].
    - assert (L : List.length (filesRead tr) = k)
        by (rewrite Fr, length_firstn; lia).
      rewrite L, Dl, Dw. cbn [map]. rewrite !app_nil_r.
      repeat split; assumption.
    - rewrite Fr, Dl, Dw, firstn_all. cbn [map]. rewrite !app_nil_r.
      repeat split; try assumption. apply Nat.le_refl.
    - rewrite Fr, Dl, Dw, firstn_all. cbn [map app].
      repeat split; try assumption. apply Nat.le_refl. }
  destruct Shape as [S1 [S2 [S3 S4]]].
  split; [exact S1|]. split; [exact S2|]. split; [exact S3|]. split; [exact S4|].
  split; [|split; [|split]].
  - intros font Ec Ef Ha Hs.
    destruct R as [[k [_ [_ [_ [_ [_ [_ Why]]]]]]]
                  |[font' [pages [_ [_ [_ [_ [_ [[Es _]|[v [_ [Dl [Pr Tm]]]]]]]]]]]]].
    + exfalso. destruct Why as [[_ [C|C]]|[font' [dn [f [later [_ [Ef' [E [_ [Nf _]]]]]]]]]].
      * congruence.
      * congruence.
      * assert (font' = font) by congruence. subst font'.
        rewrite Forall_forall in Ha. destruct (Ha f) as [p Hp].
        { rewrite E. apply in_or_app. right. left. reflexivity. }
        exact (Nf p Hp).
    + exfalso. exact (Hs pages Es).
    + split; [exact Pr|]. eexists. split; [exact Dl|exact Tm].
  - intros d Hd.
    destruct R as [[k [_ [_ [_ [Dl _]]]]]|[font [pages [_ [_ [_ [_ [_ [[_ [Dl _]]|[v [_ [Dl [Pr Tm]]]]]]]]]]]]];
      rewrite Dl in Hd; try contradiction Hd.
    destruct Hd as [<-|[]]. cbn [saved_pages]. split; assumption.
  - rewrite S3.
    assert (P : exists rest, lit 0 :: before (List.length entries) ++ [lit 100]
                             = (lit 0 :: before started ++ closed) ++ rest).
    { subst closed before. cbv beta.
      destruct R as [[k [Hk [Fr [_ [Dl _]]]]]
                    |[font [pages [_ [_ [_ [Fr [_ [[_ [Dl _]]|[v [_ [Dl _]]]]]]]]]]]].
      - assert (L : started = k) by (subst started; rewrite Fr, length_firstn; lia).
        rewrite L, Dl, app_nil_r.
        exists (map (fun i => progressBefore n (Z.of_nat i)) (seq k (List.length entries - k))
                ++ [lit 100]).
        cbn [app]. f_equal. rewrite app_assoc, <- map_app, <- seq_app.
        replace (k + (List.length entries - k))%nat with (List.length entries) by lia.
        reflexivity.
      - subst started. rewrite Fr, Dl, app_nil_r. exists [lit 100]. reflexivity.
      - subst started. rewrite Fr, Dl. exists []. rewrite app_nil_r. reflexivity. }
    destruct P as [rest E]. rewrite E in Hall.
    apply StronglySorted_prefix in Hall. exact Hall.
  - intros H4. rewrite S3. subst before closed. cbv beta.
    rewrite (progress_values_firstn n started (List.length entries) S1).
    subst n. rewrite H4, lit_0.
    change (map (fun i => progressBefore (Z.of_nat 4) (Z.of_nat i)) (seq 0 4))
      with (map (fun i => progressBefore 4 (Z.of_nat i)) [0; 1; 2; 3]%nat).
    replace (map (fun i => progressBefore 4 (Z.of_nat i)) [0; 1; 2; 3]%nat)
      with [Fin 0; Fin (45 # 2); Fin 45; Fin (135 # 2)] by (vm_compute; reflexivity).
    destruct (downloads (effects tr)); [reflexivity|]. rewrite lit_100. reflexivity.
Qed.

End Progress.

(** ** Everything a run does *)

Section Effects.
Local Open Scope list_scope.
Local Open Scope Z_scope.
Variable w : World.

Lemma processFile_effects font file :
  effects (fst (run w (processFile font file))) = [].
Proof. apply processFile_observed. Qed.

Lemma forFiles_effects (font : PDFFont) (len : number) (rest : list File) :
  forall (i : Z) (pages : list PDFPage),
    effects (fst (run w (forFiles font len rest i pages)))
    = map SetProgress
        (progressReports (effects (fst (run w (forFiles font len rest i pages))))).
Proof.
  induction rest as [|file rest' IH]; intros i pages; [reflexivity|].
  cbn [forFiles act bind_async]. rewrite run_act, run_bind.
  pose proof (processFile_effects font file) as He.
  destruct (run w (processFile font file)) as [tr o] eqn:Er. cbn [fst snd] in *.
  destruct o as [page| |]; cbn [fst snd]; autorewrite with observed; rewrite ?He;
    try reflexivity.
  cbn [app progressReports flat_map map]. f_equal. apply IH.
Qed.

Ltac observe :=
  cbn [fst snd run act bind_async app]; rewrite ?app_nil_r;
  cbn [fst snd flat_map app]; rewrite ?flat_map_app;
  cbn [fst snd flat_map app]; rewrite ?flat_map_app;
  repeat match goal with
    | H : flat_map _ _ = _ |- _ => rewrite H
    end;
  cbn [fst snd flat_map app]; rewrite ?app_nil_r, <- ?app_assoc; cbn [app].

(** Everything a run over a non-empty list does, in order. *)
Lemma handleGeneratePDF_effects (entries : list File) :
  entries <> [] ->
  let n := Z.of_nat (List.length entries) in
  let tr := fst (run w (handleGeneratePDF entries)) in
  let o := snd (run w (handleGeneratePDF entries)) in
  exists started : nat,
    (started <= List.length entries)%nat /\
    filesRead tr = firstn started entries /\
    ((o = Pending /\
      effects tr
      = SetIsGenerating true :: SetProgress (lit 0) :: reportsBefore n started) \/
     (o = Finished tt /\
      effects tr
      = SetIsGenerating true :: SetProgress (lit 0) :: reportsBefore n started
        ++ [ConsoleError; SetIsGenerating false]) \/
     (o = Finished tt /\ started = List.length entries /\
      exists d,
        effects tr
        = SetIsGenerating true :: SetProgress (lit 0) :: reportsBefore n started
          ++ [SetProgress (lit 100); Download d "images.pdf" "application/pdf";
              SetIsGenerating false])).
Proof.
  intros Hne n tr o. subst tr o. unfold handleGeneratePDF.
  destruct (Z.eqb_spec (Z.of_nat (List.length entries)) 0) as [E|_].
  { destruct entries; [congruence|cbn [List.length] in E; lia]. }
  fold n. cbn [act bind_async]. rewrite !run_act, run_try_catch_finally.
  rewrite run_bind, run_create.
  destruct (pdf_creates w) eqn:Ec.
  2:{ exists 0%nat. cbn [fst snd run act bind_async app]. split; [lia|].
      split; [reflexivity|]. right. left. split; reflexivity. }
  rewrite run_bind, run_embedFont.
  destruct (pdf_fonts w "Helvetica") as [font|] eqn:Ef.
  2:{ exists 0%nat. cbn [fst snd run act bind_async app]. split; [lia|].
      split; [reflexivity|]. right. left. split; reflexivity. }
  rewrite run_bind.
  pose proof (forFiles_effects font (of_Z n) entries 0 []) as Fe.
  destruct (forFiles_run w font n entries 0 []) as [k [Hk [Fr [Pr [_ [_ [_ Oc]]]]]]].
  rewrite Pr in Fe. rewrite map_map in Fe.
  change (effects (fst (run w (forFiles font (of_Z n) entries 0 [])))
          = reportsBefore n k) in Fe.
  destruct (run w (forFiles font (of_Z n) entries 0 [])) as [ltr lo] eqn:El.
  cbn [fst snd] in *. exists k. split; [exact Hk|].
  unfold effects, filesRead in *.
  destruct lo as [ps| |].
  - destruct Oc as [-> _]. rewrite run_bind, run_save.
    destruct (pdf_saves w ps) as [v|] eqn:Es; observe; (split; [reflexivity|]).
    + right. right. split; [reflexivity|]. split; [reflexivity|].
      eexists. reflexivity.
    + right. left. split; reflexivity.
  - observe. split; [reflexivity|]. right. left. split; reflexivity.
  - observe. split; [reflexivity|]. left. split; reflexivity.
Qed.

End Effects.

(** ** The flag and the button *)

Section Flag.
Local Open Scope list_scope.
Local Open Scope Z_scope.

Lemma quiet_bind {A B : Type} (m : Async A) (f : A -> Async B) :
  quiet m -> (forall a, quiet (f a)) -> quiet (bind_async m f).
Proof.
  intros Hm Hf. induction m as [a| | |X r k IH|e k IH]; cbn [bind_async quiet] in *; auto.
  destruct e; auto.
Qed.

Lemma quiet_processFile font file : quiet (processFile font file).
Proof.
  unfold processFile, fileToDataUrl, resizeImage, addWatermark, embedPng, onload, await.
  cbn [bind_async quiet]. intros [|]; cbn [bind_async quiet]; [|exact I].
  intros [[iw ih]|]; cbn [bind_async quiet]; [|exact I].
  intros [[rw rh]|]; cbn [bind_async quiet]; [|exact I].
  intros [[pw ph]|]; cbn [bind_async quiet]; [|exact I].
  unfold layoutPage. destruct (scale _ _) as [wd ht].
  destruct (widthOfTextAtSize _ _ _); exact I.
Qed.

Lemma quiet_forFiles font len rest :
  forall i pages, quiet (forFiles font len rest i pages).
Proof.
  induction rest as [|file rest' IH]; intros i pages; [exact I|].
  cbn [forFiles act bind_async quiet].
  apply quiet_bind; [apply quiet_processFile|]. intros page. apply IH.
Qed.

Lemma closing_try (body : Async unit) :
  quiet body ->
  closing (try_catch_finally body (act ConsoleError) (act (SetIsGenerating false))).
Proof.
  induction body as [a| | |X r k IH|e k IH]; cbn [try_catch_finally quiet closing act bind_async].
  - intros _. split; reflexivity.
  - intros _. split; reflexivity.
  - intros _. exact I.
  - intros H x. apply IH, H.
  - destruct e; intros H; try contradiction; apply IH, H.
Qed.

(** After the two calls that open it, [handleGeneratePDF] is suspended in
    its [try] statement. *)
Lemma handleGeneratePDF_opens (entries : list File) :
  entries <> [] ->
  exists t : Async unit,
    handleGeneratePDF entries
    = Act (SetIsGenerating true) (Act (SetProgress (lit 0)) t) /\
    suspended t = true /\ closing t.
Proof.
  intros Hne. unfold handleGeneratePDF.
  destruct (Z.eqb_spec (Z.of_nat (List.length entries)) 0) as [E|_].
  { destruct entries; [congruence|cbn [List.length] in E; lia]. }
  eexists. split; [reflexivity|]. split; [reflexivity|].
  apply closing_try.
  apply quiet_bind; [unfold create, await; cbn [bind_async quiet]; intros [|]; exact I|].
  intros _. apply quiet_bind.
  { unfold embedFont, await. cbn [bind_async quiet]. intros [f|]; exact I. }
  intros font. apply quiet_bind; [apply quiet_forFiles|].
  intros pages. apply quiet_bind.
  { unfold save, await. cbn [bind_async quiet]. intros [v|]; exact I. }
  intros pdfBytes. cbn [act bind_async quiet]. exact I.
Qed.

Lemma advance_closing (t : Async unit) :
  forall a : App,
    closing t -> isGenerating a = true -> coherent (advance t a).
Proof.
  induction t as [u| | |X r k _|e k IH]; intros a C G; cbn [advance closing] in *;
    try contradiction.
  - unfold coherent. cbn [suspend inflight isGenerating]. repeat split; assumption.
  - unfold coherent. cbn [suspend inflight isGenerating]. repeat split; assumption.
  - destruct e; try (apply IH; [exact C|exact G]).
    destruct C as [-> ->]. reflexivity.
Qed.

Lemma step_coherent (w : World) (ev : Event) (a : App) :
  coherent a -> coherent (step w ev a).
Proof.
  intros H. destruct ev as [fs|i| |]; cbn [step]; try exact H.
  - destruct (disabled a) eqn:D; [exact H|].
    unfold disabled in D. apply orb_false_elim in D as [D _].
    assert (Hne : files a <> []) by (intros E; rewrite E in D; discriminate D).
    destruct (handleGeneratePDF_opens (files a) Hne) as [t [-> [S C]]].
    cbn [advance]. apply advance_closing; [exact C|reflexivity].
  - unfold coherent in H.
    destruct (inflight a) as [[u| | |X r k|e k]|] eqn:E;
      try (unfold coherent; rewrite E; exact H).
    destruct H as [G [_ C]]. apply advance_closing; [apply C|exact G].
Qed.

Lemma exec_coherent (w : World) (evs : list Event) :
  forall a : App, coherent a -> coherent (exec w evs a).
Proof.
  induction evs as [|ev evs IH]; intros a H; [exact H|].
  cbn [exec fold_left]. apply IH, step_coherent, H.
Qed.

(** X3.  From the idle component and through any drops, removals, clicks
    and settlements, [isGenerating] is true exactly while a run is
    suspended; the button is then disabled and a click changes nothing, so
    two runs never overlap. *)
Theorem one_run_at_a_time :
  forall (w : World) (fs : list File) (evs : list Event),
    let a := exec w evs (idle fs) in
    (isGenerating a = true <-> inflight a <> None) /\
    (inflight a <> None -> disabled a = true /\ step w Click a = a).
Proof.
  intros w fs evs a.
  assert (H : coherent a) by (apply exec_coherent; reflexivity).
  unfold coherent in H.
  assert (I1 : isGenerating a = true <-> inflight a <> None).
  { destruct (inflight a) as [t|].
    - split; [discriminate|intros _; apply H].
    - rewrite H. split; [discriminate|congruence]. }
  split; [exact I1|]. intros N. apply I1 in N.
  assert (D : disabled a = true) by (unfold disabled; rewrite N; apply orb_true_r).
  split; [exact D|]. cbn [step]. rewrite D. reflexivity.
Qed.

End Flag.

(** ** Downloads, and runs that settle *)

Section Settling.
Local Open Scope list_scope.
Variable w : World.

Lemma flags_reportsBefore n k : flags (reportsBefore n k) = [].
Proof.
  unfold reportsBefore, flags. induction (seq 0 k) as [|x l IH]; [reflexivity|exact IH].
Qed.

Lemma downloads_reportsBefore n k : downloads (reportsBefore n k) = [].
Proof.
  unfold reportsBefore, downloads. induction (seq 0 k) as [|x l IH]; [reflexivity|exact IH].
Qed.

Lemma errorsLogged_reportsBefore n k : errorsLogged (reportsBefore n k) = 0%nat.
Proof.
  unfold reportsBefore, errorsLogged. induction (seq 0 k) as [|x l IH]; [reflexivity|exact IH].
Qed.

Lemma flags_app es1 es2 : flags (es1 ++ es2) = flags es1 ++ flags es2.
Proof. apply flat_map_app. Qed.

Lemma errorsLogged_app es1 es2 :
  errorsLogged (es1 ++ es2) = (errorsLogged es1 + errorsLogged es2)%nat.
Proof. unfold errorsLogged. rewrite flat_map_app. apply length_app. Qed.

Lemma downloads_at_most_one (entries : list File) :
  (List.length (downloads (effects (fst (run w (handleGeneratePDF entries))))) <= 1)%nat.
Proof.
  destruct entries as [|f fs]; [cbn; lia|].
  destruct (handleGeneratePDF_run w (f :: fs) ltac:(discriminate))
    as [[k [_ [_ [_ [Dl _]]]]]|[font [pages [_ [_ [_ [_ [_ [[_ [Dl _]]|[v [_ [Dl _]]]]]]]]]]]];
    rewrite Dl; cbn [List.length]; lia.
Qed.

(** What a run over a non-empty list does to the flag, logs and
    downloads, by the way it ends. *)
Lemma run_tallies (entries : list File) :
  entries <> [] ->
  let es := effects (fst (run w (handleGeneratePDF entries))) in
  match snd (run w (handleGeneratePDF entries)) with
  | Threw => False
  | Pending => flags es = [true] /\ errorsLogged es = 0%nat /\ downloads es = []
  | Finished _ =>
      flags es = [true; false] /\
      (errorsLogged es + List.length (downloads es) = 1)%nat /\
      last es ConsoleError = SetIsGenerating false
  end.
Proof.
  intros Hne es. subst es.
  destruct (handleGeneratePDF_effects w entries Hne)
    as [k [_ [_ [[-> E]|[[-> E]|[-> [_ [d E]]]]]]]]; rewrite E;
    change (?a :: ?b :: ?l) with ([a; b] ++ l);
    rewrite ?flags_app, ?errorsLogged_app, ?downloads_app, ?length_app,
      ?flags_reportsBefore, ?errorsLogged_reportsBefore, ?downloads_reportsBefore.
  - repeat split; reflexivity.
  - split; [reflexivity|]. split; [reflexivity|].
    rewrite !app_assoc. change [ConsoleError; SetIsGenerating false]
      with ([ConsoleError] ++ [SetIsGenerating false]). rewrite !app_assoc.
    apply last_last.
  - split; [reflexivity|]. split; [reflexivity|].
    rewrite !app_assoc.
    change [SetProgress (lit 100); Download d "images.pdf" "application/pdf";
            SetIsGenerating false]
      with ([SetProgress (lit 100); Download d "images.pdf" "application/pdf"]
            ++ [SetIsGenerating false]).
    rewrite !app_assoc. apply last_last.
Qed.

(** X1.  Everything a run over a non-empty list does, in order:
    [setIsGenerating(true)], [setProgress(0)], one
    [setProgress((i / n) * 90)] for each entry it starts on, and then
    nothing more when it stays pending, [console.error] and
    [setIsGenerating(false)] when something threw, or [setProgress(100)],
    the download of [images.pdf] and [setIsGenerating(false)] when every
    entry has yielded its page and the document was saved.  The files read
    are the entries it started on. *)
Theorem run_effects_in_order :
  forall entries : list File,
    entries <> [] ->
    let n := Z.of_nat (List.length entries) in
    let tr := fst (run w (handleGeneratePDF entries)) in
    let o := snd (run w (handleGeneratePDF entries)) in
    exists started : nat,
      (started <= List.length entries)%nat /\
      filesRead tr = firstn started entries /\
      ((o = Pending /\
        effects tr
        = SetIsGenerating true :: SetProgress (lit 0) :: reportsBefore n started) \/
       (o = Finished tt /\
        effects tr
        = SetIsGenerating true :: SetProgress (lit 0) :: reportsBefore n started
          ++ [ConsoleError; SetIsGenerating false]) \/
       (o = Finished tt /\ started = List.length entries /\
        exists d font,
          pdf_fonts w "Helvetica" = Some font /\
          Forall2 (yields w font) entries (saved_pages d) /\
          effects tr
          = SetIsGenerating true :: SetProgress (lit 0) :: reportsBefore n started
            ++ [SetProgress (lit 100); Download d "images.pdf" "application/pdf";
                SetIsGenerating false])).
Proof.
  intros entries Hne n tr o.
  destruct (handleGeneratePDF_effects w entries Hne) as [k [Hk [Fr Shape]]].
  fold n tr o in Fr, Shape. exists k. split; [exact Hk|]. split; [exact Fr|].
  destruct Shape as [P|[T|[O [Ek [d E]]]]]; [left; exact P|right; left; exact T|].
  right. right. split; [exact O|]. split; [exact Ek|].
  assert (Hin : In d (downloads (effects tr))).
  { rewrite E.
    change (SetIsGenerating true :: SetProgress (lit 0) :: ?l)
      with ([SetIsGenerating true; SetProgress (lit 0)] ++ l).
    rewrite !downloads_app, downloads_reportsBefore. left. reflexivity. }
  destruct (downloads_of_run w entries d Hin) as [font [Ef [F _]]].
  exists d, font. split; [exact Ef|]. split; [exact F|exact E].
Qed.

(** X2.  [handleGeneratePDF] never rejects: what throws inside its [try]
    is caught.  A run that settles has logged one error or downloaded one
    document, never both, and has set the flag once and cleared it once, as
    its last action.  A run that stays pending has logged nothing,
    downloaded nothing and not cleared the flag. *)
Theorem run_logs_or_downloads :
  forall entries : list File,
    entries <> [] ->
    let es := effects (fst (run w (handleGeneratePDF entries))) in
    match snd (run w (handleGeneratePDF entries)) with
    | Threw => False
    | Pending => flags es = [true] /\ errorsLogged es = 0%nat /\ downloads es = []
    | Finished _ =>
        flags es = [true; false] /\
        (errorsLogged es + List.length (downloads es) = 1)%nat /\
        last es ConsoleError = SetIsGenerating false
    end.
Proof. intros entries Hne. apply run_tallies, Hne. Qed.

(** A click adds at most one document to what the component downloads
    or will download; no other event adds any. *)
Lemma step_downloads (ev : Event) (a : App) :
  (List.length (downloads (done (step w ev a)))
   + List.length (downloads (remaining w (inflight (step w ev a))))
   <= List.length (downloads (done a))
      + List.length (downloads (remaining w (inflight a)))
      + clicks [ev])%nat.
Proof.
  assert (Other : ev <> Click ->
            (List.length (downloads (done (step w ev a)))
             + List.length (downloads (remaining w (inflight (step w ev a))))
             <= List.length (downloads (done a))
                + List.length (downloads (remaining w (inflight a))))%nat).
  { intros N. destruct (step_conserves w ev a N) as [new [D C]].
    rewrite D, <- C, !downloads_app, !length_app. lia. }
  destruct ev as [fs|i| |].
  1, 2, 4: specialize (Other ltac:(discriminate)); lia.
  cbn [step clicks filter List.length]. destruct (disabled a); [lia|].
  destruct (advance_conserves w (handleGeneratePDF (files a)) a) as [new [D [C _]]].
  pose proof (downloads_at_most_one (files a)) as M.
  rewrite <- C, downloads_app, length_app in M.
  rewrite D, downloads_app, length_app. lia.
Qed.

Lemma exec_downloads (evs : list Event) :
  forall a : App,
    (List.length (downloads (done (exec w evs a)))
     + List.length (downloads (remaining w (inflight (exec w evs a))))
     <= List.length (downloads (done a))
        + List.length (downloads (remaining w (inflight a)))
        + clicks evs)%nat.
Proof.
  induction evs as [|ev evs IH]; intros a; [cbn [exec fold_left clicks filter List.length]; lia|].
  change (exec w (ev :: evs) a) with (exec w evs (step w ev a)).
  pose proof (IH (step w ev a)) as H. pose proof (step_downloads ev a) as S.
  assert (E : clicks (ev :: evs) = (clicks [ev] + clicks evs)%nat).
  { change (ev :: evs) with ([ev] ++ evs). unfold clicks. rewrite filter_app, length_app.
    reflexivity. }
  lia.
Qed.

(** X4.  Whatever happens, the component never downloads more documents
    than the button was clicked. *)
Theorem no_more_downloads_than_clicks :
  forall (fs : list File) (evs : list Event),
    (List.length (downloads (done (exec w evs (idle fs)))) <= clicks evs)%nat.
Proof.
  intros fs evs. pose proof (exec_downloads evs (idle fs)) as H.
  cbn [idle done inflight remaining downloads flat_map List.length] in H. lia.
Qed.

(** ** Runs that settle *)

Lemma run_await {A X : Type} (r : Request X) (k : X -> Async A) :
  run w (Await r k) = (Asked r :: fst (run w (k (answer w r))), snd (run w (k (answer w r)))).
Proof. cbn [run]. destruct (run w (k (answer w r))). reflexivity. Qed.

Lemma exec_repeat_idle (m : nat) (a : App) :
  inflight a = None -> exec w (repeat Settle m) a = a.
Proof.
  intros H. induction m as [|m IH]; [reflexivity|].
  cbn [repeat]. change (exec w (Settle :: repeat Settle m) a)
    with (exec w (repeat Settle m) (step w Settle a)).
  cbn [step]. rewrite H. exact IH.
Qed.

Lemma last_cons_default {A : Type} (l : list A) :
  forall x d d' : A, last (x :: l) d = last (x :: l) d'.
Proof.
  induction l as [|y l IH]; intros x d d'; [reflexivity|].
  change (last (x :: y :: l) d) with (last (y :: l) d).
  change (last (x :: y :: l) d') with (last (y :: l) d'). apply IH.
Qed.

Lemma settle_all (t : Async unit) :
  forall (a : App) (m : nat),
    snd (run w t) <> Pending ->
    (awaits (fst (run w t)) <= m)%nat ->
    let a' := exec w (repeat Settle m) (advance t a) in
    inflight a' = None /\
    files a' = files a /\
    done a' = done a ++ effects (fst (run w t)) /\
    isGenerating a' = last (flags (effects (fst (run w t)))) (isGenerating a).
Proof.
  induction t as [u| | |X r k IH|e k IH]; intros a m P M; cbn [advance].
  - rewrite exec_repeat_idle by reflexivity. cbn. rewrite app_nil_r. repeat split.
  - rewrite exec_repeat_idle by reflexivity. cbn. rewrite app_nil_r. repeat split.
  - exfalso. apply P. reflexivity.
  - rewrite run_await in *. cbn [fst snd] in *.
    destruct m as [|m]; [cbn in M; lia|].
    cbn [repeat].
    change (exec w (Settle :: repeat Settle m) (suspend (Some (Await r k)) a))
      with (exec w (repeat Settle m) (step w Settle (suspend (Some (Await r k)) a))).
    cbn [step suspend inflight].
    destruct (IH (answer w r) (suspend (Some (Await r k)) a) m P) as [I [F [D G]]].
    { cbn in M. unfold awaits in *. lia. }
    cbn zeta. rewrite I, F, D, G. repeat split.
  - rewrite run_act in *. cbn [fst snd] in *.
    destruct (IH (perform e a) m P M) as [I [F [D G]]].
    cbn zeta. rewrite I, F, D, G. cbn [perform files done isGenerating].
    rewrite effects_Did, <- app_assoc. repeat split.
    unfold flags at 2. cbn [flat_map]. fold (flags (effects (fst (run w k)))).
    destruct e; cbn [app]; try reflexivity.
    destruct (flags (effects (fst (run w k)))) as [|b0 l]; [reflexivity|].
    change (last (b :: b0 :: l) (isGenerating a)) with (last (b0 :: l) (isGenerating a)).
    apply last_cons_default.
Qed.

(** X5.  A run that does not stay pending is over after as many
    settlements as it awaits requests: nothing is in flight, [isGenerating]
    is false again, the button is enabled, the list of files is the one
    the run was started on, and the component has done what the run does
    alone. *)
Theorem settled_run_frees_the_button :
  forall (a : App) (m : nat),
    files a <> [] -> isGenerating a = false ->
    snd (run w (handleGeneratePDF (files a))) <> Pending ->
    (awaits (fst (run w (handleGeneratePDF (files a)))) <= m)%nat ->
    let a' := exec w (repeat Settle m) (step w Click a) in
    inflight a' = None /\ isGenerating a' = false /\ disabled a' = false /\
    files a' = files a /\
    since a a' = effects (fst (run w (handleGeneratePDF (files a)))).
Proof.
  intros a m Hne G P M.
  assert (Hen : disabled a = false).
  { unfold disabled. rewrite G, orb_false_r. destruct (files a); [congruence|reflexivity]. }
  cbn [step]. rewrite Hen.
  destruct (settle_all (handleGeneratePDF (files a)) a m P M) as [I [F [D Fl]]].
  cbn zeta. split; [exact I|].
  assert (G' : isGenerating (exec w (repeat Settle m) (advance (handleGeneratePDF (files a)) a)) = false).
  { rewrite Fl. pose proof (run_tallies (files a) Hne) as T. cbv zeta in T.
    destruct (snd (run w (handleGeneratePDF (files a)))); [|contradiction..].
    destruct T as [-> _]. reflexivity. }
  split; [exact G'|]. split.
  { unfold disabled. rewrite G', F, orb_false_r. destruct (files a); [congruence|reflexivity]. }
  split; [exact F|].
  unfold since. rewrite D, skipn_app, skipn_all, Nat.sub_diag. reflexivity.
Qed.

End Settling.

(** ** Whole sessions *)

Section Sessions.
Local Open Scope list_scope.
Variable w : World.
Variable fs : list File.

Lemma madeAtAClick_later (evs : list Event) (ev : Event) (d : PdfBytes) :
  madeAtAClick w fs evs d -> madeAtAClick w fs (evs ++ [ev]) d.
Proof.
  intros [evs1 [evs2 [font [E [Ef F]]]]]. exists evs1, (evs2 ++ [ev]), font.
  split; [|split; assumption]. rewrite E, <- app_assoc. reflexivity.
Qed.

Lemma exec_snoc (evs : list Event) (ev : Event) (a : App) :
  exec w (evs ++ [ev]) a = step w ev (exec w evs a).
Proof. unfold exec. rewrite fold_left_app. reflexivity. Qed.

Lemma session_downloads (evs : list Event) :
  forall d : PdfBytes,
    In d (downloads (done (exec w evs (idle fs)))
          ++ downloads (remaining w (inflight (exec w evs (idle fs))))) ->
    madeAtAClick w fs evs d.
Proof.
  induction evs as [|ev evs IH] using rev_ind; intros d Hin.
  - cbn in Hin. contradiction.
  - rewrite exec_snoc in Hin. set (a := exec w evs (idle fs)) in *.
    assert (Other : ev <> Click -> madeAtAClick w fs (evs ++ [ev]) d).
    { intros N. apply madeAtAClick_later, IH.
      destruct (step_conserves w ev a N) as [new [D C]].
      rewrite D, downloads_app, <- app_assoc, <- downloads_app, C in Hin. exact Hin. }
    destruct ev as [acc|i| |]; try (apply Other; discriminate).
    cbn [step] in Hin. destruct (disabled a) eqn:Dis.
    + apply madeAtAClick_later, IH, Hin.
    + destruct (advance_conserves w (handleGeneratePDF (files a)) a) as [new [D [C _]]].
      rewrite D, downloads_app, <- app_assoc, <- downloads_app, C in Hin.
      apply in_app_or in Hin as [Old|New].
      * apply madeAtAClick_later, IH. apply in_or_app. left. exact Old.
      * destruct (downloads_of_run w (files a) d New) as [font [Ef [F _]]].
        exists evs, [], font. repeat split; assumption.
Qed.

(** X22.  Through any sequence of drops, removals, clicks and
    settlements, every document the component downloads was made at one of
    the clicks: it holds one page for every file selected at the time of
    that click, in order and under its label. *)
Theorem every_download_was_made_at_a_click :
  forall (evs : list Event) (d : PdfBytes),
    In d (downloads (done (exec w evs (idle fs)))) ->
    exists (evs1 evs2 : list Event) (font : PDFFont),
      evs = evs1 ++ Click :: evs2 /\
      pdf_fonts w "Helvetica" = Some font /\
      Forall2 (yields w font) (files (exec w evs1 (idle fs))) (saved_pages d) /\
      List.length (saved_pages d) = List.length (files (exec w evs1 (idle fs))) /\
      map pageTitles (saved_pages d)
      = map (fun f => [removeFileExtension (name f)]) (files (exec w evs1 (idle fs))).
Proof.
  intros evs d Hin.
  destruct (session_downloads evs d) as [evs1 [evs2 [font [E [Ef F]]]]].
  { apply in_or_app. left. exact Hin. }
  exists evs1, evs2, font.
  destruct (yields_page w font _ _ F) as [L [T _]].
  repeat split; assumption.
Qed.

End Sessions.

(** ** Runs that never settle *)

Section Hanging.
Local Open Scope list_scope.
Variable w : World.

Lemma advance_hanging (t : Async unit) :
  forall a : App,
    closing t -> snd (run w t) = Pending -> isGenerating a = true ->
    hanging w (advance t a).
Proof.
  induction t as [u| | |X r k _|e k IH]; intros a C P G; cbn [advance closing] in *;
    try contradiction.
  - split; [exact G|]. exists Never. repeat split.
  - split; [exact G|]. exists (Await r k). repeat split; assumption.
  - rewrite run_act in P. cbn [snd] in P.
    destruct e; try (apply IH; [exact C|exact P|exact G]).
    destruct C as [_ ->]. discriminate P.
Qed.

Lemma step_hanging (ev : Event) (a : App) :
  hanging w a ->
  hanging w (step w ev a) /\
  exists new : list Effect,
    done (step w ev a) = done a ++ new /\
    new ++ remaining w (inflight (step w ev a)) = remaining w (inflight a).
Proof.
  intros H.
  assert (Same : exists new, done a = done a ++ new /\
                   new ++ remaining w (inflight a) = remaining w (inflight a))
    by (exists []; rewrite app_nil_r; split; reflexivity).
  destruct ev as [fs|i| |].
  - split; [exact H|exact Same].
  - split; [exact H|exact Same].
  - cbn [step]. unfold disabled. destruct H as [G H]. rewrite G, orb_true_r.
    split; [split; [exact G|exact H]|exact Same].
  - split; [|apply step_conserves; discriminate].
    destruct H as [G [t [E [C P]]]]. cbn [step]. rewrite E.
    destruct t as [u| | |X r k|e k]; try (split; [exact G|eexists; repeat split; eassumption]).
    rewrite run_await in P. cbn [snd] in P.
    apply advance_hanging; [apply C|exact P|exact G].
Qed.

Lemma exec_hanging (evs : list Event) :
  forall a : App,
    hanging w a ->
    hanging w (exec w evs a) /\
    exists new : list Effect,
      done (exec w evs a) = done a ++ new /\
      new ++ remaining w (inflight (exec w evs a)) = remaining w (inflight a).
Proof.
  induction evs as [|ev evs IH]; intros a H.
  - split; [exact H|]. exists []. rewrite app_nil_r. split; reflexivity.
  - change (exec w (ev :: evs) a) with (exec w evs (step w ev a)).
    destruct (step_hanging ev a H) as [H1 [new1 [D1 C1]]].
    destruct (IH (step w ev a) H1) as [H2 [new2 [D2 C2]]].
    split; [exact H2|]. exists (new1 ++ new2).
    rewrite D2, D1, <- !app_assoc, C2, C1. split; reflexivity.
Qed.

Lemma quiet_prefix (es new rest : list Effect) :
  new ++ rest = es ->
  downloads es = [] -> errorsLogged es = 0%nat ->
  downloads new = [] /\ errorsLogged new = 0%nat.
Proof.
  intros <- D E. rewrite downloads_app in D. rewrite errorsLogged_app in E.
  apply app_eq_nil in D as [D _]. split; [exact D|lia].
Qed.

(** X6.  While a run that stays pending is in flight the component is
    stuck: whatever is dropped, removed, clicked or settled afterwards,
    [isGenerating] stays true, the button stays disabled, nothing is
    downloaded and no error is logged. *)
Theorem pending_run_blocks_the_component :
  forall (a : App) (evs : list Event),
    isGenerating a = false ->
    snd (run w (handleGeneratePDF (files a))) = Pending ->
    let a' := exec w evs (step w Click a) in
    isGenerating a' = true /\ disabled a' = true /\ inflight a' <> None /\
    downloads (since a a') = [] /\ errorsLogged (since a a') = 0%nat.
Proof.
  intros a evs G P.
  assert (Hne : files a <> []).
  { intros E. rewrite E in P. discriminate P. }
  assert (Hen : disabled a = false).
  { unfold disabled. rewrite G, orb_false_r. destruct (files a); [congruence|reflexivity]. }
  pose proof (run_tallies w (files a) Hne) as T. cbv zeta in T. rewrite P in T.
  destruct T as [_ [El Dl]].
  destruct (advance_conserves w (handleGeneratePDF (files a)) a) as [new1 [D1 [C1 _]]].
  assert (H1 : hanging w (step w Click a)).
  { cbn [step]. rewrite Hen.
    destruct (handleGeneratePDF_opens (files a) Hne) as [t [E [_ C]]].
    rewrite E in *. cbn [advance]. rewrite !run_act in P. cbn [snd] in P.
    apply advance_hanging; [exact C|exact P|reflexivity]. }
  destruct (exec_hanging evs (step w Click a) H1) as [[G2 [t [E2 _]]] [new2 [D2 C2]]].
  cbn zeta. split; [exact G2|]. split; [unfold disabled; rewrite G2; apply orb_true_r|].
  split; [congruence|].
  assert (Es : step w Click a = advance (handleGeneratePDF (files a)) a)
    by (cbn [step]; rewrite Hen; reflexivity).
  assert (S : since a (exec w evs (step w Click a)) = new1 ++ new2).
  { unfold since. rewrite D2, Es, D1, <- app_assoc, skipn_app, skipn_all, Nat.sub_diag.
    reflexivity. }
  rewrite S.
  apply (quiet_prefix (effects (fst (run w (handleGeneratePDF (files a)))))
           (new1 ++ new2)
           (remaining w (inflight (exec w evs (step w Click a))))); try assumption.
  rewrite <- app_assoc, C2, Es. exact C1.
Qed.

(** ** Images that do not load *)

Lemma processFile_undecodable font file :
  reads w file = true -> decodes w file = None ->
  snd (run w (processFile font file)) = Pending.
Proof.
  intros R D.
  unfold processFile, fileToDataUrl, resizeImage, addWatermark, embedPng, onload, await.
  cbn [bind_async run answer image_size]. rewrite R. cbn [bind_async run answer image_size].
  rewrite D. reflexivity.
Qed.

Lemma forFiles_pending font len (before : list File) :
  forall (f : File) (later : list File) (i : Z) (pages : list PDFPage),
    Forall (fun g => exists p, yields w font g p) before ->
    snd (run w (processFile font f)) = Pending ->
    snd (run w (forFiles font len (before ++ f :: later) i pages)) = Pending.
Proof.
  induction before as [|g before IH]; intros f later i pages Hb Hf.
  - cbn [app forFiles act bind_async]. rewrite run_act, run_bind. cbn [snd].
    destruct (run w (processFile font f)) as [tr o]. cbn [snd] in Hf. subst o. reflexivity.
  - inversion Hb as [|? ? [p Hp] Hb']; subst.
    cbn [app forFiles act bind_async]. rewrite run_act, run_bind. cbn [snd].
    unfold yields in Hp.
    destruct (run w (processFile font g)) as [tr o]. cbn [snd] in Hp. subst o.
    cbn [snd]. apply IH; assumption.
Qed.

Lemma handleGeneratePDF_pending font (before later : list File) (f : File) :
  pdf_creates w = true -> pdf_fonts w "Helvetica" = Some font ->
  Forall (fun g => exists p, yields w font g p) before ->
  snd (run w (processFile font f)) = Pending ->
  snd (run w (handleGeneratePDF (before ++ f :: later))) = Pending.
Proof.
  intros Ec Ef Hb Hf. unfold handleGeneratePDF.
  destruct (Z.eqb_spec (Z.of_nat (List.length (before ++ f :: later))) 0) as [E|_].
  { rewrite length_app in E. cbn [List.length] in E. lia. }
  cbn [act bind_async]. rewrite !run_act, run_try_catch_finally. cbn [snd].
  rewrite run_bind, run_create, Ec, run_bind, run_embedFont, Ef, run_bind.
  cbn [fst snd].
  pose proof (forFiles_pending font (of_Z (Z.of_nat (List.length (before ++ f :: later))))
                before f later 0 [] Hb Hf) as P.
  destruct (run w (forFiles font _ (before ++ f :: later) 0 [])) as [tr o].
  cbn [snd] in P. subst o. reflexivity.
Qed.

(** X7.  A file that is read but whose data URL does not load as an image
    leaves the run pending: the promise of [resizeImage] has no way to
    reject, so neither [catch] nor [finally] is reached.  No error is
    logged, nothing is downloaded, and the flag set at the start is not
    cleared. *)
Theorem undecodable_file_hangs_the_run :
  forall (font : PDFFont) (before later : list File) (f : File),
    pdf_creates w = true -> pdf_fonts w "Helvetica" = Some font ->
    Forall (fun g => exists p, yields w font g p) before ->
    reads w f = true -> decodes w f = None ->
    let r := run w (handleGeneratePDF (before ++ f :: later)) in
    snd r = Pending /\
    flags (effects (fst r)) = [true] /\
    errorsLogged (effects (fst r)) = 0%nat /\
    downloads (effects (fst r)) = [].
Proof.
  intros font before later f Ec Ef Hb R D r. subst r.
  assert (P : snd (run w (handleGeneratePDF (before ++ f :: later))) = Pending).
  { apply (handleGeneratePDF_pending font); try assumption.
    apply processFile_undecodable; assumption. }
  split; [exact P|].
  pose proof (run_tallies w (before ++ f :: later)) as T. cbv zeta in T.
  rewrite P in T. apply T. destruct before; discriminate.
Qed.

End Hanging.

(** ** From the image to the page *)

Section Pages.
Local Open Scope list_scope.
Local Open Scope Z_scope.

(** The canvas of a scaled image, against the exact quotients. *)
Lemma resizedSize_scaled (w h : Z) :
  1 <= w < 2 ^ 32 -> 1 <= h < 2 ^ 32 -> 1600 < w \/ 1200 < h ->
  let e := Z.min (1600 * h) (1200 * w) in
  e / h - 1 <= fst (resizedSize w h) <= e / h /\
  e / w - 1 <= snd (resizedSize w h) <= e / w /\
  0 <= fst (resizedSize w h) /\ 0 <= snd (resizedSize w h) /\
  e / h <= 1600 /\ e / w <= 1200.
Proof.
  intros Hw Hh Big e.
  assert (T : (1600 <? w) || (1200 <? h) = true).
  { destruct Big as [B|B]; [apply Z.ltb_lt in B; rewrite B; reflexivity|].
    apply Z.ltb_lt in B. rewrite B. apply orb_true_r. }
  unfold resizedSize. rewrite resizeDims_test, T by assumption.
  destruct (rounded_ratio w h Hw Hh) as [r [Er [Rlo Rhi]]].
  change (lit 1600) with (lit (inject_Z 1600)) in Er.
  change (lit 1200) with (lit (inject_Z 1200)) in Er.
  rewrite !lit_Z, !of_Z_fin in Er by lia.
  change (Fin (inject_Z 1600)) with (Fin 1600) in Er.
  change (Fin (inject_Z 1200)) with (Fin 1200) in Er.
  rewrite Er. cbn [num_mul fst snd].
  destruct (exact_scaled w h ltac:(lia) ltac:(lia)) as [Ew Eh]. fold e in Ew, Eh.
  assert (Hrho : (pow2 (-22) <= exactRatio w h)%Q).
  { unfold exactRatio.
    destruct (side_ratio_bounds 1600 w ltac:(lia) Hw) as [_ [_ A]].
    destruct (side_ratio_bounds 1200 h ltac:(lia) Hh) as [_ [_ B]].
    apply Q.min_glb; assumption. }
  destruct (scaled_side w h e (exactRatio w h) r Hw Hh ltac:(lia) Ew Hrho Rlo Rhi)
    as [Fw [Pw [Lw Uw]]].
  destruct (scaled_side h w e (exactRatio w h) r Hh Hw ltac:(lia) Eh Hrho Rlo Rhi)
    as [Fh [Ph [Lh Uh]]].
  rewrite Fw, Fh.
  assert (Bw : e / h <= 1600) by (apply Z.div_le_upper_bound; lia).
  assert (Bh : e / w <= 1200) by (apply Z.div_le_upper_bound; lia).
  assert (Nw : 0 <= Qfloor (flq (inject_Z w * r)))
    by (rewrite <- (Qfloor_Z 0); apply Qfloor_resp_le, Pw).
  assert (Nh : 0 <= Qfloor (flq (inject_Z h * r)))
    by (rewrite <- (Qfloor_Z 0); apply Qfloor_resp_le, Ph).
  rewrite !canvas_dimension_small;
    rewrite !to_unsigned_long_floor by (try assumption; lia); lia.
Qed.

Lemma resizedSize_small (w h : Z) :
  1 <= w <= 1600 -> 1 <= h <= 1200 -> resizedSize w h = (w, h).
Proof.
  intros Hw Hh. unfold resizedSize. rewrite resizeDims_test by lia.
  destruct (Z.ltb_spec 1600 w); [lia|]. destruct (Z.ltb_spec 1200 h); [lia|].
  cbn [orb]. rewrite !canvas_dimension_small; rewrite !to_unsigned_long_Z by lia; try lia.
  reflexivity.
Qed.

Lemma resizedSize_range (w h : Z) :
  1 <= w < 2 ^ 32 -> 1 <= h < 2 ^ 32 ->
  0 <= fst (resizedSize w h) <= 1600 /\ 0 <= snd (resizedSize w h) <= 1200.
Proof.
  intros Hw Hh.
  destruct (Z.le_gt_cases w 1600) as [Sw|Bw]; [destruct (Z.le_gt_cases h 1200) as [Sh|Bh]|].
  - rewrite resizedSize_small by lia. cbn [fst snd]. lia.
  - pose proof (resizedSize_scaled w h Hw Hh ltac:(lia)) as S. cbv zeta in S. lia.
  - pose proof (resizedSize_scaled w h Hw Hh ltac:(lia)) as S. cbv zeta in S. lia.
Qed.

Lemma sliver_has_no_pixels :
  forall w h : Z,
    1 <= w < 2 ^ 32 -> 1 <= h < 2 ^ 32 ->
    (1200 * w < h -> fst (resizedSize w h) = 0) /\
    (1600 * h < w -> snd (resizedSize w h) = 0).
Proof.
  intros w h Hw Hh. split; intros S.
  - pose proof (resizedSize_scaled w h Hw Hh ltac:(lia)) as B. cbv zeta in B.
    rewrite Z.min_r in B by lia.
    rewrite (Z.div_small (1200 * w) h) in B by lia. lia.
  - pose proof (resizedSize_scaled w h Hw Hh ltac:(lia)) as B. cbv zeta in B.
    rewrite Z.min_l in B by lia.
    rewrite (Z.div_small (1600 * h) w) in B by lia. lia.
Qed.

Lemma image_size_resized (w : World) (f : File) (iw ih : Z) :
  image_size w (resizedUrl f iw ih)
  = if (0 <? fst (resizedSize iw ih)) && (0 <? snd (resizedSize iw ih))
    then Some (resizedSize iw ih) else None.
Proof.
  unfold resizedUrl.
  destruct (resizeCanvas_size {| src := FileUrl f; width := iw; height := ih |}) as [ops E].
  rewrite E. cbn [image_size width height].
  destruct (resizedSize iw ih) as [rw rh]. reflexivity.
Qed.

Lemma watermarkCanvas_size (img : Image) (T : string) :
  0 <= width img <= 2147483647 -> 0 <= height img <= 2147483647 ->
  exists ops, watermarkCanvas img T = MkCanvas (width img) (height img) ops.
Proof.
  intros Hw Hh. unfold watermarkCanvas. eexists.
  rewrite !of_Z_fin by lia.
  rewrite !canvas_dimension_small; rewrite !to_unsigned_long_Z by lia; try lia.
  reflexivity.
Qed.

Lemma image_size_watermarked (w : World) (f : File) (iw ih : Z) :
  1 <= iw < 2 ^ 32 -> 1 <= ih < 2 ^ 32 ->
  image_size w (watermarkedUrl f iw ih)
  = if (0 <? fst (resizedSize iw ih)) && (0 <? snd (resizedSize iw ih))
    then Some (resizedSize iw ih) else None.
Proof.
  intros Hw Hh. unfold watermarkedUrl.
  destruct (resizedSize_range iw ih Hw Hh) as [Rw Rh].
  match goal with |- context [watermarkCanvas ?i ?T] =>
    destruct (watermarkCanvas_size i T) as [ops E] end.
  1, 2: cbn [width height]; lia.
  rewrite E. cbn [image_size width height].
  destruct (resizedSize iw ih) as [rw rh]. reflexivity.
Qed.

(** What one turn of the loop comes to, for a file that is read and holds
    an image. *)
Lemma processFile_loaded (w : World) font file (iw ih : Z) :
  1 <= iw < 2 ^ 32 -> 1 <= ih < 2 ^ 32 ->
  reads w file = true -> decodes w file = Some (iw, ih) ->
  snd (run w (processFile font file))
  = if (0 <? fst (resizedSize iw ih)) && (0 <? snd (resizedSize iw ih))
    then
      if pdf_embeds w (watermarkedUrl file iw ih)
      then snd (run w (layoutPage font
                         {| png := watermarkedUrl file iw ih;
                            png_width := fst (resizedSize iw ih);
                            png_height := snd (resizedSize iw ih) |} file))
      else Threw
    else Pending.
Proof.
  intros Hw Hh R D.
  unfold processFile, fileToDataUrl, resizeImage, addWatermark, embedPng, onload, await.
  cbn [bind_async run answer]. rewrite R. cbn [bind_async run answer].
  change (image_size w (FileUrl file)) with (decodes w file). rewrite D.
  cbn [bind_async run answer snd].
  fold (resizedUrl file iw ih). rewrite image_size_resized.
  destruct ((0 <? fst (resizedSize iw ih)) && (0 <? snd (resizedSize iw ih))) eqn:Pos;
    cbn [bind_async run answer snd]; [|reflexivity].
  destruct (resizedSize iw ih) as [rw rh] eqn:Ers. cbn [fst snd] in *.
  cbn [bind_async run answer snd].
  assert (Ew : watermarkedUrl file iw ih
               = CanvasUrl (watermarkCanvas {| src := resizedUrl file iw ih; width := rw; height := rh |}
                              "Cleide Fotos") "image/png" (lit 0.8)).
  { unfold watermarkedUrl. rewrite Ers. reflexivity. }
  rewrite <- Ew.
  destruct (pdf_embeds w (watermarkedUrl file iw ih)); cbn [bind_async run answer snd];
    [|reflexivity].
  rewrite image_size_watermarked, Ers by assumption. cbn [fst snd]. rewrite Pos.
  cbn [bind_async run answer snd].
  destruct (run w (layoutPage _ _ _)). reflexivity.
Qed.

(** X8.  An image more than 1200 times as high as it is wide, or more than
    1600 times as wide as it is high, is resized to a canvas without
    pixels; the export of that canvas is not an image, and the turn of the
    loop for that file never completes. *)
Theorem sliver_hangs_its_entry :
  forall (w : World) (font : PDFFont) (f : File) (iw ih : Z),
    reads w f = true -> decodes w f = Some (iw, ih) ->
    1 <= iw < 2 ^ 32 -> 1 <= ih < 2 ^ 32 ->
    1200 * iw < ih \/ 1600 * ih < iw ->
    (fst (resizedSize iw ih) = 0 \/ snd (resizedSize iw ih) = 0) /\
    image_size w (resizedUrl f iw ih) = None /\
    snd (run w (processFile font f)) = Pending.
Proof.
  intros w font f iw ih R D Hw Hh S.
  destruct (sliver_has_no_pixels iw ih Hw Hh) as [A B].
  assert (Z0 : fst (resizedSize iw ih) = 0 \/ snd (resizedSize iw ih) = 0)
    by (destruct S as [S|S]; [left; apply A, S|right; apply B, S]).
  assert (N : (0 <? fst (resizedSize iw ih)) && (0 <? snd (resizedSize iw ih)) = false).
  { destruct Z0 as [-> | ->]; [reflexivity|apply andb_false_r]. }
  split; [exact Z0|]. split.
  - rewrite image_size_resized, N. reflexivity.
  - rewrite (processFile_loaded w font f iw ih Hw Hh R D), N. reflexivity.
Qed.

(** X10.  The page of an entry whose image measures [iw] by [ih]: the
    resized size [rw] by [rh] has no empty side and is within 1600 x 1200;
    the page measures [rw + 100] by [rh + 150], hence at most 1700 x 1350;
    it shows one image, the PNG of the watermarked canvas, at [(50, 100)]
    with the size [rw] by [rh]. *)
Theorem page_of_an_entry :
  forall (w : World) (font : PDFFont) (f : File) (p : PDFPage) (iw ih : Z),
    yields w font f p -> decodes w f = Some (iw, ih) ->
    1 <= iw < 2 ^ 32 -> 1 <= ih < 2 ^ 32 ->
    let rw := fst (resizedSize iw ih) in
    let rh := snd (resizedSize iw ih) in
    1 <= rw <= 1600 /\ 1 <= rh <= 1200 /\
    page_width p = Fin (inject_Z (rw + 100)) /\
    page_height p = Fin (inject_Z (rh + 150)) /\
    page_images p
    = [{| drawn_image := {| png := watermarkedUrl f iw ih; png_width := rw; png_height := rh |};
          image_x := Fin 50; image_y := Fin 100;
          image_width := Fin (inject_Z rw); image_height := Fin (inject_Z rh) |}].
Proof.
  intros w font f p iw ih Y D Hw Hh rw rh. unfold yields in Y.
  assert (R : reads w f = true).
  { destruct (reads w f) eqn:R; [reflexivity|]. exfalso. revert Y.
    unfold processFile, fileToDataUrl, await. cbn [bind_async run answer]. rewrite R.
    cbn. discriminate. }
  rewrite (processFile_loaded w font f iw ih Hw Hh R D) in Y.
  destruct (resizedSize_range iw ih Hw Hh) as [Rw Rh]. fold rw rh in Rw, Rh, Y.
  destruct (Z.ltb_spec 0 rw) as [Pw|]; [|discriminate Y].
  destruct (Z.ltb_spec 0 rh) as [Ph|]; [|discriminate Y]. cbn [andb] in Y.
  destruct (pdf_embeds w (watermarkedUrl f iw ih)); [|discriminate Y].
  split; [lia|]. split; [lia|].
  destruct (widthOfTextAtSize font (removeFileExtension (name f)) (Fin 28)) as [tw|] eqn:Em.
  - rewrite (layoutPage_measured font _ f tw) in Y by (cbn [png_width png_height]; try lia; exact Em).
    cbn [run snd] in Y. injection Y as <-. cbn [png_width png_height].
    repeat split; reflexivity.
  - rewrite layoutPage_unmeasured in Y by exact Em. discriminate Y.
Qed.

End Pages.

(** ** Failures that are reported *)

Section Reported.
Local Open Scope list_scope.
Variable w : World.

Lemma processFile_unreadable font file :
  reads w file = false -> snd (run w (processFile font file)) = Threw.
Proof.
  intros R. unfold processFile, fileToDataUrl, await.
  cbn [bind_async run answer]. rewrite R. reflexivity.
Qed.

Lemma forFiles_threw font len (before : list File) :
  forall (f : File) (later : list File) (i : Z) (pages : list PDFPage),
    Forall (fun g => exists p, yields w font g p) before ->
    snd (run w (processFile font f)) = Threw ->
    snd (run w (forFiles font len (before ++ f :: later) i pages)) = Threw.
Proof.
  induction before as [|g before IH]; intros f later i pages Hb Hf.
  - cbn [app forFiles act bind_async]. rewrite run_act, run_bind. cbn [snd].
    destruct (run w (processFile font f)) as [tr o]. cbn [snd] in Hf. subst o. reflexivity.
  - inversion Hb as [|? ? [p Hp] Hb']; subst.
    cbn [app forFiles act bind_async]. rewrite run_act, run_bind. cbn [snd].
    unfold yields in Hp.
    destruct (run w (processFile font g)) as [tr o]. cbn [snd] in Hp. subst o.
    cbn [snd]. apply IH; assumption.
Qed.

(** X20.  When the turn of an entry throws, as it does for a file that
    cannot be read, the run settles: the error is logged once, nothing is
    downloaded, and the flag is cleared as the last action, so the button
    is enabled again. *)
Theorem thrown_failure_is_logged_once :
  forall (font : PDFFont) (before later : list File) (f : File),
    pdf_creates w = true -> pdf_fonts w "Helvetica" = Some font ->
    Forall (fun g => exists p, yields w font g p) before ->
    reads w f = false \/ snd (run w (processFile font f)) = Threw ->
    let r := run w (handleGeneratePDF (before ++ f :: later)) in
    snd r = Finished tt /\
    errorsLogged (effects (fst r)) = 1%nat /\
    downloads (effects (fst r)) = [] /\
    flags (effects (fst r)) = [true; false] /\
    last (effects (fst r)) ConsoleError = SetIsGenerating false.
Proof.
  intros font before later f Ec Ef Hb Hc r. subst r.
  assert (Hf : snd (run w (processFile font f)) = Threw)
    by (destruct Hc as [R|T]; [apply processFile_unreadable, R|exact T]).
  assert (Hne : before ++ f :: later <> []) by (destruct before; discriminate).
  assert (Nf : forall p, ~ yields w font f p).
  { intros p Y. unfold yields in Y. rewrite Hf in Y. discriminate Y. }
  assert (Dl : downloads (effects (fst (run w (handleGeneratePDF (before ++ f :: later))))) = []).
  { destruct (handleGeneratePDF_run w (before ++ f :: later) Hne)
      as [[k [_ [_ [_ [Dl _]]]]]|[font' [pages [_ [Ef' [F _]]]]]]; [exact Dl|].
    exfalso. assert (font' = font) by congruence. subst font'.
    destruct (yields_member w font _ pages f F) as [p Hp].
    - apply in_or_app. right. left. reflexivity.
    - exact (Nf p Hp). }
  assert (O : snd (run w (handleGeneratePDF (before ++ f :: later))) = Finished tt).
  { unfold handleGeneratePDF.
    destruct (Z.eqb_spec (Z.of_nat (List.length (before ++ f :: later))) 0) as [E|_].
    { rewrite length_app in E. cbn [List.length] in E. lia. }
    cbn [act bind_async]. rewrite !run_act, run_try_catch_finally. cbn [snd].
    rewrite run_bind, run_create, Ec, run_bind, run_embedFont, Ef, run_bind.
    cbn [fst snd].
    pose proof (forFiles_threw font (of_Z (Z.of_nat (List.length (before ++ f :: later))))
                  before f later 0 [] Hb Hf) as P.
    destruct (run w (forFiles font _ (before ++ f :: later) 0 [])) as [tr o].
    cbn [snd] in P. subst o. reflexivity. }
  pose proof (run_tallies w (before ++ f :: later) Hne) as T. cbv zeta in T.
  rewrite O in T. destruct T as [Fl [Sum La]]. rewrite Dl in Sum. cbn [List.length] in Sum.
  split; [exact O|]. split; [lia|]. split; [exact Dl|]. split; [exact Fl|exact La].
Qed.

End Reported.

(** ** Failures that are not reported *)

Section Aborting.
Local Open Scope list_scope.

Lemma click_on_a_pending_run (w : World) (a : App) :
  isGenerating a = false ->
  snd (run w (handleGeneratePDF (files a))) = Pending ->
  hanging w (step w Click a).
Proof.
  intros G P.
  assert (Hne : files a <> []).
  { intros E. rewrite E in P. discriminate P. }
  assert (Hen : disabled a = false).
  { unfold disabled. rewrite G, orb_false_r. destruct (files a); [congruence|reflexivity]. }
  cbn [step]. rewrite Hen.
  destruct (handleGeneratePDF_opens (files a) Hne) as [t [E [_ C]]].
  rewrite E in *. cbn [advance]. rewrite !run_act in P. cbn [snd] in P.
  apply advance_hanging; [exact C|exact P|reflexivity].
Qed.

(** C4.  Three files are selected and the second one is read but does not
    load as an image.  The run started by the click does not abort on it:
    it reads the first two files, reports 0, 0 and 30, and stays pending
    at the [await] of [resizeImage], whose promise has no way to reject.
    Neither [catch] nor [finally] is reached: no error is logged,
    [isGenerating] is set and never cleared, and whatever is dropped,
    removed, clicked or settled afterwards the button stays disabled.  The
    third file is not touched, no document is written and nothing is
    downloaded.  When the same file cannot be read instead,
    [fileToDataUrl] rejects and the run does abort: the error is logged
    once, the flag is cleared, and again nothing is downloaded. *)
Theorem C4_image_that_does_not_load_never_aborts :
  let r := run sampleWorld (handleGeneratePDF filesWithBroken) in
  let r' := run lockedWorld (handleGeneratePDF filesWithBroken) in
  (reads sampleWorld (brokenFile "b.png") = true /\
   decodes sampleWorld (brokenFile "b.png") = None) /\
  snd r = Pending /\
  filesRead (fst r) = [sampleFile "a.png"; brokenFile "b.png"] /\
  effects (fst r)
  = [SetIsGenerating true; SetProgress (Fin 0); SetProgress (Fin 0); SetProgress (Fin 30)] /\
  flags (effects (fst r)) = [true] /\
  errorsLogged (effects (fst r)) = 0%nat /\
  documentsWritten (fst r) = [] /\
  downloads (effects (fst r)) = [] /\
  (forall evs : list Event,
      let a' := exec sampleWorld evs (step sampleWorld Click (idle filesWithBroken)) in
      isGenerating a' = true /\ disabled a' = true /\ inflight a' <> None) /\
  (reads lockedWorld (brokenFile "b.png") = false /\
   snd r' = Finished tt /\
   filesRead (fst r') = [sampleFile "a.png"; brokenFile "b.png"] /\
   flags (effects (fst r')) = [true; false] /\
   errorsLogged (effects (fst r')) = 1%nat /\
   documentsWritten (fst r') = [] /\
   downloads (effects (fst r')) = []).
Proof.
  cbv zeta.
  assert (P : snd (run sampleWorld (handleGeneratePDF filesWithBroken)) = Pending)
    by (vm_compute; reflexivity).
  split; [split; reflexivity|]. split; [exact P|].
  split; [vm_compute; reflexivity|]. split; [vm_compute; reflexivity|].
  split; [vm_compute; reflexivity|]. split; [vm_compute; reflexivity|].
  split; [vm_compute; reflexivity|]. split; [vm_compute; reflexivity|].
  split; [|repeat split; vm_compute; reflexivity].
  intros evs.
  assert (H : hanging sampleWorld (step sampleWorld Click (idle filesWithBroken)))
    by (apply click_on_a_pending_run; [reflexivity|exact P]).
  destruct (exec_hanging sampleWorld evs _ H) as [[G [t [E _]]] _].
  split; [exact G|]. split; [unfold disabled; rewrite G; apply orb_true_r|].
  rewrite E. discriminate.
Qed.

End Aborting.

(** ** Files that are converted *)

Section Converted.
Local Open Scope list_scope.
Local Open Scope Z_scope.
Variable w : World.

Lemma resizedSize_positive (iw ih : Z) :
  1 <= iw < 2 ^ 32 -> 1 <= ih < 2 ^ 32 ->
  ih <= 600 * iw -> iw <= 800 * ih ->
  1 <= fst (resizedSize iw ih) /\ 1 <= snd (resizedSize iw ih).
Proof.
  intros Hw Hh Th Tw.
  destruct (Z.le_gt_cases iw 1600) as [Sw|Bw]; [destruct (Z.le_gt_cases ih 1200) as [Sh|Bh]|].
  - rewrite resizedSize_small by lia. cbn [fst snd]. lia.
  - pose proof (resizedSize_scaled iw ih Hw Hh ltac:(lia)) as S. cbv zeta in S.
    assert (2 <= Z.min (1600 * ih) (1200 * iw) / ih) by (apply Z.div_le_lower_bound; lia).
    assert (2 <= Z.min (1600 * ih) (1200 * iw) / iw) by (apply Z.div_le_lower_bound; lia).
    lia.
  - pose proof (resizedSize_scaled iw ih Hw Hh ltac:(lia)) as S. cbv zeta in S.
    assert (2 <= Z.min (1600 * ih) (1200 * iw) / ih) by (apply Z.div_le_lower_bound; lia).
    assert (2 <= Z.min (1600 * ih) (1200 * iw) / iw) by (apply Z.div_le_lower_bound; lia).
    lia.
Qed.

Lemma convertible_yields font f :
  convertible w font f -> exists p, yields w font f p.
Proof.
  intros [R [M [iw [ih [D [Hw [Hh [Th [Tw E]]]]]]]]].
  destruct (resizedSize_positive iw ih Hw Hh Th Tw) as [Pw Ph].
  destruct (resizedSize_range iw ih Hw Hh) as [Rw Rh].
  unfold yields. rewrite (processFile_loaded w font f iw ih Hw Hh R D), E.
  destruct (Z.ltb_spec 0 (fst (resizedSize iw ih))); [|lia].
  destruct (Z.ltb_spec 0 (snd (resizedSize iw ih))); [|lia]. cbn [andb].
  destruct (widthOfTextAtSize font (removeFileExtension (name f)) (Fin 28)) as [tw|] eqn:Em;
    [|congruence].
  rewrite (layoutPage_measured font _ f tw) by (cbn [png_width png_height]; try lia; exact Em).
  eexists. reflexivity.
Qed.

(** X21.  When the document and the font can be created, every file is
    read, holds an image at most 600 times as high as it is wide and at
    most 800 times as wide as it is high, is embedded, and has a label the
    font can measure, and the document can be saved, then the run settles
    with one download holding a page for every entry; every file is read
    and no error is logged. *)
Theorem good_files_are_converted :
  forall (font : PDFFont) (entries : list File),
    entries <> [] ->
    pdf_creates w = true -> pdf_fonts w "Helvetica" = Some font ->
    (forall f, In f entries -> convertible w font f) ->
    (forall pages, pdf_saves w pages <> None) ->
    let r := run w (handleGeneratePDF entries) in
    snd r = Finished tt /\
    errorsLogged (effects (fst r)) = 0%nat /\
    filesRead (fst r) = entries /\
    exists d, downloads (effects (fst r)) = [d] /\
              List.length (saved_pages d) = List.length entries.
Proof.
  intros font entries Hne Ec Ef Good Saves r. subst r.
  destruct (handleGeneratePDF_run w entries Hne)
    as [[k [_ [_ [_ [_ [_ [_ Why]]]]]]]|[font' [pages [_ [Ef' [F [Fr [_ Sv]]]]]]]].
  - exfalso. destruct Why as [[_ [C|C]]|[font' [dn [f [later [_ [Ef' [E [_ [Nf _]]]]]]]]]];
      try congruence.
    assert (font' = font) by congruence. subst font'.
    destruct (convertible_yields font f) as [p Hp].
    + apply Good. rewrite E. apply in_or_app. right. left. reflexivity.
    + exact (Nf p Hp).
  - destruct Sv as [[Es _]|[v [_ [Dl _]]]]; [exfalso; exact (Saves pages Es)|].
    assert (font' = font) by congruence. subst font'.
    destruct (yields_page w font entries pages F) as [L _].
    pose proof (run_tallies w entries Hne) as T. cbv zeta in T.
    destruct (snd (run w (handleGeneratePDF entries))) as [[]| |] eqn:O.
    + destruct T as [_ [Sum _]]. rewrite Dl in Sum. cbn [List.length] in Sum.
      split; [reflexivity|]. split; [lia|]. split; [exact Fr|].
      eexists. split; [exact Dl|exact L].
    + contradiction.
    + destruct T as [_ [_ Dn]]. rewrite Dl in Dn. discriminate Dn.
Qed.

End Converted.

(** ** The canvas of the watermark *)

Section WatermarkCanvas.
Local Open Scope Z_scope.
Local Open Scope string_scope.

Lemma half_of_Z (z : Z) :
  0 <= z < 2 ^ 32 ->
  exists x : Q, (of_Z z / lit 2)%js = Fin x /\ (x == inject_Z z / 2)%Q.
Proof.
  intros Hz. rewrite of_Z_fin by lia. change (lit 2) with (lit (inject_Z 2)).
  rewrite lit_Z by lia. cbn [num_div]. change (Qeq_bool (inject_Z 2) 0) with false.
  cbv iota.
  assert (E : (flq (inject_Z z / inject_Z 2) == inject_Z z / inject_Z 2)%Q).
  { apply (flq_exact _ z (-1)); [lia|unfold emin; lia|].
    change (pow2 (-1)) with (1 # 2)%Q. field. }
  exists (flq (inject_Z z / inject_Z 2)). split; [|exact E].
  assert (N : (0 <= inject_Z z)%Q) by (apply inject_Z_nonneg; lia).
  assert (U : (inject_Z z <= inject_Z (2 ^ 32))%Q) by (rewrite <- Zle_Qle; lia).
  assert (H : (inject_Z z / inject_Z 2 == inject_Z z * (1 # 2))%Q) by field.
  apply (fl_of_bounded _ (2 ^ 32)); [lia| |]; rewrite E, H; lra.
Qed.

(** X11.  The canvas of [addWatermark] has the pixel size of the image it
    is given; the image is drawn first, unscaled; the text is drawn second,
    at exactly half the width and half the height, in bold Arial of
    [floor(8 W / (5 len))] pixels, filled with [rgba(200, 200, 200, 0.5)],
    centred on that point. *)
Theorem watermark_is_centred :
  forall (img : Image) (T : string),
    1 <= width img <= 2147483647 -> 1 <= height img <= 2147483647 ->
    T <> "" -> Z.of_nat (String.length T) < 2 ^ 32 ->
    exists x y : Q,
      watermarkCanvas img T
      = MkCanvas (width img) (height img)
          [DrawImage (src img) (Fin 0) (Fin 0) None;
           FillText T (Fin x) (Fin y)
             {| font_bold := true;
                font_px := Fin (inject_Z (8 * width img / (5 * Z.of_nat (String.length T))));
                font_family := "Arial";
                fillStyle := (200, 200, 200, Fin (1 # 2));
                textAlign := "center";
                textBaseline := "middle" |}] /\
      (x == inject_Z (width img) / 2)%Q /\ (y == inject_Z (height img) / 2)%Q.
Proof.
  intros img T Hw Hh Hne Hl.
  assert (L : 1 <= Z.of_nat (String.length T)) by (destruct T; [congruence|cbn; lia]).
  destruct (half_of_Z (width img) ltac:(lia)) as [x [Ex Hx]].
  destruct (half_of_Z (height img) ltac:(lia)) as [y [Ey Hy]].
  exists x, y. split; [|split; assumption].
  unfold watermarkCanvas. rewrite Ex, Ey.
  rewrite (watermarkFontSize_value (width img) T) by lia.
  rewrite !of_Z_fin by lia.
  rewrite !canvas_dimension_small; rewrite !to_unsigned_long_Z by lia; try lia.
  change (lit 0) with (lit (inject_Z 0)). rewrite lit_Z by lia.
  replace (lit 0.5) with (Fin (1 # 2)) by (vm_compute; reflexivity).
  reflexivity.
Qed.

End WatermarkCanvas.

(** ** What [resizeImage] does to the size *)

Section Shrinking.
Local Open Scope Z_scope.

(** X9.  [resizeImage] never enlarges: the canvas is at most as wide and
    as high as the image.  A scaled image fills the box of 1600 x 1200 up
    to one pixel, and an image of the size of a canvas that has pixels is
    not resized again. *)
Theorem resize_only_shrinks :
  forall w h : Z,
    1 <= w < 2 ^ 32 -> 1 <= h < 2 ^ 32 ->
    let rw := fst (resizedSize w h) in
    let rh := snd (resizedSize w h) in
    rw <= w /\ rh <= h /\
    (1600 < w \/ 1200 < h -> 1599 <= rw \/ 1199 <= rh) /\
    (1 <= rw -> 1 <= rh -> resizedSize rw rh = (rw, rh)).
Proof.
  intros w h Hw Hh rw rh. subst rw rh.
  destruct (resizedSize_range w h Hw Hh) as [Rw Rh].
  assert (Big : 1600 < w \/ 1200 < h ->
                fst (resizedSize w h) <= w /\ snd (resizedSize w h) <= h /\
                (1599 <= fst (resizedSize w h) \/ 1199 <= snd (resizedSize w h))).
  { intros B. pose proof (resizedSize_scaled w h Hw Hh B) as S. cbv zeta in S.
    destruct S as [[Lw Uw] [[Lh Uh] _]].
    destruct (Z.le_gt_cases (1600 * h) (1200 * w)) as [C|C].
    - rewrite Z.min_l in * by exact C.
      assert (E : 1600 * h / h = 1600) by (apply Z.div_mul; lia). rewrite E in *.
      assert (Q : 1600 * h / w <= h).
      { apply Z.div_le_upper_bound; [lia|]. nia. }
      assert (1600 <= w) by nia. lia.
    - rewrite Z.min_r in * by lia.
      assert (E : 1200 * w / w = 1200) by (apply Z.div_mul; lia). rewrite E in *.
      assert (Q : 1200 * w / h <= w).
      { apply Z.div_le_upper_bound; [lia|]. nia. }
      assert (1200 <= h) by nia. lia. }
  split; [|split; [|split]].
  - destruct (Z.le_gt_cases w 1600) as [Sw|Bw]; [destruct (Z.le_gt_cases h 1200) as [Sh|Bh]|].
    + rewrite resizedSize_small by lia. cbn [fst]. lia.
    + apply Big. lia.
    + apply Big. lia.
  - destruct (Z.le_gt_cases w 1600) as [Sw|Bw]; [destruct (Z.le_gt_cases h 1200) as [Sh|Bh]|].
    + rewrite resizedSize_small by lia. cbn [snd]. lia.
    + apply Big. lia.
    + apply Big. lia.
  - intros B. apply Big, B.
  - intros Pw Ph. apply resizedSize_small; lia.
Qed.

End Shrinking.

(** ** Labels, and an empty watermark *)

Section Labels.
Local Open Scope string_scope.

Lemma last_dot (s : string) :
  contains "." s = true ->
  exists stem ext, s = stem ++ String "." ext /\ contains "." ext = false.
Proof.
  induction s as [|a s IH]; intros H; [discriminate H|].
  cbn [contains] in H.
  destruct (contains "." s) eqn:E.
  - destruct (IH eq_refl) as [stem [ext [-> Hx]]].
    exists (String a stem), ext. split; [reflexivity|exact Hx].
  - rewrite orb_false_r in H. apply Ascii.eqb_eq in H. subst a.
    exists "", s. split; [reflexivity|exact E].
Qed.

(** X15.  Every file name is its own label and has no dot, or is its
    label followed by a dot and an extension without dot: the label is a
    prefix of the name, and what is cut starts at the last dot. *)
Theorem label_is_the_name_up_to_its_last_dot :
  forall filename : string,
    (contains "." filename = false /\ removeFileExtension filename = filename) \/
    (exists ext : string,
        contains "." ext = false /\
        filename = removeFileExtension filename ++ String "." ext).
Proof.
  intros filename. destruct (contains "." filename) eqn:E.
  - right. destruct (last_dot filename E) as [stem [ext [-> Hx]]].
    exists ext. split; [exact Hx|].
    rewrite (removeFileExtension_last_dot stem ext Hx). reflexivity.
  - left. split; [reflexivity|]. apply removeFileExtension_no_dot, E.
Qed.

(** X12.  With an empty watermark text the division by the length is a
    division by zero: the font size is [Infinity] for a positive width
    and [NaN] for the width 0, never a finite number. *)
Theorem empty_watermark_text_has_no_size :
  forall W : Z,
    (0 <= W < 2 ^ 32)%Z ->
    watermarkFontSize W "" = if (W =? 0)%Z then NaN else PosInf.
Proof.
  intros W HW. unfold watermarkFontSize. cbn [String.length Z.of_nat].
  rewrite !of_Z_fin by lia. cbn [num_div].
  change (Qeq_bool (inject_Z 0) 0) with true. cbv iota.
  destruct (Z.eqb_spec W 0) as [->|N].
  - reflexivity.
  - rewrite Qeq_bool_inject_Z_pos by lia.
    assert (P : Qle_bool 0 (inject_Z W) = true).
    { apply Qle_bool_iff. apply inject_Z_nonneg. lia. }
    rewrite P. cbn [signed_inf]. rewrite lit_16. cbn [num_mul].
    reflexivity.
Qed.

End Labels.

(** ** Titles wider than the page *)

Section LongTitles.
Local Open Scope Q_scope.

Lemma fl_of_nonneg (q : Q) : 0 <= q -> num_le (Fin 0) (fl q).
Proof.
  intros H. pose proof (flq_nonneg q H) as P. unfold fl.
  destruct (Qle_bool (pow2 1024) (Qabs (flq q))); [|exact P].
  replace (Qle_bool 0 (flq q)) with true by (symmetry; apply Qle_bool_iff, P).
  exact I.
Qed.

Lemma fl_of_nonpos (q : Q) : q <= 0 -> num_le (fl q) (Fin 0).
Proof.
  intros H. pose proof (flq_nonpos q H) as P. unfold fl.
  destruct (Qle_bool (pow2 1024) (Qabs (flq q))) eqn:E; [|exact P].
  destruct (Qle_bool 0 (flq q)) eqn:S; [|exact I].
  apply Qle_bool_iff in S. apply Qle_bool_iff in E.
  assert (Z0 : flq q == 0) by lra. rewrite Z0 in E.
  pose proof (pow2_pos 1024). change (Qabs 0) with 0 in E. lra.
Qed.

Lemma half_keeps_sign (a : number) :
  (num_le (Fin 0) a -> num_le (Fin 0) (a / Fin 2)%js) /\
  (num_le a (Fin 0) -> num_le (a / Fin 2)%js (Fin 0)).
Proof.
  destruct a as [x| | |]; cbn [num_le num_div]; try (split; tauto).
  change (Qeq_bool 2 0) with false. cbv iota. split; intros H.
  - apply fl_of_nonneg. apply Qle_shift_div_l; lra.
  - apply fl_of_nonpos. apply Qle_shift_div_r; lra.
Qed.

(** X19.  The title is neither shortened nor wrapped: when its measured
    width is at most the width of the page it starts at [x >= 0], and when
    it is wider than the page it starts at [x <= 0], left of the page. *)
Theorem long_title_leaves_the_page :
  forall (font : PDFFont) (image : PDFImage) (file : File) (t : Q),
    (0 <= png_width image < 2 ^ 32)%Z -> (0 <= png_height image < 2 ^ 32)%Z ->
    widthOfTextAtSize font (removeFileExtension (name file)) (Fin 28) = Some (Fin t) ->
    exists page title,
      layoutPage font image file = Ret page /\
      page_texts page = [title] /\
      drawn_text title = removeFileExtension (name file) /\
      (t <= inject_Z (png_width image + 100) -> num_le (Fin 0) (text_x title)) /\
      (inject_Z (png_width image + 100) <= t -> num_le (text_x title) (Fin 0)).
Proof.
  intros font image file t Hw Hh Hm.
  rewrite (layoutPage_measured font image file (Fin t) Hw Hh Hm).
  eexists. eexists. split; [reflexivity|]. cbn [page_texts drawn_text text_x].
  split; [reflexivity|]. split; [reflexivity|].
  set (P := inject_Z (png_width image + 100)).
  assert (S : (Fin P - Fin t)%js = fl (P + - t)).
  { unfold num_sub. cbn [num_neg num_add]. unfold fl.
    rewrite (flq_comp (P + Qred (- t)) (P + - t)) by (rewrite Qred_correct; reflexivity).
    reflexivity. }
  rewrite S. split; intros H.
  - apply half_keeps_sign, fl_of_nonneg. lra.
  - apply half_keeps_sign, fl_of_nonpos. lra.
Qed.

End LongTitles.

(** ** The list of selected files *)

Section Selection.
Local Open Scope nat_scope.
Local Open Scope list_scope.

Lemma filter_index_after (prev : list File) (index : nat) :
  forall k : nat,
    (index < k)%nat ->
    filter_index prev (fun i => negb (Nat.eqb i index)) k = prev.
Proof.
  induction prev as [|f prev IH]; intros k H; [reflexivity|].
  cbn [filter_index]. destruct (Nat.eqb_spec k index) as [E|_]; [lia|].
  cbn [negb]. f_equal. apply IH. lia.
Qed.

Lemma filter_index_from (prev : list File) (index : nat) :
  forall k : nat,
    (k <= index)%nat ->
    filter_index prev (fun i => negb (Nat.eqb i index)) k
    = firstn (index - k) prev ++ skipn (S (index - k)) prev.
Proof.
  induction prev as [|f prev IH]; intros k H.
  - rewrite firstn_nil, skipn_nil. reflexivity.
  - cbn [filter_index]. destruct (Nat.eqb_spec k index) as [E|N]; cbn [negb].
    + subst k. rewrite Nat.sub_diag. cbn [firstn skipn app].
      apply filter_index_after. lia.
    + rewrite IH by lia. replace (index - k)%nat with (S (index - S k)) by lia.
      reflexivity.
Qed.

Lemma handleRemoveFile_split (prev : list File) (index : nat) :
  handleRemoveFile prev index = firstn index prev ++ skipn (S index) prev.
Proof.
  unfold handleRemoveFile. rewrite filter_index_from by lia.
  rewrite Nat.sub_0_r. reflexivity.
Qed.

(** X13.  [handleRemoveFile(index)] takes out the entry at [index] and no
    other: the entries before it keep their position, those after it move
    down by one; an index beyond the end leaves the list as it is. *)
Theorem remove_takes_out_one_entry :
  forall (prev : list File) (index : nat),
    handleRemoveFile prev index = firstn index prev ++ skipn (S index) prev /\
    (List.length prev <= index -> handleRemoveFile prev index = prev) /\
    (index < List.length prev ->
       S (List.length (handleRemoveFile prev index)) = List.length prev /\
       forall j : nat,
         nth_error (handleRemoveFile prev index) j
         = nth_error prev (if j <? index then j else S j)).
Proof.
  intros prev index. split; [apply handleRemoveFile_split|]. split.
  - intros H. rewrite handleRemoveFile_split, firstn_all2, skipn_all2 by lia.
    apply app_nil_r.
  - intros H. rewrite handleRemoveFile_split. split.
    + rewrite length_app, length_firstn, length_skipn. lia.
    + intros j. destruct (Nat.ltb_spec j index) as [L|G].
      * rewrite nth_error_app1 by (rewrite length_firstn; lia).
        rewrite nth_error_firstn. apply Nat.ltb_lt in L. rewrite L. reflexivity.
      * rewrite nth_error_app2 by (rewrite length_firstn; lia).
        rewrite length_firstn, nth_error_skipn.
        f_equal. lia.
Qed.

(** X14.  Removing after dropping: removing one of the earlier entries
    commutes with the drop; removing at position [prev.length + j] removes
    the [j]-th dropped file; dropping one file and removing the last entry
    gives back the list. *)
Theorem remove_after_drop :
  forall (prev acceptedFiles : list File) (index : nat),
    (index < List.length prev ->
       handleRemoveFile (onDrop prev acceptedFiles) index
       = onDrop (handleRemoveFile prev index) acceptedFiles) /\
    handleRemoveFile (onDrop prev acceptedFiles) (List.length prev + index)
    = onDrop prev (handleRemoveFile acceptedFiles index) /\
    forall f : File, handleRemoveFile (onDrop prev [f]) (List.length prev) = prev.
Proof.
  intros prev acc index. unfold onDrop. split; [|split].
  - intros H. rewrite !handleRemoveFile_split.
    rewrite firstn_app, skipn_app.
    replace (index - List.length prev)%nat with 0%nat by lia.
    replace (S index - List.length prev)%nat with 0%nat by lia.
    cbn [firstn skipn]. rewrite app_nil_r, app_assoc. reflexivity.
  - rewrite !handleRemoveFile_split.
    rewrite firstn_app, skipn_app.
    rewrite firstn_all2, skipn_all2 by lia.
    replace (List.length prev + index - List.length prev)%nat with index by lia.
    replace (S (List.length prev + index) - List.length prev)%nat with (S index) by lia.
    cbn [app]. rewrite app_assoc. reflexivity.
  - intros f. rewrite handleRemoveFile_split.
    rewrite firstn_app, skipn_app, firstn_all, skipn_all2, Nat.sub_diag by lia.
    replace (S (List.length prev) - List.length prev)%nat with 1%nat by lia.
    cbn [firstn skipn app]. rewrite ?app_nil_r. reflexivity.
Qed.

End Selection.

(** ** The percentage next to the bar *)

Section Percentage.
Local Open Scope Q_scope.

(** The Number [(i / n) * 90] against the exact [90 i / n]. *)
Lemma progress_error (n i : Z) :
  (0 <= i < n)%Z -> (n < 2 ^ 32)%Z ->
  let x := 90 * inject_Z i / inject_Z n in
  let y := flq (flq (inject_Z i / inject_Z n) * 90) in
  x - (1 # 2 ^ 40) <= y /\ y <= x + (1 # 2 ^ 40).
Proof.
  intros Hi Hn x y.
  assert (PN : 0 < inject_Z n) by (apply inject_Z_pos; lia).
  destruct (Z.eq_dec i 0) as [->|Hi0].
  { assert (E : inject_Z 0 / inject_Z n == 0) by (unfold Qdiv; change (inject_Z 0) with 0; ring).
    assert (Ey : y == 0) by (unfold y; rewrite (flq_comp _ _ E); vm_compute; reflexivity).
    assert (Ex : x == 0) by (unfold x, Qdiv; change (inject_Z 0) with 0; ring).
    rewrite Ey, Ex. split; discriminate. }
  set (q := inject_Z i / inject_Z n) in *.
  destruct (ratio_bounds i n Hi) as [Q0 Q1]. fold q in Q0, Q1.
  assert (Hq32 : pow2 (-32) <= q).
  { unfold q. apply Qle_shift_div_l; [exact PN|].
    assert (inject_Z n <= inject_Z (2 ^ 32)) by (rewrite <- Zle_Qle; lia).
    assert (1 <= inject_Z i) by (change 1 with (inject_Z 1); rewrite <- Zle_Qle; lia).
    change (pow2 (-32)) with (1 # 4294967296). change (inject_Z (2 ^ 32)) with 4294967296 in H.
    lra. }
  assert (Hq : pow2 (-1022) <= q).
  { apply Qle_trans with (pow2 (-32)); [apply pow2_le; lia|exact Hq32]. }
  destruct (flq_rel q Hq) as [Alo Ahi]. set (a := flq q) in *.
  change (pow2 (-32)) with (1 # 4294967296) in Hq32.
  assert (Ha : pow2 (-1022) <= a * 90).
  { apply Qle_trans with (pow2 (-32)); [apply pow2_le; lia|].
    change (pow2 (-32)) with (1 # 4294967296). unfold u53 in Alo. lra. }
  destruct (flq_rel (a * 90) Ha) as [Blo Bhi]. fold y in Blo, Bhi.
  assert (Ex : x == 90 * q) by (unfold x, q; field; lra).
  rewrite Ex. unfold u53 in *.
  change (1 # 2 ^ 40) with (1 # 1099511627776).
  split; nra.
Qed.

Lemma Math_round_mono (a b : number) :
  num_le a b -> num_le (Math_round a) (Math_round b).
Proof.
  destruct a as [x| | |], b as [y| | |]; cbn [num_le Math_round]; try tauto.
  intros H. rewrite <- Zle_Qle. apply Qfloor_resp_le. lra.
Qed.

(** X16.  The percentage displayed before entry [i] of [n],
    [Math.round((i / n) * 90)], is a whole number between 0 and 90, at most
    half a point away from the exact [90 i / n], and it does not decrease
    from one entry to the next. *)
Theorem shown_percentage_is_near :
  forall n i : Z,
    (0 <= i < n)%Z -> (n < 2 ^ 32)%Z ->
    exists k : Z,
      Math_round (progressBefore n i) = Fin (inject_Z k) /\
      (0 <= k <= 90)%Z /\
      90 * inject_Z i / inject_Z n - (1 # 2) <= inject_Z k /\
      inject_Z k <= 90 * inject_Z i / inject_Z n + (1 # 2) /\
      forall j : Z,
        (i <= j < n)%Z ->
        num_le (Math_round (progressBefore n i)) (Math_round (progressBefore n j)).
Proof.
  intros n i Hi Hn.
  assert (Mono : forall j : Z,
             (i <= j < n)%Z ->
             num_le (Math_round (progressBefore n i)) (Math_round (progressBefore n j))).
  { intros j Hj. apply Math_round_mono, progressBefore_mono; lia. }
  destruct (progressBefore_value n i Hi ltac:(lia)) as [E [Y0 Y90]].
  destruct (progress_error n i Hi Hn) as [Elo Ehi]. cbv zeta in Elo, Ehi.
  set (y := flq (flq (inject_Z i / inject_Z n) * 90)) in *.
  set (k := Qfloor (y + (1 # 2))).
  exists k. rewrite E. split; [reflexivity|].
  destruct (floor_bounds (y + (1 # 2))) as [Fl Fu]. fold k in Fl, Fu.
  assert (PN : 0 < inject_Z n) by (apply inject_Z_pos; lia).
  assert (BN : inject_Z n <= 4294967296).
  { change 4294967296 with (inject_Z (2 ^ 32)). rewrite <- Zle_Qle. lia. }
  assert (Ex : (90 * inject_Z i / inject_Z n) * inject_Z n == 90 * inject_Z i) by (field; lra).
  set (x := 90 * inject_Z i / inject_Z n) in *.
  change (1 # 2 ^ 40) with (1 # 1099511627776) in Elo, Ehi.
  clearbody k x. clearbody y.
  (* whole numbers: [2 n k] against [180 i + n] *)
  assert (Up : (2 * n * k <= 180 * i + n)%Z).
  { assert (A : inject_Z (2 * n * k) < inject_Z (180 * i + n + 1)).
    { rewrite !inject_Z_plus, !inject_Z_mult.
      change (inject_Z 2) with 2. change (inject_Z 180) with 180. change (inject_Z 1) with 1.
      nra. }
    rewrite <- Zlt_Qlt in A. lia. }
  assert (Dn : (180 * i - n <= 2 * n * k)%Z).
  { assert (A : inject_Z (180 * i - n - 1) < inject_Z (2 * n * k)).
    { unfold Z.sub. rewrite !inject_Z_plus, !inject_Z_opp, !inject_Z_mult.
      change (inject_Z 2) with 2. change (inject_Z 180) with 180. change (inject_Z 1) with 1.
      nra. }
    rewrite <- Zlt_Qlt in A. lia. }
  split.
  - split.
    + assert (A : inject_Z (-1) < inject_Z k) by (change (inject_Z (-1)) with (-1); lra).
      rewrite <- Zlt_Qlt in A. lia.
    + assert (A : inject_Z k < inject_Z 91) by (change (inject_Z 91) with 91; lra).
      rewrite <- Zlt_Qlt in A. lia.
  - assert (Uq : inject_Z (2 * n * k) <= inject_Z (180 * i + n)) by (rewrite <- Zle_Qle; exact Up).
    assert (Dq : inject_Z (180 * i + - n) <= inject_Z (2 * n * k)) by (rewrite <- Zle_Qle; lia).
    rewrite !inject_Z_plus, !inject_Z_mult in Uq, Dq. rewrite inject_Z_opp in Dq.
    change (inject_Z 2) with 2 in *. change (inject_Z 180) with 180 in *.
    split.
    + apply (Qmult_le_r _ _ (inject_Z n) PN).
      assert (E1 : (x - (1 # 2)) * inject_Z n == 90 * inject_Z i - (1 # 2) * inject_Z n)
        by (rewrite <- Ex; ring).
      rewrite E1. lra.
    + split; [|rewrite <- E; exact Mono].
      apply (Qmult_le_r _ _ (inject_Z n) PN).
      assert (E1 : (x + (1 # 2)) * inject_Z n == 90 * inject_Z i + (1 # 2) * inject_Z n)
        by (rewrite <- Ex; ring).
      rewrite E1. lra.
Qed.

(** With 20 entries the exact progress before entry 7 is 31.5; the
    Number is 31.499999999999996 and 31 is displayed. *)
Example percentage_below_the_tie :
  progressBefore 20 7 = Fin (8866461766385663 # 281474976710656) /\
  Math_round (progressBefore 20 7) = Fin 31 /\
  Qfloor (90 * 7 / 20 + (1 # 2)) = 32%Z.
Proof. repeat split; vm_compute; reflexivity. Qed.

End Percentage.

(** ** From the data URL to the bytes *)

Section DataUrls.
Local Open Scope list_scope.
Local Open Scope Z_scope.

Example atob_examples :
  atob "TWFu" = Some "Man"%string /\ atob "TWE=" = Some "Ma"%string /\
  atob "TQ==" = Some "M"%string /\ atob "TQ" = Some "M"%string /\
  atob " T W F u " = Some "Man"%string /\ atob "" = Some ""%string /\
  atob "undefined" = None /\ atob "TWF$" = None /\ atob "T===" = None /\
  imageBytes "data:image/png;base64,iVBORw==" = Some [Byte.x89; Byte.x50; Byte.x4e; Byte.x47] /\
  imageBytes "data:," = Some [] /\ imageBytes "nocomma" = None /\
  toDataURL_of "image/png" [Byte.x89; Byte.x50; Byte.x4e; Byte.x47]
  = "data:image/png;base64,iVBORw=="%string.
Proof. vm_compute. repeat split; reflexivity. Qed.

(** Lists, three elements at a time. *)
Lemma list_ind3 {A : Type} (P : list A -> Prop) :
  P [] -> (forall a, P [a]) -> (forall a b, P [a; b]) ->
  (forall a b c l, P l -> P (a :: b :: c :: l)) ->
  forall l, P l.
Proof.
  intros H0 H1 H2 H3.
  assert (H : forall l, P l /\ (forall a, P (a :: l)) /\ (forall a b, P (a :: b :: l))).
  { induction l as [|c l [IH0 [IH1 IH2]]].
    - repeat split; auto.
    - split; [apply IH1|]. split; [intros a; apply IH2|].
      intros a b. apply H3, IH0. }
  intros l. apply H.
Qed.

Lemma small_cases (P : Z -> Prop) (b : nat) :
  (forall k : nat, (k < b)%nat -> P (Z.of_nat k)) ->
  forall n : Z, 0 <= n < Z.of_nat b -> P n.
Proof.
  intros H n Hn. rewrite <- (Z2Nat.id n) by lia. apply H. lia.
Qed.

Lemma base64_value_char (n : Z) :
  0 <= n < 64 -> base64_value (base64_char n) = Some n.
Proof.
  apply (small_cases (fun n => base64_value (base64_char n) = Some n) 64).
  intros k Hk. do 64 (destruct k as [|k]; [vm_compute; reflexivity|]). lia.
Qed.

Lemma base64_char_plain (n : Z) :
  0 <= n < 64 ->
  is_ascii_whitespace (base64_char n) = false /\
  Ascii.eqb (base64_char n) "=" = false /\
  Ascii.eqb (base64_char n) "," = false.
Proof.
  apply (small_cases (fun n => is_ascii_whitespace (base64_char n) = false /\
                               Ascii.eqb (base64_char n) "=" = false /\
                               Ascii.eqb (base64_char n) "," = false) 64).
  intros k Hk. do 64 (destruct k as [|k]; [vm_compute; repeat split; reflexivity|]). lia.
Qed.

Lemma Z_of_byte_range (b : Byte.byte) : 0 <= Z_of_byte b < 256.
Proof. destruct b; vm_compute; split; congruence. Qed.

Lemma byte_of_Z_of_byte (b : Byte.byte) : byte_of_Z (Z_of_byte b) = b.
Proof. destruct b; vm_compute; reflexivity. Qed.

Lemma byte_of_Z_mod (z : Z) : byte_of_Z (z mod 256) = byte_of_Z z.
Proof. unfold byte_of_Z. rewrite Z.mod_mod by lia. reflexivity. Qed.

Lemma charCode_of_byte (b : Byte.byte) :
  byte_of_Z (charCodeAt0 (ascii_of_byte b)) = b.
Proof. destruct b; vm_compute; reflexivity. Qed.

Lemma sextets_range (bs : list Byte.byte) :
  Forall (fun n => 0 <= n < 64) (sextets bs).
Proof.
  induction bs as [|a|a b|a b c l IH] using list_ind3; cbn [sextets];
    repeat constructor; try exact IH;
    try (pose proof (Z_of_byte_range a)); try (pose proof (Z_of_byte_range b));
    try (pose proof (Z_of_byte_range c));
    (Z.div_mod_to_equations; lia).
Qed.

Lemma sextets_length (bs : list Byte.byte) :
  Z.of_nat (List.length (sextets bs)) mod 4 <> 1 /\
  Z.of_nat (List.length (sextets bs) + List.length (padding bs)) mod 4 = 0.
Proof.
  induction bs as [|a|a b|a b c l [IH1 IH2]] using list_ind3;
    cbn [sextets padding List.length]; try (split; [discriminate|reflexivity]).
  rewrite !Nat2Z.inj_succ, ?Nat2Z.inj_add in *. 
  split; Z.div_mod_to_equations; lia.
Qed.

Lemma base64_values_chars (ns : list Z) :
  Forall (fun n => 0 <= n < 64) ns ->
  base64_values (map base64_char ns) = Some ns.
Proof.
  induction 1 as [|n ns Hn _ IH]; [reflexivity|].
  cbn [map base64_values]. rewrite base64_value_char, IH by exact Hn. reflexivity.
Qed.

Lemma filter_plain (ns : list Z) (pad : list ascii) :
  Forall (fun n => 0 <= n < 64) ns ->
  Forall (fun c => c = "="%char) pad ->
  filter (fun c => negb (is_ascii_whitespace c)) (map base64_char ns ++ pad)
  = map base64_char ns ++ pad.
Proof.
  intros Hn Hp. apply forallb_filter_id. rewrite forallb_app. apply andb_true_intro. split.
  - rewrite forallb_forall. intros c Hc. apply in_map_iff in Hc as [n [<- Hin]].
    rewrite Forall_forall in Hn. destruct (base64_char_plain n (Hn n Hin)) as [-> _].
    reflexivity.
  - rewrite forallb_forall. intros c Hc. rewrite Forall_forall in Hp.
    rewrite (Hp c Hc). reflexivity.
Qed.

Lemma padding_cases (bs : list Byte.byte) :
  padding bs = [] \/ padding bs = ["="%char] \/ padding bs = ["="%char; "="%char].
Proof.
  induction bs as [|a|a b|a b c l IH] using list_ind3; cbn [padding]; auto.
Qed.

Lemma last_char_plain (ns : list Z) :
  Forall (fun n => 0 <= n < 64) ns ->
  match rev (map base64_char ns) with
  | c :: _ => Ascii.eqb c "=" = false
  | [] => True
  end.
Proof.
  intros H. destruct (rev (map base64_char ns)) as [|c r] eqn:E; [exact I|].
  assert (Hin : In c (map base64_char ns)) by (apply in_rev; rewrite E; left; reflexivity).
  apply in_map_iff in Hin as [n [<- Hin]]. rewrite Forall_forall in H.
  apply (base64_char_plain n (H n Hin)).
Qed.

Lemma remove_padding_encoded (bs : list Byte.byte) :
  remove_padding (base64_encode bs) = map base64_char (sextets bs).
Proof.
  unfold remove_padding, base64_encode.
  destruct (sextets_length bs) as [_ L]. rewrite length_app, length_map, L.
  change (0 =? 0) with true. cbv iota.
  pose proof (last_char_plain (sextets bs) (sextets_range bs)) as P.
  rewrite rev_app_distr.
  destruct (padding_cases bs) as [-> | [-> | ->]]; cbn [rev app].
  - destruct (rev (map base64_char (sextets bs))) as [|c r] eqn:E.
    + apply (f_equal (@rev ascii)) in E. rewrite rev_involutive in E. rewrite E. reflexivity.
    + rewrite P, app_nil_r. reflexivity.
  - change (Ascii.eqb "=" "=") with true. cbv iota.
    destruct (rev (map base64_char (sextets bs))) as [|c r] eqn:E.
    + apply (f_equal (@rev ascii)) in E. rewrite rev_involutive in E. rewrite E. reflexivity.
    + rewrite P, <- E. apply rev_involutive.
  - change (Ascii.eqb "=" "=") with true. cbv iota. apply rev_involutive.
Qed.

Lemma decode_loop_cons (n : Z) (data : list Z) (buffer bits : Z) (output : list Byte.byte) :
  decode_loop (n :: data) buffer bits output
  = if bits + 6 =? 24
    then decode_loop data 0 0
           (output ++ [byte_of_Z ((buffer * 64 + n) / 65536);
                       byte_of_Z ((buffer * 64 + n) / 256);
                       byte_of_Z (buffer * 64 + n)])
    else decode_loop data (buffer * 64 + n) (bits + 6) output.
Proof. reflexivity. Qed.

Lemma byte_of_Z_eq (z : Z) (b : Byte.byte) :
  z mod 256 = Z_of_byte b -> byte_of_Z z = b.
Proof.
  intros H. rewrite <- byte_of_Z_mod, H. apply byte_of_Z_of_byte.
Qed.

Lemma decode_sextets (bs : list Byte.byte) :
  forall output : list Byte.byte,
    decode_finish (decode_loop (sextets bs) 0 0 output) = output ++ bs.
Proof.
  induction bs as [|a|a b|a b c l IH] using list_ind3; intros output; cbn [sextets].
  - cbn. rewrite app_nil_r. reflexivity.
  - rewrite !decode_loop_cons.
    change (0 + 6 =? 24) with false. change (0 + 6 + 6 =? 24) with false.
    cbv iota. cbn [decode_loop decode_finish].
    change (0 + 6 + 6 =? 12) with true. cbv iota.
    pose proof (Z_of_byte_range a). do 2 f_equal.
    apply byte_of_Z_eq. Z.div_mod_to_equations. lia.
  - rewrite !decode_loop_cons.
    change (0 + 6 =? 24) with false. change (0 + 6 + 6 =? 24) with false.
    change (0 + 6 + 6 + 6 =? 24) with false.
    cbv iota. cbn [decode_loop decode_finish].
    change (0 + 6 + 6 + 6 =? 12) with false. change (0 + 6 + 6 + 6 =? 18) with true.
    cbv iota.
    pose proof (Z_of_byte_range a). pose proof (Z_of_byte_range b).
    do 2 f_equal; [|f_equal]; apply byte_of_Z_eq; Z.div_mod_to_equations; lia.
  - rewrite !decode_loop_cons.
    change (0 + 6 =? 24) with false. change (0 + 6 + 6 =? 24) with false.
    change (0 + 6 + 6 + 6 =? 24) with false. change (0 + 6 + 6 + 6 + 6 =? 24) with true.
    cbv iota. rewrite IH, <- app_assoc. cbn [app].
    pose proof (Z_of_byte_range a). pose proof (Z_of_byte_range b).
    pose proof (Z_of_byte_range c).
    do 2 f_equal; [|f_equal; [|f_equal]]; apply byte_of_Z_eq; Z.div_mod_to_equations; lia.
Qed.

Lemma decode_encoded (bs : list Byte.byte) :
  forgiving_base64_decode (base64_encode bs) = Some bs.
Proof.
  unfold forgiving_base64_decode.
  assert (F : filter (fun c => negb (is_ascii_whitespace c)) (base64_encode bs)
              = base64_encode bs).
  { apply filter_plain; [apply sextets_range|].
    destruct (padding_cases bs) as [-> | [-> | ->]]; repeat constructor. }
  rewrite F, remove_padding_encoded, length_map.
  destruct (sextets_length bs) as [L _].
  destruct (Z.eqb_spec (Z.of_nat (List.length (sextets bs)) mod 4) 1) as [E|_]; [contradiction|].
  rewrite base64_values_chars by apply sextets_range.
  rewrite decode_sextets. reflexivity.
Qed.

Lemma js_split_absent (s : string) :
  contains "," s = false -> js_split "," s = [s].
Proof.
  induction s as [|a s IH]; intros H; [reflexivity|].
  cbn [contains] in H. apply orb_false_elim in H as [Ha Hs].
  cbn [js_split]. rewrite Ha, (IH Hs). reflexivity.
Qed.

Lemma js_split_first (s1 s2 : string) :
  contains "," s1 = false ->
  js_split "," (s1 ++ String "," s2) = s1 :: js_split "," s2.
Proof.
  induction s1 as [|a s1 IH]; intros H.
  - reflexivity.
  - cbn [contains] in H. apply orb_false_elim in H as [Ha Hs].
    cbn [String.append js_split]. rewrite Ha, (IH Hs). reflexivity.
Qed.

Lemma string_append_assoc (s1 s2 s3 : string) :
  (s1 ++ s2 ++ s3 = (s1 ++ s2) ++ s3)%string.
Proof.
  induction s1 as [|a s1 IH]; [reflexivity|].
  cbn [String.append]. rewrite IH. reflexivity.
Qed.

Lemma contains_append (c : ascii) (s1 s2 : string) :
  contains c (s1 ++ s2) = contains c s1 || contains c s2.
Proof.
  induction s1 as [|a s1 IH]; [reflexivity|].
  cbn [String.append contains]. rewrite IH. apply orb_assoc.
Qed.

Lemma contains_encoded (bs : list Byte.byte) :
  contains "," (string_of_list_ascii (base64_encode bs)) = false.
Proof.
  assert (G : forall l : list ascii,
             Forall (fun c => Ascii.eqb c "," = false) l ->
             contains "," (string_of_list_ascii l) = false).
  { induction 1 as [|c l Hc _ IH]; [reflexivity|].
    cbn [string_of_list_ascii contains]. rewrite Hc, IH. reflexivity. }
  apply G. unfold base64_encode. apply Forall_app. split.
  - apply Forall_forall. intros c Hc. apply in_map_iff in Hc as [n [<- Hin]].
    pose proof (sextets_range bs) as R. rewrite Forall_forall in R.
    apply (base64_char_plain n (R n Hin)).
  - destruct (padding_cases bs) as [-> | [-> | ->]]; repeat constructor.
Qed.

(** X17.  Splitting the data URL at its comma, decoding with [atob] and
    taking the character codes gives back exactly the bytes that the
    canvas encoded, for any bytes and any type without comma. *)
Theorem image_bytes_round_trip :
  forall (type : string) (bs : list Byte.byte),
    contains "," type = false ->
    imageBytes (toDataURL_of type bs) = Some bs.
Proof.
  intros type bs Ht. unfold imageBytes, toDataURL_of.
  assert (E : ("data:" ++ type ++ ";base64," ++ string_of_list_ascii (base64_encode bs))%string
              = (("data:" ++ type ++ ";base64")
                 ++ String "," (string_of_list_ascii (base64_encode bs)))%string).
  { change (";base64," ++ string_of_list_ascii (base64_encode bs))%string
      with (";base64" ++ String "," (string_of_list_ascii (base64_encode bs)))%string.
    rewrite !string_append_assoc. reflexivity. }
  rewrite E, js_split_first.
  2:{ rewrite !contains_append, Ht. reflexivity. }
  rewrite js_split_absent by apply contains_encoded.
  cbn [nth_error ToString]. unfold atob.
  rewrite list_ascii_of_string_of_list_ascii, decode_encoded.
  unfold Uint8Array_from. rewrite list_ascii_of_string_of_list_ascii, map_map.
  f_equal. rewrite <- (map_id bs) at 2. apply map_ext. apply charCode_of_byte.
Qed.

(** X18.  A URL without comma has no second piece: [atob] is given
    [undefined], read as the nine characters of that word, which is not
    base64, and throws. *)
Theorem image_bytes_need_a_comma :
  forall url : string,
    contains "," url = false ->
    nth_error (js_split "," url) 1 = None /\ imageBytes url = None.
Proof.
  intros url H. unfold imageBytes. rewrite js_split_absent by exact H.
  split; reflexivity.
Qed.

End DataUrls.

(** ** The model of Numbers against the processor *)

Section Processor.

Example widths_agree : forallb agree_on_width (Zrange 1601 400) = true.
Proof. vm_compute. reflexivity. Qed.

Example progress_agrees :
  forallb (fun n => forallb (agree_on_progress n) (Zrange 0 (Z.to_nat n)))
          (Zrange 1 24) = true.
Proof. vm_compute. reflexivity. Qed.

Example font_sizes_agree :
  forallb (fun w => agree_on_font w 12) (Zrange 1 400) = true.
Proof. vm_compute. reflexivity. Qed.

Example title_positions_agree :
  forallb (fun t => agree_on_title 1700 t) (Zrange 69990 200) = true.
Proof. vm_compute. reflexivity. Qed.

Example division_by_zero_agrees :
  number_of_float (PrimFloat.div (float_of_Z 1) (float_of_Z 0)) = (of_Z 1 / of_Z 0)%js /\
  number_of_float (PrimFloat.div (float_of_Z 0) (float_of_Z 0)) = (of_Z 0 / of_Z 0)%js.
Proof. split; vm_compute; reflexivity. Qed.

End Processor.

(** ** Runs of the sample world *)

Section Samples.
Local Open Scope string_scope.
Local Open Scope list_scope.

(** A 3183 x 100 image: the exact scaled width is 1600, the product of the
    two roundings is just below, and the canvas is 1599 pixels wide. *)
Example one_pixel_less :
  resizedSize 3183 100 = (1599, 50)%Z /\
  Qfloor (inject_Z 3183 * exactRatio 3183 100) = 1600%Z.
Proof. split; vm_compute; reflexivity. Qed.

(** A 1 x 100000 image is scaled to a canvas without pixels; its export
    is not an image and the run waits for ever on [addWatermark]. *)
Example sliver_never_finishes :
  resizedSize 1 100000 = (0, 1200)%Z /\
  snd (run otherWorld
         (addWatermark
            (CanvasUrl (resizeCanvas {| src := FileUrl (sampleFile "a.png");
                                        width := 1; height := 100000 |}
                          (lit 1600) (lit 1200))
               "image/jpeg" (lit 0.8))
            "Cleide Fotos")) = Pending.
Proof. split; vm_compute; reflexivity. Qed.

(** The second of three files holds no image: the run stops there, still
    pending, with the indicator on and nothing downloaded. *)
Example broken_file_stops_the_run :
  snd (run sampleWorld (handleGeneratePDF filesWithBroken)) = Pending /\
  filesRead (fst (run sampleWorld (handleGeneratePDF filesWithBroken)))
  = [sampleFile "a.png"; brokenFile "b.png"] /\
  effects (fst (run sampleWorld (handleGeneratePDF filesWithBroken)))
  = [SetIsGenerating true; SetProgress (Fin 0); SetProgress (Fin 0); SetProgress (Fin 30)].
Proof. repeat split; vm_compute; reflexivity. Qed.

(** The sample run downloads four pages, titled by the labels. *)
Example sample_run_titles :
  map pageTitles (saved_pages sampleDownload)
  = [["photo"]; ["archive.tar"]; [""]; ["noext"]] /\
  progressReports (effects (fst (run sampleWorld (handleGeneratePDF sampleFiles))))
  = [Fin 0; Fin 0; Fin (45 # 2); Fin 45; Fin (135 # 2); Fin 100] /\
  isGenerating (exec sampleWorld (Click :: sampleEvents) (idle sampleFiles)) = false /\
  List.length (files (exec sampleWorld (Click :: sampleEvents) (idle sampleFiles))) = 4%nat.
Proof. repeat split; vm_compute; reflexivity. Qed.

(** A 49 x 58800 image: the exact scaled size is 1 x 1200, but the
    product of the two roundings is just below 1 and the canvas is empty. *)
Example rounding_empties_the_canvas :
  resizeDims 49 58800 (lit 1600) (lit 1200)
  = (Fin (9007199254740991 # 9007199254740992), Fin 1200) /\
  resizedSize 49 58800 = (0, 1200)%Z /\
  Qfloor (inject_Z 49 * exactRatio 49 58800) = 1%Z /\
  resizedSize 3 3600 = (1, 1200)%Z.
Proof. repeat split; vm_compute; reflexivity. Qed.

End Samples.

(** ** Instances *)

Section Instances.
Local Open Scope string_scope.
Local Open Scope list_scope.

Lemma C1_one_page_per_entry_in_order_instance :
  List.length (saved_pages sampleDownload) = List.length sampleFiles /\
  (forall i f, nth_error sampleFiles i = Some f ->
     exists p, nth_error (saved_pages sampleDownload) i = Some p /\
               pageSources p = [Some f] /\
               pageTitles p = [removeFileExtension (name f)]) /\
  exists font, pdf_fonts sampleWorld "Helvetica" = Some font /\
               Forall2 (yields sampleWorld font) sampleFiles (saved_pages sampleDownload).
Proof.
  apply (C1_one_page_per_entry_in_order sampleWorld (idle sampleFiles) sampleEvents
           sampleFiles sampleDownload).
  - reflexivity.
  - discriminate.
  - reflexivity.
  - repeat (constructor; [discriminate|]). constructor.
  - vm_compute. left. reflexivity.
Defined.

Lemma C2_resized_size_instance :
  (forall img : Image, width img = 3183%Z -> height img = 100%Z ->
      exists ops, resizeCanvas img (lit 1600) (lit 1200)
                  = MkCanvas (fst (resizedSize 3183 100)) (snd (resizedSize 3183 100)) ops) /\
  (3183 <= 1600 -> 100 <= 1200 -> resizedSize 3183 100 = (3183, 100))%Z /\
  ((1600 < 3183 \/ 1200 < 100)%Z ->
     resizeDims 3183 100 (lit 1600) (lit 1200)
     = (of_Z 3183 * Math_min (lit 1600 / of_Z 3183) (lit 1200 / of_Z 100),
        of_Z 100 * Math_min (lit 1600 / of_Z 3183) (lit 1200 / of_Z 100))%js /\
     (0 <= fst (resizedSize 3183 100) <= 1600)%Z /\
     (0 <= snd (resizedSize 3183 100) <= 1200)%Z /\
     (Qfloor (inject_Z 3183 * exactRatio 3183 100) - 1 <= fst (resizedSize 3183 100)
       <= Qfloor (inject_Z 3183 * exactRatio 3183 100))%Z /\
     (Qfloor (inject_Z 100 * exactRatio 3183 100) - 1 <= snd (resizedSize 3183 100)
       <= Qfloor (inject_Z 100 * exactRatio 3183 100))%Z).
Proof.
  apply (C2_resized_size 3183 100); lia.
Defined.

Lemma C3_progress_sequence_instance :
  let tr := fst (run sampleWorld (handleGeneratePDF sampleFiles)) in
  List.length (filesRead tr) = 4%nat /\
  downloads (effects tr) = [sampleDownload] /\
  progressReports (effects tr)
  = [Fin 0; Fin 0; Fin (45 # 2); Fin 45; Fin (135 # 2); Fin 100] /\
  timeline tr
  = [Reported (Fin 0);
     Reported (Fin 0); Processing (sampleFile "photo.jpg");
     Reported (Fin (45 # 2)); Processing (sampleFile "archive.tar.gz");
     Reported (Fin 45); Processing (sampleFile ".env");
     Reported (Fin (135 # 2)); Processing (sampleFile "noext");
     Serialising (saved_pages sampleDownload); Reported (Fin 100)] /\
  StronglySorted num_le (progressReports (effects tr)).
Proof.
  destruct (C3_progress_sequence sampleWorld sampleFiles)
    as [_ [Read [_ [Marks [_ [_ [Sorted Four]]]]]]].
  - discriminate.
  - vm_compute. reflexivity.
  - assert (D : downloads (effects (fst (run sampleWorld (handleGeneratePDF sampleFiles))))
                = [sampleDownload]) by (vm_compute; reflexivity).
    assert (L : List.length (filesRead (fst (run sampleWorld (handleGeneratePDF sampleFiles))))
                = 4%nat) by (rewrite Read; vm_compute; reflexivity).
    cbv zeta. split; [exact L|]. split; [exact D|].
    split; [rewrite (Four eq_refl), L, D; reflexivity|].
    split; [rewrite Marks; vm_compute; reflexivity|exact Sorted].
Defined.

Lemma C5_watermark_font_size_instance :
  watermarkFontSize 1600 "Cleide Fotos"
  = Fin (inject_Z (Qfloor (inject_Z 1600
                           / inject_Z (Z.of_nat (String.length "Cleide Fotos"))
                           * (16 # 10)))).
Proof.
  apply (C5_watermark_font_size 1600 "Cleide Fotos").
  - lia.
  - discriminate.
  - vm_compute. reflexivity.
Defined.

Lemma C7_page_layout_instance :
  exists page : PDFPage,
    layoutPage sampleFont sampleImage (sampleFile "photo.jpg") = Ret page /\
    page_width page = Fin (inject_Z (1600 + 100)) /\
    page_height page = Fin (inject_Z (800 + 150)) /\
    page_images page =
      [{| drawn_image := sampleImage;
          image_x := Fin 50; image_y := Fin 100;
          image_width := Fin (inject_Z 1600); image_height := Fin (inject_Z 800) |}] /\
    page_texts page =
      [{| drawn_text := "photo";
          text_x := (page_width page - Fin 70) / Fin 2;
          text_y := Fin 50;
          text_size := Fin 28;
          text_font := font_name sampleFont;
          text_color := (Fin 0, Fin 0, Fin 0) |}].
Proof.
  apply (C7_page_layout sampleFont sampleImage (sampleFile "photo.jpg") 1600 800
           "photo" (Fin 70)).
  - reflexivity.
  - reflexivity.
  - lia.
  - lia.
  - reflexivity.
  - vm_compute. reflexivity.
Defined.

Lemma C8_rerun_same_structure_instance :
  List.length (saved_pages sampleDownload) = List.length (saved_pages otherDownload) /\
  map pageSources (saved_pages sampleDownload) = map pageSources (saved_pages otherDownload) /\
  map pageTitles (saved_pages sampleDownload) = map pageTitles (saved_pages otherDownload) /\
  (forall (a1 a2 : App) (evs1 evs2 : list Event),
      files a1 = sampleFiles -> files a2 = sampleFiles ->
      disabled a1 = false -> disabled a2 = false ->
      Forall (fun ev => ev <> Click) evs1 ->
      Forall (fun ev => ev <> Click) evs2 ->
      since a1 (exec sampleWorld evs1 (step sampleWorld Click a1))
      ++ remaining sampleWorld (inflight (exec sampleWorld evs1 (step sampleWorld Click a1)))
      = since a2 (exec sampleWorld evs2 (step sampleWorld Click a2))
      ++ remaining sampleWorld (inflight (exec sampleWorld evs2 (step sampleWorld Click a2)))).
Proof.
  apply (C8_rerun_same_structure sampleWorld otherWorld sampleFiles
           sampleDownload otherDownload).
  - vm_compute. left. reflexivity.
  - vm_compute. left. reflexivity.
Defined.

Lemma C9_empty_list_is_noop_instance :
  handleGeneratePDF (files (idle [])) = Ret tt /\
  run sampleWorld (handleGeneratePDF (files (idle []))) = ([], Finished tt) /\
  progress (advance (handleGeneratePDF (files (idle []))) (idle [])) = progress (idle []) /\
  isGenerating (advance (handleGeneratePDF (files (idle []))) (idle []))
  = isGenerating (idle []) /\
  files (advance (handleGeneratePDF (files (idle []))) (idle [])) = files (idle []) /\
  done (advance (handleGeneratePDF (files (idle []))) (idle [])) = done (idle []) /\
  step sampleWorld Click (idle []) = idle [].
Proof.
  apply (C9_empty_list_is_noop sampleWorld (idle [])). reflexivity.
Defined.


Lemma run_effects_in_order_instance :
  let n := Z.of_nat (List.length sampleFiles) in
  let tr := fst (run sampleWorld (handleGeneratePDF sampleFiles)) in
  let o := snd (run sampleWorld (handleGeneratePDF sampleFiles)) in
  exists started : nat,
    (started <= List.length sampleFiles)%nat /\
    filesRead tr = firstn started sampleFiles /\
    ((o = Pending /\
      effects tr
      = SetIsGenerating true :: SetProgress (lit 0) :: reportsBefore n started) \/
     (o = Finished tt /\
      effects tr
      = SetIsGenerating true :: SetProgress (lit 0) :: reportsBefore n started
        ++ [ConsoleError; SetIsGenerating false]) \/
     (o = Finished tt /\ started = List.length sampleFiles /\
      exists d font,
        pdf_fonts sampleWorld "Helvetica" = Some font /\
        Forall2 (yields sampleWorld font) sampleFiles (saved_pages d) /\
        effects tr
        = SetIsGenerating true :: SetProgress (lit 0) :: reportsBefore n started
          ++ [SetProgress (lit 100); Download d "images.pdf" "application/pdf";
              SetIsGenerating false])).
Proof.
  apply (run_effects_in_order sampleWorld sampleFiles). discriminate.
Defined.

Lemma run_logs_or_downloads_instance :
  let es := effects (fst (run sampleWorld (handleGeneratePDF filesWithBroken))) in
  match snd (run sampleWorld (handleGeneratePDF filesWithBroken)) with
  | Threw => False
  | Pending => flags es = [true] /\ errorsLogged es = 0%nat /\ downloads es = []
  | Finished _ =>
      flags es = [true; false] /\
      (errorsLogged es + List.length (downloads es) = 1)%nat /\
      last es ConsoleError = SetIsGenerating false
  end.
Proof.
  apply (run_logs_or_downloads sampleWorld filesWithBroken). discriminate.
Defined.

Lemma settled_run_frees_the_button_instance :
  let a' := exec sampleWorld (repeat Settle 19) (step sampleWorld Click (idle sampleFiles)) in
  inflight a' = None /\ isGenerating a' = false /\ disabled a' = false /\
  files a' = files (idle sampleFiles) /\
  since (idle sampleFiles) a'
  = effects (fst (run sampleWorld (handleGeneratePDF (files (idle sampleFiles))))).
Proof.
  apply (settled_run_frees_the_button sampleWorld (idle sampleFiles) 19).
  - discriminate.
  - reflexivity.
  - vm_compute. discriminate.
  - vm_compute. repeat constructor.
Defined.

Lemma pending_run_blocks_the_component_instance :
  let a' := exec sampleWorld (Click :: sampleEvents)
              (step sampleWorld Click (idle filesWithBroken)) in
  isGenerating a' = true /\ disabled a' = true /\ inflight a' <> None /\
  downloads (since (idle filesWithBroken) a') = [] /\
  errorsLogged (since (idle filesWithBroken) a') = 0%nat.
Proof.
  apply (pending_run_blocks_the_component sampleWorld (idle filesWithBroken)
           (Click :: sampleEvents)).
  - reflexivity.
  - vm_compute. reflexivity.
Defined.

Lemma undecodable_file_hangs_the_run_instance :
  let r := run sampleWorld
             (handleGeneratePDF
                ([sampleFile "a.png"] ++ brokenFile "b.png" :: [sampleFile "c.png"])) in
  snd r = Pending /\
  flags (effects (fst r)) = [true] /\
  errorsLogged (effects (fst r)) = 0%nat /\
  downloads (effects (fst r)) = [].
Proof.
  apply (undecodable_file_hangs_the_run sampleWorld sampleFont
           [sampleFile "a.png"] [sampleFile "c.png"] (brokenFile "b.png")).
  - reflexivity.
  - reflexivity.
  - constructor; [|constructor]. unfold yields. eexists. lazy. reflexivity.
  - reflexivity.
  - reflexivity.
Defined.

Lemma sliver_hangs_its_entry_instance :
  (fst (resizedSize 1 1201) = 0%Z \/ snd (resizedSize 1 1201) = 0%Z) /\
  image_size sliverWorld (resizedUrl (sampleFile "line.png") 1 1201) = None /\
  snd (run sliverWorld (processFile sampleFont (sampleFile "line.png"))) = Pending.
Proof.
  apply (sliver_hangs_its_entry sliverWorld sampleFont (sampleFile "line.png") 1 1201).
  - reflexivity.
  - reflexivity.
  - lia.
  - lia.
  - left. lia.
Defined.

Lemma resize_only_shrinks_instance :
  let rw := fst (resizedSize 3183 100) in
  let rh := snd (resizedSize 3183 100) in
  (rw <= 3183)%Z /\ (rh <= 100)%Z /\
  ((1600 < 3183)%Z \/ (1200 < 100)%Z -> (1599 <= rw)%Z \/ (1199 <= rh)%Z) /\
  ((1 <= rw)%Z -> (1 <= rh)%Z -> resizedSize rw rh = (rw, rh)).
Proof.
  apply (resize_only_shrinks 3183 100); lia.
Defined.

Lemma page_of_an_entry_instance :
  let rw := fst (resizedSize 2000 1000) in
  let rh := snd (resizedSize 2000 1000) in
  (1 <= rw <= 1600)%Z /\ (1 <= rh <= 1200)%Z /\
  page_width samplePage = Fin (inject_Z (rw + 100)) /\
  page_height samplePage = Fin (inject_Z (rh + 150)) /\
  page_images samplePage
  = [{| drawn_image := {| png := watermarkedUrl (sampleFile "photo.jpg") 2000 1000;
                          png_width := rw; png_height := rh |};
        image_x := Fin 50; image_y := Fin 100;
        image_width := Fin (inject_Z rw); image_height := Fin (inject_Z rh) |}].
Proof.
  apply (page_of_an_entry sampleWorld sampleFont (sampleFile "photo.jpg") samplePage
           2000 1000).
  - unfold yields. vm_compute. reflexivity.
  - reflexivity.
  - lia.
  - lia.
Defined.

Lemma watermark_is_centred_instance :
  exists x y : Q,
    watermarkCanvas {| src := FileUrl (sampleFile "photo.jpg"); width := 1600; height := 800 |}
      "Cleide Fotos"
    = MkCanvas 1600 800
        [DrawImage (FileUrl (sampleFile "photo.jpg")) (Fin 0) (Fin 0) None;
         FillText "Cleide Fotos" (Fin x) (Fin y)
           {| font_bold := true;
              font_px := Fin (inject_Z (8 * 1600 / (5 * Z.of_nat (String.length "Cleide Fotos"))));
              font_family := "Arial";
              fillStyle := (200%Z, 200%Z, 200%Z, Fin (1 # 2));
              textAlign := "center";
              textBaseline := "middle" |}] /\
    (x == inject_Z 1600 / 2)%Q /\ (y == inject_Z 800 / 2)%Q.
Proof.
  apply (watermark_is_centred
           {| src := FileUrl (sampleFile "photo.jpg"); width := 1600; height := 800 |}
           "Cleide Fotos").
  - cbn. lia.
  - cbn. lia.
  - discriminate.
  - vm_compute. reflexivity.
Defined.

Lemma empty_watermark_text_has_no_size_instance :
  watermarkFontSize 1600 "" = if (1600 =? 0)%Z then NaN else PosInf.
Proof.
  apply (empty_watermark_text_has_no_size 1600). lia.
Defined.

Lemma shown_percentage_is_near_instance :
  exists k : Z,
    Math_round (progressBefore 20 7) = Fin (inject_Z k) /\
    (0 <= k <= 90)%Z /\
    (90 * inject_Z 7 / inject_Z 20 - (1 # 2) <= inject_Z k)%Q /\
    (inject_Z k <= 90 * inject_Z 7 / inject_Z 20 + (1 # 2))%Q /\
    forall j : Z,
      (7 <= j < 20)%Z ->
      num_le (Math_round (progressBefore 20 7)) (Math_round (progressBefore 20 j)).
Proof.
  apply (shown_percentage_is_near 20 7); lia.
Defined.

Lemma image_bytes_round_trip_instance :
  imageBytes (toDataURL_of "image/png" pngSignature) = Some pngSignature.
Proof.
  apply (image_bytes_round_trip "image/png" pngSignature). reflexivity.
Defined.

Lemma image_bytes_need_a_comma_instance :
  nth_error (js_split "," "data:image/png;base64") 1 = None /\
  imageBytes "data:image/png;base64" = None.
Proof.
  apply (image_bytes_need_a_comma "data:image/png;base64"). reflexivity.
Defined.

Lemma long_title_leaves_the_page_instance :
  exists page title,
    layoutPage sampleFont sampleImage (sampleFile "photo.jpg") = Ret page /\
    page_texts page = [title] /\
    drawn_text title = removeFileExtension (name (sampleFile "photo.jpg")) /\
    ((70 <= inject_Z (png_width sampleImage + 100))%Q -> num_le (Fin 0) (text_x title)) /\
    ((inject_Z (png_width sampleImage + 100) <= 70)%Q -> num_le (text_x title) (Fin 0)).
Proof.
  apply (long_title_leaves_the_page sampleFont sampleImage (sampleFile "photo.jpg") 70).
  - cbn. lia.
  - cbn. lia.
  - vm_compute. reflexivity.
Defined.

Lemma thrown_failure_is_logged_once_instance :
  let r := run lockedWorld
             (handleGeneratePDF
                ([sampleFile "a.png"] ++ brokenFile "b.png" :: [sampleFile "c.png"])) in
  snd r = Finished tt /\
  errorsLogged (effects (fst r)) = 1%nat /\
  downloads (effects (fst r)) = [] /\
  flags (effects (fst r)) = [true; false] /\
  last (effects (fst r)) ConsoleError = SetIsGenerating false.
Proof.
  apply (thrown_failure_is_logged_once lockedWorld sampleFont
           [sampleFile "a.png"] [sampleFile "c.png"] (brokenFile "b.png")).
  - reflexivity.
  - reflexivity.
  - constructor; [|constructor]. unfold yields. eexists. lazy. reflexivity.
  - left. reflexivity.
Defined.

Lemma good_files_are_converted_instance :
  let r := run sampleWorld (handleGeneratePDF sampleFiles) in
  snd r = Finished tt /\
  errorsLogged (effects (fst r)) = 0%nat /\
  filesRead (fst r) = sampleFiles /\
  exists d, downloads (effects (fst r)) = [d] /\
            List.length (saved_pages d) = List.length sampleFiles.
Proof.
  apply (good_files_are_converted sampleWorld sampleFont sampleFiles).
  - discriminate.
  - reflexivity.
  - reflexivity.
  - intros f Hin. repeat (destruct Hin as [<-|Hin]); try contradiction;
      (split; [reflexivity|]); (split; [discriminate|]);
      exists 2000%Z, 1000%Z; repeat split; try reflexivity; lia.
  - discriminate.
Defined.

Lemma every_download_was_made_at_a_click_instance :
  exists (evs1 evs2 : list Event) (font : PDFFont),
    Click :: sampleEvents = evs1 ++ Click :: evs2 /\
    pdf_fonts sampleWorld "Helvetica" = Some font /\
    Forall2 (yields sampleWorld font)
      (files (exec sampleWorld evs1 (idle sampleFiles))) (saved_pages sampleDownload) /\
    List.length (saved_pages sampleDownload)
    = List.length (files (exec sampleWorld evs1 (idle sampleFiles))) /\
    map pageTitles (saved_pages sampleDownload)
    = map (fun f => [removeFileExtension (name f)])
        (files (exec sampleWorld evs1 (idle sampleFiles))).
Proof.
  apply (every_download_was_made_at_a_click sampleWorld sampleFiles
           (Click :: sampleEvents) sampleDownload).
  vm_compute. left. reflexivity.
Defined.

End Instances.
